(** * cloud-load-model: a shallow embedding of the simulation core

    The Python sources under [model/] are embedded class by class:
    [Request], [StorageNode] and [CloudSystemModel] (core.py),
    [LoadBalancer] (load_balancer.py), [AutoScaler] (autoscaler.py) and
    [MetricsCollector] (metrics.py).  The SimPy processes (generator
    functions suspended at [yield]) are embedded as an explicit event
    engine: every process has a program counter, and one event of the
    engine runs one process from the [yield] it is suspended at to its
    next [yield].

    Conventions.
    - Python [int] is [Z]; virtual time and every other Python [float]
      is a binary64 number, embedded in [Q], and float arithmetic
      rounds ([Float64]); comparisons are exact.
    - [Optional[T]] is [option T]; reason codes are Python strings.
    - Random draws (numpy) are inputs of the events; the engine checks
      that a draw lies in the range the generating call can return.
    - SimPy itself is a library: [Store], [Resource] and
      [Environment.timeout] are modelled by their contract (a store
      holds at most [capacity] items and a put on a full store stays
      pending; a resource grants at most [capacity] slots in request
      order; a timeout with a negative delay raises [ValueError]; a
      capacity that is not positive raises [ValueError], and
      [capacity=None] a [TypeError], since the constructor of the store
      compares its capacity with 0). *)

From Stdlib Require Import String.
From Stdlib Require Import ZArith QArith Qround Qpower Qreduction Qminmax.
From Stdlib Require Import List Bool Lia Lqa.
From Stdlib Require Import Permutation.
Import ListNotations.

Open Scope Z_scope.

(** ** Python floats

    A Python [float] is an IEEE 754 binary64 number.  The finite ones
    are rationals, so they are embedded in [Q]; every arithmetic
    operation computes the exact result and rounds it to the nearest
    binary64 number, ties to even.  Results beyond the largest finite
    binary64 number (an infinity in Python) are outside the model: the
    rounding below keeps 53 significant bits at any magnitude. *)

Module Float64.

Definition pow2 (k : Z) : Q := Qpower 2 k.

(** For [x > 0], the [e] with [2^e <= x < 2^(e+1)]. *)
Definition mag (x : Q) : Z :=
  let k := Z.log2 (Qnum x) - Z.log2 (Zpos (Qden x)) in
  if Qle_bool (pow2 k) x then k else k - 1.

(** The nearest integer, ties to the even one. *)
Definition rne (x : Q) : Z :=
  let f := Qfloor x in
  match (x - inject_Z f ?= 1#2)%Q with
  | Lt => f
  | Gt => f + 1
  | Eq => if Z.even f then f else f + 1
  end.

(** The exponent of the last place of the binary64 numbers around
    [x > 0]: 53 bits, and the subnormal step [2^-1074] at the bottom. *)
Definition ulp_exp (x : Q) : Z := Z.max (mag x - 52) (-1074).

Definition round_pos (x : Q) : Q :=
  let q := ulp_exp x in
  (inject_Z (rne (x / pow2 q)) * pow2 q)%Q.

(** Rounding to binary64; the result is in lowest terms. *)
Definition round (x : Q) : Q :=
  Qred match (x ?= 0)%Q with
       | Eq => 0%Q
       | Gt => round_pos x
       | Lt => (- round_pos (- x))%Q
       end.

(** [x + y], [x - y], [x * y] and [x / y] on floats. *)
Definition add (x y : Q) : Q := round (x + y).
Definition sub (x y : Q) : Q := round (x - y).
Definition mul (x y : Q) : Q := round (x * y).
Definition div (x y : Q) : Q := round (x / y).

(** [float(z)], the conversion of an [int] operand. *)
Definition of_Z (z : Z) : Q := round (inject_Z z).

(** [sum(l)] on floats: the items are added from the left. *)
Definition sum (l : list Q) : Q := fold_left add l 0%Q.

(** The literal [0.1]. *)
Definition tenth : Q := round (1#10).

End Float64.

(** ** Python helpers *)

(** The exceptions a constructor of the model can end with. *)
Inductive PyError : Type := TypeError | ValueError.

(** [a < b] on floats. *)
Definition Qlt_bool (a b : Q) : bool := negb (Qle_bool b a).

(** [l[k]] for a Python list: negative indexes count from the end, an
    index out of range raises [IndexError] ([None]). *)
Definition py_index {A : Type} (l : list A) (k : Z) : option A :=
  let n := Z.of_nat (length l) in
  if (0 <=? k) && (k <? n) then nth_error l (Z.to_nat k)
  else if (- n <=? k) && (k <? 0) then nth_error l (Z.to_nat (n + k))
  else None.

(** [len(l)] as an operand of a division. *)
Definition Qlen {A : Type} (l : list A) : Q := inject_Z (Z.of_nat (length l)).

(** [l[i] = x] where [i] is known to be a valid position. *)
Fixpoint list_set {A : Type} (l : list A) (i : nat) (x : A) : list A :=
  match l, i with
  | [], _ => []
  | _ :: t, O => x :: t
  | h :: t, S j => h :: list_set t j x
  end.

(** ** core.py: Request *)

Module Request.

Record t : Type := mk {
  request_id : Z;
  arrival_time : Q;
  queue_entry_time : option Q;
  start_time : option Q;
  finish_time : option Q;
  node_id : option Z;
  rejected : bool;
  rejected_reason : option string;
  service_time : option Q
}.

(** [Request(request_id=.., arrival_time=..)]: the dataclass defaults. *)
Definition new (rid : Z) (arrival : Q) : t :=
  mk rid arrival None None None None false None None.

Definition get_response_time (r : t) : option Q :=
  match finish_time r with
  | Some f => Some (Float64.sub f (arrival_time r))
  | None => None
  end.

Definition get_wait_time (r : t) : option Q :=
  match start_time r, queue_entry_time r with
  | Some s, Some q => Some (Float64.sub s q)
  | _, _ => None
  end.

(** Attribute assignments performed by the model. *)
Definition set_service_time (r : t) (s : Q) : t :=
  mk (request_id r) (arrival_time r) (queue_entry_time r) (start_time r)
     (finish_time r) (node_id r) (rejected r) (rejected_reason r) (Some s).

Definition set_queue_entry_time (r : t) (q : Q) : t :=
  mk (request_id r) (arrival_time r) (Some q) (start_time r)
     (finish_time r) (node_id r) (rejected r) (rejected_reason r)
     (service_time r).

(** [request.rejected = True; request.rejected_reason = reason] *)
Definition reject (r : t) (reason : string) : t :=
  mk (request_id r) (arrival_time r) (queue_entry_time r) (start_time r)
     (finish_time r) (node_id r) true (Some reason) (service_time r).

(** [request.node_id = nid; request.start_time = now] *)
Definition set_start (r : t) (nid : Z) (now : Q) : t :=
  mk (request_id r) (arrival_time r) (queue_entry_time r) (Some now)
     (finish_time r) (Some nid) (rejected r) (rejected_reason r)
     (service_time r).

Definition set_finish_time (r : t) (now : Q) : t :=
  mk (request_id r) (arrival_time r) (queue_entry_time r) (start_time r)
     (Some now) (node_id r) (rejected r) (rejected_reason r)
     (service_time r).

End Request.

(** The three reason codes written by the model. *)
Definition queue_full : string := "queue_full".
Definition wait_timeout : string := "wait_timeout".
Definition no_nodes : string := "no_nodes".

(** ** core.py: StorageNode *)

Module StorageNode.

(** [uid] is the identity of the Python object: [node_id] is the pool
    index at creation and is reused after a removal, so two distinct
    node objects (each with its own [simpy.Resource]) may carry the
    same [node_id]. *)
Record t : Type := mk {
  uid : nat;
  node_id : Z;
  capacity : Z;
  is_active : bool
}.

(** [StorageNode(env, node_id, capacity)]; [simpy.Resource] refuses a
    capacity that is not positive. *)
Definition new (u : nat) (nid cap : Z) : option t :=
  if 0 <? cap then Some (mk u nid cap true) else None.

Definition deactivate (n : t) : t :=
  mk (uid n) (node_id n) (capacity n) false.

End StorageNode.

(** ** load_balancer.py: LoadBalancer *)

Module LoadBalancer.

Record t : Type := mk { current_index : Z }.

Definition new : t := mk 0.

Definition select_node (lb : t) (nodes : list StorageNode.t)
  : option StorageNode.t * t :=
  match nodes with
  | [] => (None, lb)
  | _ =>
    let active_nodes := filter StorageNode.is_active nodes in
    match active_nodes with
    | [] => (None, lb)
    | _ =>
      let n := Z.of_nat (length active_nodes) in
      (py_index active_nodes (current_index lb mod n),
       mk ((current_index lb + 1) mod n))
    end
  end.

Definition reset (lb : t) : t := mk 0.

End LoadBalancer.

(** ** core.py: CloudSystemModel (the object and its plain methods) *)

Module CloudSystemModel.

(** The constructor arguments that are stored and never reassigned. *)
Record Config : Type := mkConfig {
  lambda_rate : Q;
  service_time_min : Q;
  service_time_max : Q;
  net_delay_min : Q;
  net_delay_max : Q;
  max_requests_in_flight : option Z;
  node_capacity : Z;
  max_wait_time : option Q
}.

(** The defaults of [__init__]. *)
Definition default_config : Config :=
  mkConfig 1%Q (1#2)%Q 2%Q 0%Q Float64.tenth None 1 None.

Record t : Type := mk {
  cfg : Config;
  queue_capacity : Z;                 (* capacity of self.queue *)
  queue_items : list Request.t;       (* self.queue.items *)
  nodes : list StorageNode.t;
  next_request_id : Z;
  processed_requests : list Request.t;
  rejected_requests : list Request.t;
  is_running : bool;
  is_paused : bool;
  objects_created : nat               (* StorageNode objects built so far *)
}.

Definition set_queue_items (m : t) (q : list Request.t) : t :=
  mk (cfg m) (queue_capacity m) q (nodes m) (next_request_id m)
     (processed_requests m) (rejected_requests m) (is_running m)
     (is_paused m) (objects_created m).

Definition set_next_request_id (m : t) (n : Z) : t :=
  mk (cfg m) (queue_capacity m) (queue_items m) (nodes m) n
     (processed_requests m) (rejected_requests m) (is_running m)
     (is_paused m) (objects_created m).

Definition set_processed_requests (m : t) (l : list Request.t) : t :=
  mk (cfg m) (queue_capacity m) (queue_items m) (nodes m)
     (next_request_id m) l (rejected_requests m) (is_running m)
     (is_paused m) (objects_created m).

Definition set_rejected_requests (m : t) (l : list Request.t) : t :=
  mk (cfg m) (queue_capacity m) (queue_items m) (nodes m)
     (next_request_id m) (processed_requests m) l (is_running m)
     (is_paused m) (objects_created m).

Definition set_is_running (m : t) (b : bool) : t :=
  mk (cfg m) (queue_capacity m) (queue_items m) (nodes m)
     (next_request_id m) (processed_requests m) (rejected_requests m) b
     (is_paused m) (objects_created m).

Definition set_is_paused (m : t) (b : bool) : t :=
  mk (cfg m) (queue_capacity m) (queue_items m) (nodes m)
     (next_request_id m) (processed_requests m) (rejected_requests m)
     (is_running m) b (objects_created m).

(** [add_node]: the id of the new node is the current pool length;
    [None] is the [ValueError] of [simpy.Resource]. *)
Definition add_node (m : t) : option (StorageNode.t * t) :=
  let node_id := Z.of_nat (length (nodes m)) in
  match StorageNode.new (objects_created m) node_id
                        (node_capacity (cfg m)) with
  | Some node =>
    Some (node,
          mk (cfg m) (queue_capacity m) (queue_items m)
             (nodes m ++ [node]) (next_request_id m)
             (processed_requests m) (rejected_requests m) (is_running m)
             (is_paused m) (S (objects_created m)))
  | None => None
  end.

(** [remove_node]: pops the node added last.  The popped object is
    marked inactive; it leaves the pool, and the processes that still
    hold it never read the flag. *)
Definition remove_node (m : t) : bool * t :=
  if 0 <? Z.of_nat (length (nodes m)) then
    (true,
     mk (cfg m) (queue_capacity m) (queue_items m)
        (removelast (nodes m)) (next_request_id m)
        (processed_requests m) (rejected_requests m) (is_running m)
        (is_paused m) (objects_created m))
  else (false, m).

Definition get_active_nodes (m : t) : list StorageNode.t :=
  filter StorageNode.is_active (nodes m).

Definition get_queue_length (m : t) : Z :=
  Z.of_nat (length (queue_items m)).

(** [for i in range(initial_nodes): self.add_node()] *)
Fixpoint add_nodes (k : nat) (m : t) : option t :=
  match k with
  | O => Some m
  | S k' =>
    match add_node m with
    | Some (_, m') => add_nodes k' m'
    | None => None
    end
  end.

(** [__init__].  No argument is checked by the constructor itself; it
    ends with the exception of a SimPy constructor it calls:
    [simpy.Store(env, capacity=queue_capacity)] evaluates
    [capacity <= 0], a [TypeError] when [max_requests_in_flight] and so
    [queue_capacity] is [None], and raises [ValueError] when the
    capacity is not positive; so does the resource of a node. *)
Definition init (c : Config) (initial_nodes : Z) : PyError + t :=
  match max_requests_in_flight c with
  | None => inl TypeError
  | Some cap =>
    let queue_capacity := cap * 10 in
    if 0 <? queue_capacity then
      match add_nodes (Z.to_nat initial_nodes)
                      (mk c queue_capacity [] [] 0 [] [] false false O) with
      | Some m => inr m
      | None => inl ValueError
      end
    else inl ValueError
  end.

(** Mean of the response times of the finished requests in [l], the
    expression [sum(response_times) / len(response_times)] that core
    callers guard with [if response_times]. *)
Definition response_times (l : list Request.t) : list Q :=
  flat_map (fun r => match Request.get_response_time r with
                     | Some x => [x]
                     | None => []
                     end) l.

Definition mean (l : list Q) : Q :=
  Float64.div (Float64.sum l) (Float64.of_Z (Z.of_nat (length l))).

End CloudSystemModel.

(** ** metrics.py: MetricsCollector *)

Module MetricsCollector.

Record t : Type := mk {
  max_history_size : nat;
  time_series : list Q;
  queue_length_series : list Z;
  nodes_count_series : list Z;
  avg_response_time_series : list Q;
  total_requests : Z;
  processed_requests : list Request.t;
  rejected_requests : list Request.t;
  sla_threshold : option Q
}.

Definition new (max_history_size : nat) : t :=
  mk max_history_size [] [] [] [] 0 [] [] None.

(** [deque(maxlen=n).append(x)]: the oldest entry is dropped once the
    bound is exceeded. *)
Definition deque_append {A : Type} (maxlen : nat) (d : list A) (x : A)
  : list A :=
  let d' := d ++ [x] in skipn (length d' - maxlen) d'.

Definition record_snapshot (c : t) (sim_time : Q) (queue_length : Z)
    (nodes_count : Z) (avg_response_time : Q) : t :=
  let n := max_history_size c in
  mk n
     (deque_append n (time_series c) sim_time)
     (deque_append n (queue_length_series c) queue_length)
     (deque_append n (nodes_count_series c) nodes_count)
     (deque_append n (avg_response_time_series c) avg_response_time)
     (total_requests c) (processed_requests c) (rejected_requests c)
     (sla_threshold c).


(** The loop of [get_aggregated_metrics] over [range(len(time_series)-1)]:
    [dt = time_series[i+1] - time_series[i]], weighted by
    [queue_length_series[i]].  [None] is the [IndexError] of a queue
    series that is too short. *)
Fixpoint area_loop (ts : list Q) (qs : list Z) (acc : Q * Q)
  : option (Q * Q) :=
  match ts with
  | t1 :: ((t2 :: _) as ts') =>
    match qs with
    | q :: qs' =>
      let dt := Float64.sub t2 t1 in
      area_loop ts' qs'
        (Float64.add (fst acc) (Float64.mul (Float64.of_Z q) dt),
         Float64.add (snd acc) dt)
    | [] => None
    end
  | _ => Some acc
  end.

(** The [avg_queue_length] entry of [get_aggregated_metrics]. *)
Definition avg_queue_length (c : t) : option Q :=
  let ts := time_series c in
  let qs := queue_length_series c in
  if (1 <? length ts)%nat && (1 <? length qs)%nat then
    match area_loop ts qs (0%Q, 0%Q) with
    | Some (total_area, total_time) =>
      if Qlt_bool 0 total_time
      then Some (Float64.div total_area total_time)
      else Some (inject_Z (last qs 0))
    | None => None
    end
  else
    match qs with
    | [] => Some 0%Q
    | _ => Some (Float64.div (inject_Z (fold_left Z.add qs 0%Z)) (Qlen qs))
    end.





End MetricsCollector.

(** ** autoscaler.py: AutoScaler *)

Module AutoScaler.

(** The metrics dictionary handed to [should_scale_up] and
    [should_scale_down]; every producer fills the three keys. *)
Record Metrics : Type := mkMetrics {
  queue_length : Q;
  avg_response_time : Q;
  active_nodes : Z
}.

(** The constructor arguments that are stored and never reassigned. *)
Record Config : Type := mkConfig {
  min_nodes : Z;
  max_nodes : Z;
  low_threshold : Q;
  high_threshold : Q;
  control_interval : Q;
  scale_cooldown : Q
}.

Definition default_config : Config := mkConfig 1 10 2%Q 10%Q 5%Q 10%Q.

(** The two messages [scale_up] and [scale_down] pass to [_log], with
    the node counts before and after. *)
Inductive ScaleMessage : Type :=
| ScaledUp (current_nodes new_nodes : Z)
| ScaledDown (current_nodes new_nodes : Z).

Record t : Type := mk {
  cfg : Config;
  last_scale_time : Q;
  consecutive_low_intervals : Z;
  required_consecutive_low : Z;
  metrics_history : list (Q * Metrics);
  interval_start_time : Q;
  interval_queue_lengths : list (Q * Z);
  interval_response_times : list Q;
  is_running : bool;
  is_paused : bool;
  (* what the log callback has received from scale_up / scale_down,
     newest first, each with env.now at the call *)
  scale_log : list (Q * ScaleMessage)
}.

(** [__init__]: plain assignments, nothing is checked. *)
Definition init (c : Config) : t :=
  mk c 0%Q 0 2 [] 0%Q [] [] false false [].

Definition set_consecutive_low_intervals (a : t) (n : Z) : t :=
  mk (cfg a) (last_scale_time a) n (required_consecutive_low a)
     (metrics_history a) (interval_start_time a)
     (interval_queue_lengths a) (interval_response_times a)
     (is_running a) (is_paused a) (scale_log a).

Definition set_is_running (a : t) (b : bool) : t :=
  mk (cfg a) (last_scale_time a) (consecutive_low_intervals a)
     (required_consecutive_low a) (metrics_history a)
     (interval_start_time a) (interval_queue_lengths a)
     (interval_response_times a) b (is_paused a) (scale_log a).

Definition set_is_paused (a : t) (b : bool) : t :=
  mk (cfg a) (last_scale_time a) (consecutive_low_intervals a)
     (required_consecutive_low a) (metrics_history a)
     (interval_start_time a) (interval_queue_lengths a)
     (interval_response_times a) (is_running a) b (scale_log a).

Definition set_interval (a : t) (start : Q) (qls : list (Q * Z))
    (rts : list Q) : t :=
  mk (cfg a) (last_scale_time a) (consecutive_low_intervals a)
     (required_consecutive_low a) (metrics_history a) start qls rts
     (is_running a) (is_paused a) (scale_log a).

Definition push_history (a : t) (now : Q) (x : Metrics) : t :=
  mk (cfg a) (last_scale_time a) (consecutive_low_intervals a)
     (required_consecutive_low a) (metrics_history a ++ [(now, x)])
     (interval_start_time a) (interval_queue_lengths a)
     (interval_response_times a) (is_running a) (is_paused a)
     (scale_log a).

(** [self.last_scale_time = now; self.consecutive_low_intervals = 0]
    followed by the log call. *)
Definition scaled (a : t) (now : Q) (msg : ScaleMessage) : t :=
  mk (cfg a) now 0 (required_consecutive_low a) (metrics_history a)
     (interval_start_time a) (interval_queue_lengths a)
     (interval_response_times a) (is_running a) (is_paused a)
     ((now, msg) :: scale_log a).

Definition current_nodes (m : CloudSystemModel.t) : Z :=
  Z.of_nat (length (CloudSystemModel.get_active_nodes m)).

(** [self.env.now - self.last_scale_time >= self.scale_cooldown], the
    difference being the float one. *)
Definition cooldown_ok (a : t) (now : Q) : bool :=
  Qle_bool (scale_cooldown (cfg a)) (Float64.sub now (last_scale_time a)).

Definition should_scale_up (a : t) (now : Q) (m : CloudSystemModel.t)
    (metrics : Metrics) : bool :=
  let condition :=
    Qlt_bool (high_threshold (cfg a)) (queue_length metrics)
    || Qlt_bool (high_threshold (cfg a)) (avg_response_time metrics) in
  let can_scale := current_nodes m <? max_nodes (cfg a) in
  condition && can_scale && cooldown_ok a now.

(** The three-part test of [should_scale_down]. *)
Definition low_condition (a : t) (now : Q) (m : CloudSystemModel.t)
    (metrics : Metrics) : bool :=
  let condition :=
    Qlt_bool (queue_length metrics) (low_threshold (cfg a))
    && Qlt_bool (avg_response_time metrics) (low_threshold (cfg a)) in
  let can_scale := min_nodes (cfg a) <? current_nodes m in
  condition && can_scale && cooldown_ok a now.

Definition should_scale_down (a : t) (now : Q) (m : CloudSystemModel.t)
    (metrics : Metrics) : bool * t :=
  if low_condition a now m metrics then
    let a' := set_consecutive_low_intervals a
                (consecutive_low_intervals a + 1) in
    (required_consecutive_low a' <=? consecutive_low_intervals a', a')
  else
    (false, set_consecutive_low_intervals a 0).

(** [None] is the [ValueError] [add_node] can raise. *)
Definition scale_up (a : t) (now : Q) (m : CloudSystemModel.t)
  : option (bool * t * CloudSystemModel.t) :=
  let cur := current_nodes m in
  if cur <? max_nodes (cfg a) then
    match CloudSystemModel.add_node m with
    | Some (_, m') =>
      Some (true, scaled a now (ScaledUp cur (current_nodes m')), m')
    | None => None
    end
  else Some (false, a, m).

Definition scale_down (a : t) (now : Q) (m : CloudSystemModel.t)
  : bool * t * CloudSystemModel.t :=
  let cur := current_nodes m in
  if min_nodes (cfg a) <? cur then
    let m' := snd (CloudSystemModel.remove_node m) in
    (true, scaled a now (ScaledDown cur (current_nodes m')), m')
  else (false, a, m).

(** The loop of [_calculate_interval_metrics] over consecutive samples
    [(t1, q1)], [(t2, q2)]; the accumulator is
    [(total_area, total_time)]. *)
Fixpoint trapezoid_loop (l : list (Q * Z)) (acc : Q * Q) : Q * Q :=
  match l with
  | (t1, q1) :: (((t2, q2) :: _) as l') =>
    let dt := Float64.sub t2 t1 in
    trapezoid_loop l'
      (if Qlt_bool 0 dt
       then (Float64.add (fst acc)
               (Float64.mul (Float64.div (Float64.of_Z (q1 + q2)) 2) dt),
             Float64.add (snd acc) dt)
       else acc)
  | _ => acc
  end.

(** The average queue length of an interval, from the samples as they
    are after the final one has been appended. *)
Definition interval_avg_queue_length (samples : list (Q * Z))
    (current_queue_length : Z) : Q :=
  if (1 <? length samples)%nat then
    let '(total_area, total_time) := trapezoid_loop samples (0%Q, 0%Q) in
    if Qlt_bool 0 total_time then Float64.div total_area total_time
    else inject_Z current_queue_length
  else
    match samples with
    | [] => inject_Z current_queue_length
    | _ => inject_Z (snd (last samples (0%Q, 0)))
    end.

(** The sample list after the first statement of
    [_calculate_interval_metrics]. *)
Definition with_final_sample (samples : list (Q * Z))
    (interval_end_time : Q) (current_queue_length : Z) : list (Q * Z) :=
  match samples with
  | [] => [(interval_end_time, current_queue_length)]
  | _ =>
    if Qlt_bool (fst (last samples (0%Q, 0))) interval_end_time
    then samples ++ [(interval_end_time, current_queue_length)]
    else samples
  end.

Definition finished_in (a : t) (interval_end_time : Q) (r : Request.t)
  : bool :=
  match Request.get_response_time r, Request.finish_time r with
  | Some _, Some f =>
    Qle_bool (interval_start_time a) f && Qle_bool f interval_end_time
  | _, _ => false
  end.

Definition _calculate_interval_metrics (a : t) (interval_end_time : Q)
    (m : CloudSystemModel.t) : Metrics * t :=
  let current_queue_length := CloudSystemModel.get_queue_length m in
  let samples := with_final_sample (interval_queue_lengths a)
                   interval_end_time current_queue_length in
  let processed := CloudSystemModel.processed_requests m in
  let in_interval :=
    CloudSystemModel.response_times
      (filter (finished_in a interval_end_time) processed) in
  let rts := interval_response_times a ++ in_interval in
  let avg_queue_length :=
    interval_avg_queue_length samples current_queue_length in
  let avg_rt :=
    match rts with
    | _ :: _ => CloudSystemModel.mean rts
    | [] =>
      match CloudSystemModel.response_times processed with
      | (_ :: _) as all => CloudSystemModel.mean all
      | [] => 0%Q
      end
    end in
  (mkMetrics avg_queue_length avg_rt (current_nodes m),
   set_interval a (interval_start_time a) samples rts).

(** The decision of one pass of [control_loop]:
    [if should_scale_up: scale_up() elif should_scale_down: scale_down()]. *)
Definition decide (a : t) (now : Q) (m : CloudSystemModel.t)
    (metrics : Metrics) : option (t * CloudSystemModel.t) :=
  if should_scale_up a now m metrics then
    match scale_up a now m with
    | Some (_, a', m') => Some (a', m')
    | None => None
    end
  else
    let '(down, a1) := should_scale_down a now m metrics in
    if down then
      let '(_, a2, m2) := scale_down a1 now m in Some (a2, m2)
    else Some (a1, m).

(** One pass of [control_loop] after its timeout: interval metrics,
    history, decision, reset of the interval. *)
Definition control_pass (a : t) (now : Q) (m : CloudSystemModel.t)
  : option (t * CloudSystemModel.t) :=
  let '(metrics, a1) := _calculate_interval_metrics a now m in
  let a2 := push_history a1 now metrics in
  match decide a2 now m metrics with
  | Some (a3, m') => Some (set_interval a3 now [] [], m')
  | None => None
  end.

Definition reset (a : t) : t :=
  mk (cfg a) 0%Q 0 (required_consecutive_low a) []
     (interval_start_time a) (interval_queue_lengths a)
     (interval_response_times a) (is_running a) (is_paused a)
     (scale_log a).

End AutoScaler.

(** ** The SimPy processes as an event engine

    The log messages other than the two scaling messages, and the idle
    loop of [request_processor] after it has started its workers, change
    nothing of the state and are left out. *)

(** Program counter of [CloudSystemModel.request_generator]: the [yield]
    it is suspended at. *)
Inductive GenPc : Type :=
| GenWaitArrival (due : option Q)   (* timeout(interarrival); None: inf *)
| GenWaitPause (due : Q)            (* timeout(0.1) while paused *)
| GenBlockedPut (r : Request.t)     (* queue.put(request) on a full store *)
| GenPutDone                        (* the pending put went through *)
| GenDone.                          (* the loop was left *)

(** Program counter of one [_single_request_processor] together with the
    [_process_request] it drives. *)
Inductive Worker : Type :=
| WGet                                                 (* queue.get() *)
| WPaused (due : Q)                                    (* timeout(0.1) *)
| WNetDelay (r : Request.t) (node : StorageNode.t) (due : Q)
| WWaitSlot (r : Request.t) (node : StorageNode.t)     (* yield req *)
| WService (r : Request.t) (node : StorageNode.t) (due : Q)
| WExit.

(** Program counters of [AutoScaler.control_loop] and of
    [AutoScaler.metrics_collector_loop]. *)
Inductive CtlPc : Type :=
| CtlWait (due : Q)
| CtlPaused (due : Q)
| CtlDone.

Inductive SamplerPc : Type :=
| SampWait (due : Q)
| SampPaused (due : Q)
| SampDone.

Record Sim : Type := mkSim {
  now : Q;                               (* env.now *)
  model : CloudSystemModel.t;
  balancer : LoadBalancer.t;
  scaler : AutoScaler.t;
  gen : GenPc;
  workers : list Worker;
  (* pending slot requests of all resources, oldest first:
     (uid of the node, index of the waiting worker) *)
  slot_queue : list (nat * nat);
  ctl : CtlPc;
  sampler : SamplerPc
}.

(** What a put on the store does. *)
Inductive PutResult : Type :=
| PutSucceeded (items : list Request.t)
| PutPending
| PutRaised.

(** [simpy.Store.put]: the item is accepted while fewer than [capacity]
    items are stored, otherwise the put event stays pending.  It has no
    raising outcome. *)
Definition store_put (capacity : Z) (items : list Request.t)
    (r : Request.t) : PutResult :=
  if Z.of_nat (length items) <? capacity then PutSucceeded (items ++ [r])
  else PutPending.

(** The request a worker holds, if any. *)
Definition held (w : Worker) : list Request.t :=
  match w with
  | WNetDelay r _ _ | WWaitSlot r _ | WService r _ _ => [r]
  | _ => []
  end.

Definition gen_held (g : GenPc) : list Request.t :=
  match g with
  | GenBlockedPut r => [r]
  | _ => []
  end.

(** [node.resource.users]: the requests that hold a slot of [node]. *)
Definition resource_users (ws : list Worker) (node : StorageNode.t)
  : list Request.t :=
  flat_map (fun w =>
    match w with
    | WService r n _ =>
      if Nat.eqb (StorageNode.uid n) (StorageNode.uid node) then [r] else []
    | _ => []
    end) ws.

(** [sum(len(node.resource.users) for node in self.nodes)] *)
Definition in_processing (ws : list Worker) (ns : list StorageNode.t) : Z :=
  fold_left Z.add
    (map (fun n => Z.of_nat (length (resource_users ws n))) ns) 0.

(** [x] can be the result of [np.random.uniform(lo, hi)]. *)
Definition drawn_uniform (lo hi x : Q) : bool :=
  (Qle_bool lo x && Qle_bool x hi) || (Qle_bool hi x && Qle_bool x lo).

(** [generate_network_delay] can return [d]. *)
Definition net_delay_drawn (c : CloudSystemModel.Config) (d : Q) : bool :=
  if Qlt_bool (CloudSystemModel.net_delay_min c)
              (CloudSystemModel.net_delay_max c)
  then drawn_uniform (CloudSystemModel.net_delay_min c)
                     (CloudSystemModel.net_delay_max c) d
  else Qeq_bool d (CloudSystemModel.net_delay_min c).

(** Top of the [while self.is_running] loop of the generator, down to
    its next [yield]; [ia] is the exponential draw.  [None]: [ia] is not
    a value the draw can take. *)
Definition gen_loop_top (t : Q) (m : CloudSystemModel.t) (ia : Q)
  : option GenPc :=
  if CloudSystemModel.is_running m then
    if CloudSystemModel.is_paused m
    then Some (GenWaitPause (Float64.add t Float64.tenth))
    else if Qlt_bool 0 (CloudSystemModel.lambda_rate (CloudSystemModel.cfg m))
    then if Qle_bool 0 ia
         then Some (GenWaitArrival (Some (Float64.add t ia)))
         else None
    else Some (GenWaitArrival None)
  else Some GenDone.

(** Top of the loop of [_single_request_processor]. *)
Definition worker_loop_top (t : Q) (m : CloudSystemModel.t) : Worker :=
  if CloudSystemModel.is_running m then
    if CloudSystemModel.is_paused m
    then WPaused (Float64.add t Float64.tenth) else WGet
  else WExit.

(** The admission test of the generator:
    [max_requests_in_flight is not None and
     current_in_system >= max_requests_in_flight]. *)
Definition over_cap (m : CloudSystemModel.t) (ws : list Worker) : bool :=
  match CloudSystemModel.max_requests_in_flight (CloudSystemModel.cfg m) with
  | Some cap =>
    let current_in_system :=
      Z.of_nat (length (CloudSystemModel.queue_items m))
      + in_processing ws (CloudSystemModel.nodes m) in
    cap <=? current_in_system
  | None => false
  end.

(** The body of [request_generator] from the creation of the request to
    the [yield] of the put or the [continue]: the new model and the
    program counter the generator is left at ([None]: it goes back to
    the top of its loop).  [put] is the store operation. *)
Definition generate_request
    (put : Z -> list Request.t -> Request.t -> PutResult)
    (t : Q) (m : CloudSystemModel.t) (ws : list Worker) (svc : Q)
  : CloudSystemModel.t * option GenPc :=
  let request := Request.new (CloudSystemModel.next_request_id m) t in
  let m := CloudSystemModel.set_next_request_id m
             (CloudSystemModel.next_request_id m + 1) in
  let request := Request.set_service_time request svc in
  if over_cap m ws then
    (CloudSystemModel.set_rejected_requests m
       (CloudSystemModel.rejected_requests m
        ++ [Request.reject request queue_full]), None)
  else
    let request := Request.set_queue_entry_time request t in
    match put (CloudSystemModel.queue_capacity m)
              (CloudSystemModel.queue_items m) request with
    | PutSucceeded items => (CloudSystemModel.set_queue_items m items, None)
    | PutPending => (m, Some (GenBlockedPut request))
    | PutRaised =>
      (CloudSystemModel.set_rejected_requests m
         (CloudSystemModel.rejected_requests m
          ++ [Request.reject request queue_full]), None)
    end.

Definition set_gen (s : Sim) (m : CloudSystemModel.t) (g : GenPc) : Sim :=
  mkSim (now s) m (balancer s) (scaler s) g (workers s) (slot_queue s)
        (ctl s) (sampler s).

(** The generator runs from the [yield] it is suspended at to the next. *)
Definition gen_step (svc ia : Q) (s : Sim) : option Sim :=
  let resume m :=
    match gen_loop_top (now s) m ia with
    | Some g => Some (set_gen s m g)
    | None => None
    end in
  match gen s with
  | GenWaitArrival (Some due) =>
    if Qeq_bool (now s) due then
      if CloudSystemModel.is_running (model s) then
        let c := CloudSystemModel.cfg (model s) in
        if drawn_uniform (CloudSystemModel.service_time_min c)
                         (CloudSystemModel.service_time_max c) svc then
          match generate_request store_put (now s) (model s) (workers s) svc
          with
          | (m, Some g) => Some (set_gen s m g)
          | (m, None) => resume m
          end
        else None
      else Some (set_gen s (model s) GenDone)
    else None
  | GenWaitPause due =>
    if Qeq_bool (now s) due then resume (model s) else None
  | GenPutDone => resume (model s)
  | _ => None
  end.

Definition set_workers (s : Sim) (m : CloudSystemModel.t)
    (ws : list Worker) (sq : list (nat * nat)) : Sim :=
  mkSim (now s) m (balancer s) (scaler s) (gen s) ws sq (ctl s) (sampler s).

(** [yield self.env.timeout(service_time)] once a slot is held: the
    timeout is scheduled at [env.now + service_time], a float addition;
    [None] is the error of a delay that is negative or missing. *)
Definition begin_service (t : Q) (r : Request.t) (node : StorageNode.t)
  : option Worker :=
  match Request.service_time r with
  | Some x =>
    if Qle_bool 0 x then Some (WService r node (Float64.add t x)) else None
  | None => None
  end.

(** The oldest pending slot request of the resource [u], taken out of
    the request queue. *)
Fixpoint take_waiter (u : nat) (q : list (nat * nat))
  : option (nat * list (nat * nat)) :=
  match q with
  | [] => None
  | (u', w) :: q' =>
    if Nat.eqb u' u then Some (w, q')
    else match take_waiter u q' with
         | Some (w', q'') => Some (w', (u', w) :: q'')
         | None => None
         end
  end.

(** A worker blocked in [queue.get()] receives the oldest item and runs
    to its next [yield]; [d] is the network-delay draw. *)
Definition worker_get_step (w : nat) (d : Q) (s : Sim) : option Sim :=
  match nth_error (workers s) w, CloudSystemModel.queue_items (model s) with
  | Some WGet, request :: rest =>
    let m := CloudSystemModel.set_queue_items (model s) rest in
    (* a put that was pending is served now that an item has left *)
    let '(m, g) :=
      match gen s with
      | GenBlockedPut r2 =>
        match store_put (CloudSystemModel.queue_capacity m)
                        (CloudSystemModel.queue_items m) r2 with
        | PutSucceeded items =>
          (CloudSystemModel.set_queue_items m items, GenPutDone)
        | _ => (m, gen s)
        end
      | g => (m, g)
      end in
    let c := CloudSystemModel.cfg m in
    let timed_out :=
      match CloudSystemModel.max_wait_time c,
            Request.queue_entry_time request with
      | Some mw, Some qe => Qlt_bool mw (Float64.sub (now s) qe)
      | _, _ => false
      end in
    if timed_out then
      let m := CloudSystemModel.set_rejected_requests m
                 (CloudSystemModel.rejected_requests m
                  ++ [Request.reject request wait_timeout]) in
      Some (mkSim (now s) m (balancer s) (scaler s) g
                  (list_set (workers s) w (worker_loop_top (now s) m))
                  (slot_queue s) (ctl s) (sampler s))
    else
      match LoadBalancer.select_node (balancer s)
              (CloudSystemModel.get_active_nodes m) with
      | (None, lb) =>
        let m := CloudSystemModel.set_rejected_requests m
                   (CloudSystemModel.rejected_requests m
                    ++ [Request.reject request no_nodes]) in
        Some (mkSim (now s) m lb (scaler s) g
                    (list_set (workers s) w (worker_loop_top (now s) m))
                    (slot_queue s) (ctl s) (sampler s))
      | (Some node, lb) =>
        if net_delay_drawn c d && Qle_bool 0 d then
          Some (mkSim (now s) m lb (scaler s) g
                      (list_set (workers s) w
                         (WNetDelay request node (Float64.add (now s) d)))
                      (slot_queue s) (ctl s) (sampler s))
        else None
      end
  | _, _ => None
  end.

(** A timeout of worker [w] fires: the pause, the network delay
    (the body of [StorageNode.process_request] up to its [yield]) or the
    service (the rest of it, and the append to the processed list). *)
Definition worker_wake_step (w : nat) (s : Sim) : option Sim :=
  match nth_error (workers s) w with
  | Some (WPaused due) =>
    if Qeq_bool (now s) due then
      Some (set_workers s (model s)
              (list_set (workers s) w (worker_loop_top (now s) (model s)))
              (slot_queue s))
    else None
  | Some (WNetDelay r node due) =>
    if Qeq_bool (now s) due then
      let r := Request.set_start r (StorageNode.node_id node) (now s) in
      if Z.of_nat (length (resource_users (workers s) node))
         <? StorageNode.capacity node then
        match begin_service (now s) r node with
        | Some busy =>
          Some (set_workers s (model s) (list_set (workers s) w busy)
                  (slot_queue s))
        | None => None
        end
      else
        Some (set_workers s (model s)
                (list_set (workers s) w (WWaitSlot r node))
                (slot_queue s ++ [(StorageNode.uid node, w)]))
    else None
  | Some (WService r node due) =>
    if Qeq_bool (now s) due then
      let r := Request.set_finish_time r (now s) in
      let m := CloudSystemModel.set_processed_requests (model s)
                 (CloudSystemModel.processed_requests (model s) ++ [r]) in
      let ws := list_set (workers s) w (worker_loop_top (now s) m) in
      (* the slot is released: the oldest waiter of this resource gets it *)
      match take_waiter (StorageNode.uid node) (slot_queue s) with
      | Some (w2, sq) =>
        match nth_error ws w2 with
        | Some (WWaitSlot r2 node2) =>
          match begin_service (now s) r2 node2 with
          | Some busy => Some (set_workers s m (list_set ws w2 busy) sq)
          | None => None
          end
        | _ => None
        end
      | None => Some (set_workers s m ws (slot_queue s))
      end
    else None
  | _ => None
  end.

Definition set_scaler (s : Sim) (m : CloudSystemModel.t)
    (a : AutoScaler.t) (c : CtlPc) (p : SamplerPc) : Sim :=
  mkSim (now s) m (balancer s) a (gen s) (workers s) (slot_queue s) c p.

(** Top of the loop of [control_loop]; [None] is the [ValueError] of a
    negative control interval. *)
Definition ctl_loop_top (t : Q) (a : AutoScaler.t) : option CtlPc :=
  if AutoScaler.is_running a then
    if AutoScaler.is_paused a
    then Some (CtlPaused (Float64.add t Float64.tenth))
    else
      let ci := AutoScaler.control_interval (AutoScaler.cfg a) in
      if Qle_bool 0 ci then Some (CtlWait (Float64.add t ci)) else None
  else Some CtlDone.

Definition sampler_loop_top (t : Q) (a : AutoScaler.t) : SamplerPc :=
  if AutoScaler.is_running a then
    if AutoScaler.is_paused a
    then SampPaused (Float64.add t Float64.tenth)
    else SampWait (Float64.add t Float64.tenth)
  else SampDone.

(** The controller wakes from its timeout. *)
Definition control_step (s : Sim) : option Sim :=
  let resume m a :=
    match ctl_loop_top (now s) a with
    | Some c => Some (set_scaler s m a c (sampler s))
    | None => None
    end in
  match ctl s with
  | CtlWait due =>
    if Qeq_bool (now s) due then
      if AutoScaler.is_running (scaler s) then
        match AutoScaler.control_pass (scaler s) (now s) (model s) with
        | Some (a, m) => resume m a
        | None => None
        end
      else Some (set_scaler s (model s) (scaler s) CtlDone (sampler s))
    else None
  | CtlPaused due =>
    if Qeq_bool (now s) due then resume (model s) (scaler s) else None
  | CtlDone => None
  end.

(** The queue-length sampler wakes from its timeout. *)
Definition sample_step (s : Sim) : option Sim :=
  match sampler s with
  | SampWait due =>
    if Qeq_bool (now s) due then
      if AutoScaler.is_running (scaler s) then
        let a := scaler s in
        let a := AutoScaler.set_interval a (AutoScaler.interval_start_time a)
                   (AutoScaler.interval_queue_lengths a
                    ++ [(now s, CloudSystemModel.get_queue_length (model s))])
                   (AutoScaler.interval_response_times a) in
        Some (set_scaler s (model s) a (ctl s) (sampler_loop_top (now s) a))
      else Some (set_scaler s (model s) (scaler s) (ctl s) SampDone)
    else None
  | SampPaused due =>
    if Qeq_bool (now s) due then
      Some (set_scaler s (model s) (scaler s) (ctl s)
              (sampler_loop_top (now s) (scaler s)))
    else None
  | SampDone => None
  end.

(** The flags are written by the driving thread. *)
Definition set_flags (running paused : bool -> bool) (s : Sim) : Sim :=
  let m := model s in
  let a := scaler s in
  mkSim (now s)
    (CloudSystemModel.set_is_paused
       (CloudSystemModel.set_is_running m
          (running (CloudSystemModel.is_running m)))
       (paused (CloudSystemModel.is_paused m)))
    (balancer s)
    (AutoScaler.set_is_paused
       (AutoScaler.set_is_running a (running (AutoScaler.is_running a)))
       (paused (AutoScaler.is_paused a)))
    (gen s) (workers s) (slot_queue s) (ctl s) (sampler s).

(** The times at which pending timeouts fire. *)
Definition worker_due (w : Worker) : list Q :=
  match w with
  | WPaused d | WNetDelay _ _ d | WService _ _ d => [d]
  | _ => []
  end.

Definition dues (s : Sim) : list Q :=
  match gen s with
  | GenWaitArrival (Some d) | GenWaitPause d => [d]
  | _ => []
  end
  ++ flat_map worker_due (workers s)
  ++ match ctl s with CtlWait d | CtlPaused d => [d] | CtlDone => [] end
  ++ match sampler s with
     | SampWait d | SampPaused d => [d]
     | SampDone => []
     end.

Definition is_WGet (w : Worker) : bool :=
  match w with WGet => true | _ => false end.

(** Something is due at the current time without any timeout: a get that
    can be served, or the generator whose put has gone through. *)
Definition immediate_pending (s : Sim) : bool :=
  match gen s with GenPutDone => true | _ => false end
  || (match CloudSystemModel.queue_items (model s) with
      | [] => false
      | _ => true
      end && existsb is_WGet (workers s)).

(** The clock moves to [t], the time of the next scheduled event or of
    the end of the chunk the driver runs. *)
Definition advance_step (t : Q) (s : Sim) : option Sim :=
  if Qle_bool (now s) t && forallb (Qle_bool t) (dues s)
     && negb (immediate_pending s)
  then Some (mkSim t (model s) (balancer s) (scaler s) (gen s) (workers s)
                   (slot_queue s) (ctl s) (sampler s))
  else None.

Inductive Event : Type :=
| EAdvance (t : Q)
| EGenerator (svc ia : Q)
| EWorkerGet (w : nat) (net_delay : Q)
| EWorkerWake (w : nat)
| EControl
| ESample
| EStop
| EPause
| EResume.

(** One event of the engine; [None]: the event cannot occur in this
    state, or the process it runs raises and the run ends there. *)
Definition step (e : Event) (s : Sim) : option Sim :=
  match e with
  | EAdvance t => advance_step t s
  | EGenerator svc ia => gen_step svc ia s
  | EWorkerGet w d => worker_get_step w d s
  | EWorkerWake w => worker_wake_step w s
  | EControl => control_step s
  | ESample => sample_step s
  | EStop => Some (set_flags (fun _ => false) (fun b => b) s)
  | EPause => Some (set_flags (fun b => b) (fun _ => true) s)
  | EResume => Some (set_flags (fun b => b) (fun _ => false) s)
  end.

Fixpoint run (es : list Event) (s : Sim) : option Sim :=
  match es with
  | [] => Some s
  | e :: es' =>
    match step e s with
    | Some s' => run es' s'
    | None => None
    end
  end.

(** The number of [_single_request_processor] processes that
    [request_processor] starts. *)
Definition max_parallel_processors (c : CloudSystemModel.Config) : nat :=
  match CloudSystemModel.max_requests_in_flight c with
  | Some cap => Z.to_nat cap
  | None => 100%nat
  end.

(** The objects are built, the flags are raised and the three processes
    are started at time 0, as the driver does; [ia] is the first
    inter-arrival draw. *)
Definition start (mc : CloudSystemModel.Config) (initial_nodes : Z)
    (sc : AutoScaler.Config) (ia : Q) : option Sim :=
  match CloudSystemModel.init mc initial_nodes with
  | inr m0 =>
    let m := CloudSystemModel.set_is_running m0 true in
    let a := AutoScaler.set_is_running (AutoScaler.init sc) true in
    match gen_loop_top 0 m ia, ctl_loop_top 0 a with
    | Some g, Some c =>
      Some (mkSim 0%Q m LoadBalancer.new a g
                  (repeat WGet (max_parallel_processors mc)) [] c
                  (sampler_loop_top 0 a))
    | _, _ => None
    end
  | inl _ => None
  end.

(** The states of a run. *)
Inductive reachable_from (s0 : Sim) : Sim -> Prop :=
| reach_refl : reachable_from s0 s0
| reach_step : forall s e s',
    reachable_from s0 s -> step e s = Some s' -> reachable_from s0 s'.

Definition reachable (s : Sim) : Prop :=
  exists mc initial_nodes sc ia s0,
    start mc initial_nodes sc ia = Some s0 /\ reachable_from s0 s.

(** ** Reference definitions used in the statements *)





(** A collector that has recorded exactly the snapshots of [series]. *)
Definition collector_of (series : list (Q * Z)) : MetricsCollector.t :=
  MetricsCollector.mk (Z.to_nat 10000) (map fst series) (map snd series) [] [] 0 [] []
    None.


(** Consecutive entries of the scale log are at least [cooldown] apart,
    by the float difference that the controller computes; the log is
    newest first. *)
Fixpoint gaps_ok (cooldown : Q) (log : list (Q * AutoScaler.ScaleMessage))
  : Prop :=
  match log with
  | (t2, _) :: (((t1, _) :: _) as rest) =>
    (cooldown <= Float64.sub t2 t1)%Q /\ gaps_ok cooldown rest
  | _ => True
  end.

(** Every request the run knows of, place by place. *)
Definition in_flight (s : Sim) : list Request.t :=
  gen_held (gen s) ++ flat_map held (workers s).

Definition all_requests (s : Sim) : list Request.t :=
  CloudSystemModel.processed_requests (model s)
  ++ CloudSystemModel.rejected_requests (model s)
  ++ CloudSystemModel.queue_items (model s)
  ++ in_flight s.

Definition ids (s : Sim) : list Z := map Request.request_id (all_requests s).

(** A pass of the controller removes a node only through [scale_down]. *)
Definition removed_node (m m' : CloudSystemModel.t) : Prop :=
  (length (CloudSystemModel.nodes m') < length (CloudSystemModel.nodes m))%nat.

(** Configurations used in the examples.  [preset_config] is the default
    configuration with the in-flight cap of the presets. *)
Definition preset_config : CloudSystemModel.Config :=
  CloudSystemModel.mkConfig 1 (1#2) 2 0 Float64.tenth (Some 100) 1 None.



(** Two snapshots, [(0, 0)] and [(1, 2)], recorded by a fresh collector
    and sampled by the controller. *)
Definition ramp_series : list (Q * Z) := [(0%Q, 0); (1%Q, 2)].


(** ** Invariants of a run *)

(** The generator is suspended at a timeout or has ended. *)
Definition gen_idle (g : GenPc) : Prop :=
  match g with
  | GenWaitArrival _ | GenWaitPause _ | GenDone => True
  | _ => False
  end.

(** Occurrences of the id [z] among the requests of [l]. *)
Definition idcount (l : list Request.t) (z : Z) : nat :=
  count_occ Z.eq_dec (map Request.request_id l) z.

Definition in_range (n z : Z) : bool := (0 <=? z) && (z <? n).

Definition known_reason (r : Request.t) : Prop :=
  Request.rejected_reason r = Some queue_full
  \/ Request.rejected_reason r = Some wait_timeout
  \/ Request.rejected_reason r = Some no_nodes.

Definition is_processed (r : Request.t) : Prop :=
  Request.rejected r = false /\ Request.finish_time r <> None.

Definition is_rejected (r : Request.t) : Prop :=
  Request.rejected r = true /\ Request.finish_time r = None
  /\ Request.start_time r = None /\ known_reason r.

Definition is_waiting (r : Request.t) : Prop :=
  Request.rejected r = false /\ Request.finish_time r = None
  /\ Request.start_time r = None.

Definition is_held (r : Request.t) : Prop :=
  Request.rejected r = false /\ Request.finish_time r = None.

(** Every id below [next_request_id] is at exactly one place, and the
    flags of a request match its place. *)
Record accounted (s : Sim) : Prop := mkAccounted {
  acc_next : 0 <= CloudSystemModel.next_request_id (model s);
  acc_count : forall z,
    idcount (all_requests s) z
    = if in_range (CloudSystemModel.next_request_id (model s)) z
      then 1%nat else 0%nat;
  acc_length :
    Z.of_nat (length (all_requests s))
    = CloudSystemModel.next_request_id (model s);
  acc_processed :
    Forall is_processed (CloudSystemModel.processed_requests (model s));
  acc_rejected :
    Forall is_rejected (CloudSystemModel.rejected_requests (model s));
  acc_queue : Forall is_waiting (CloudSystemModel.queue_items (model s));
  acc_gen : Forall is_waiting (gen_held (gen s));
  acc_workers :
    Forall (fun w => match w with
                     | WNetDelay r _ _ => is_waiting r
                     | WWaitSlot r _ | WService r _ _ => is_held r
                     | _ => True
                     end) (workers s)
}.

(** Time stamps of a request that waits in the queue. *)
Definition stamped_queued (t : Q) (r : Request.t) : Prop :=
  Request.queue_entry_time r = Some (Request.arrival_time r)
  /\ (0 <= Request.arrival_time r)%Q
  /\ (Request.arrival_time r <= t)%Q.

Definition stamped_started (t : Q) (r : Request.t) : Prop :=
  Request.queue_entry_time r = Some (Request.arrival_time r)
  /\ (0 <= Request.arrival_time r)%Q
  /\ exists st, Request.start_time r = Some st
                /\ (Request.arrival_time r <= st)%Q /\ (st <= t)%Q.

Definition stamped_serving (t : Q) (r : Request.t) : Prop :=
  Request.queue_entry_time r = Some (Request.arrival_time r)
  /\ (0 <= Request.arrival_time r)%Q
  /\ exists st x, Request.start_time r = Some st
                  /\ Request.service_time r = Some x
                  /\ (Request.arrival_time r <= st)%Q
                  /\ (0 <= x)%Q /\ (st <= t)%Q.

Definition stamped_completed (r : Request.t) : Prop :=
  Request.queue_entry_time r = Some (Request.arrival_time r)
  /\ (0 <= Request.arrival_time r)%Q
  /\ exists st ft x, Request.start_time r = Some st
                     /\ Request.finish_time r = Some ft
                     /\ Request.service_time r = Some x
                     /\ (Request.arrival_time r <= st)%Q
                     /\ (0 <= x)%Q /\ (st <= ft)%Q.

Definition worker_stamps (t : Q) (w : Worker) : Prop :=
  match w with
  | WNetDelay r _ _ => stamped_queued t r
  | WWaitSlot r _ => stamped_started t r
  | WService r _ _ => stamped_serving t r
  | _ => True
  end.

Record timed (s : Sim) : Prop := mkTimed {
  tm_now : (0 <= now s)%Q;
  tm_queue :
    Forall (stamped_queued (now s)) (CloudSystemModel.queue_items (model s));
  tm_gen : Forall (stamped_queued (now s)) (gen_held (gen s));
  tm_workers : Forall (worker_stamps (now s)) (workers s);
  tm_processed :
    Forall stamped_completed (CloudSystemModel.processed_requests (model s))
}.

(** The put of the generator has always gone through at once. *)
Record put_never_waits (s : Sim) : Prop := mkPutNeverWaits {
  pn_capacity :
    exists cap,
      CloudSystemModel.max_requests_in_flight
        (CloudSystemModel.cfg (model s)) = Some cap
      /\ CloudSystemModel.queue_capacity (model s) = cap * 10;
  pn_gen : gen_idle (gen s);
  pn_rejected :
    Forall (fun r => Request.rejected_reason r = Some queue_full ->
                     Request.queue_entry_time r = None)
           (CloudSystemModel.rejected_requests (model s))
}.

(** The scale log and the time of the last action agree, and the log
    respects the cooldown. *)
Record cooled (s : Sim) : Prop := mkCooled {
  cl_gaps :
    gaps_ok (AutoScaler.scale_cooldown (AutoScaler.cfg (scaler s)))
            (AutoScaler.scale_log (scaler s));
  cl_last :
    match AutoScaler.scale_log (scaler s) with
    | (t, _) :: _ => AutoScaler.last_scale_time (scaler s) = t
    | [] => True
    end
}.

(** [x] is a float. *)
Definition is_float (x : Q) : Prop := (Float64.round x == x)%Q.

(** Consecutive entries of the scale log are at least [cooldown] apart
    in exact arithmetic. *)
Fixpoint gaps_exact (cooldown : Q)
    (log : list (Q * AutoScaler.ScaleMessage)) : Prop :=
  match log with
  | (t2, _) :: (((t1, _) :: _) as rest) =>
    (cooldown <= t2 - t1)%Q /\ gaps_exact cooldown rest
  | _ => True
  end.

(** The timeout of the controller is due at a float. *)
Definition ctl_due_float (c : CtlPc) : Prop :=
  match c with
  | CtlWait due | CtlPaused due => is_float due
  | CtlDone => True
  end.

(** The times of the scale log are floats that the clock has reached;
    with a positive cooldown none is earlier than the cooldown, as
    [last_scale_time] starts at 0; and they are [cooldown] apart. *)
Record stamped_log (s : Sim) : Prop := mkStampedLog {
  sl_ctl : ctl_due_float (ctl s);
  sl_times :
    Forall (fun e =>
              is_float (fst e) /\ (fst e <= now s)%Q
              /\ ((0 < AutoScaler.scale_cooldown (AutoScaler.cfg (scaler s)))%Q ->
                  (AutoScaler.scale_cooldown (AutoScaler.cfg (scaler s))
                   <= fst e)%Q))
           (AutoScaler.scale_log (scaler s));
  sl_first :
    AutoScaler.scale_log (scaler s) = [] ->
    AutoScaler.last_scale_time (scaler s) = 0%Q;
  sl_gaps :
    gaps_exact (AutoScaler.scale_cooldown (AutoScaler.cfg (scaler s)))
               (AutoScaler.scale_log (scaler s))
}.

(** The active node count is within the bounds of the controller. *)
Definition bounded (s : Sim) : Prop :=
  AutoScaler.min_nodes (AutoScaler.cfg (scaler s))
  <= AutoScaler.current_nodes (model s)
  <= AutoScaler.max_nodes (AutoScaler.cfg (scaler s)).

(** Two models that differ at most in their node pool. *)
Definition same_requests (m m' : CloudSystemModel.t) : Prop :=
  CloudSystemModel.cfg m' = CloudSystemModel.cfg m
  /\ CloudSystemModel.queue_capacity m' = CloudSystemModel.queue_capacity m
  /\ CloudSystemModel.queue_items m' = CloudSystemModel.queue_items m
  /\ CloudSystemModel.next_request_id m' = CloudSystemModel.next_request_id m
  /\ CloudSystemModel.processed_requests m'
     = CloudSystemModel.processed_requests m
  /\ CloudSystemModel.rejected_requests m'
     = CloudSystemModel.rejected_requests m.

(** What the controller and the sampler leave unchanged. *)
Definition same_scaling (a a' : AutoScaler.t) : Prop :=
  AutoScaler.cfg a' = AutoScaler.cfg a
  /\ AutoScaler.last_scale_time a' = AutoScaler.last_scale_time a
  /\ AutoScaler.scale_log a' = AutoScaler.scale_log a
  /\ AutoScaler.consecutive_low_intervals a'
     = AutoScaler.consecutive_low_intervals a
  /\ AutoScaler.required_consecutive_low a'
     = AutoScaler.required_consecutive_low a.

(** Occurrences of [z] as the id of the single request [r]. *)
Definition idc1 (r : Request.t) (z : Z) : nat :=
  if Z.eq_dec (Request.request_id r) z then 1%nat else 0%nat.

(** ** Concrete runs *)

Definition run_from (mc : CloudSystemModel.Config) (initial_nodes : Z)
    (sc : AutoScaler.Config) (ia : Q) (es : list Event) : option Sim :=
  match start mc initial_nodes sc ia with
  | Some s0 => run es s0
  | None => None
  end.

(** The time of the [k]-th sample: [0.1] added [k] times. *)
Fixpoint tick (k : nat) : Q :=
  match k with
  | O => 0%Q
  | S k' => Float64.add (tick k') Float64.tenth
  end.

(** The clock and the sampler up to the [k]-th sample; the controller
    runs every [period] samples. *)
Fixpoint sampled (period k : nat) : list Event :=
  match k with
  | O => []
  | S k' =>
    sampled period k'
    ++ [EAdvance (tick k); ESample]
    ++ (if Nat.eqb (Nat.modulo k period) 0 then [EControl] else [])
  end.

(** No network delay: [net_delay_min = net_delay_max = 0]. *)
Definition zero_delay_config : CloudSystemModel.Config :=
  CloudSystemModel.mkConfig 1 (1#2) 2 0 0 (Some 100) 1 None.

(** The double 0.05, the first inter-arrival time of the runs below. *)
Definition first_arrival : Q := Float64.round (1#20).

(** One request arrives at 0.05, is taken at once by an idle worker,
    starts at once and is served for 0.5. *)
Definition completed_run : list Event :=
  [EAdvance first_arrival; EGenerator (1#2) 5; EWorkerGet 0 0;
   EWorkerWake 0]
  ++ sampled 50 5
  ++ [EAdvance (Float64.add first_arrival (1#2)); EWorkerWake 0].

(** One request arrives at 0.05 with a service time of 2 and is in
    service from then on; the run is stopped at time 1. *)
Definition interrupted_run : list Event :=
  [EAdvance first_arrival; EGenerator 2 5; EWorkerGet 0 0;
   EWorkerWake 0]
  ++ sampled 50 10
  ++ [EAdvance 1; EStop].

(** A controller that always sees demand: the high threshold is below
    every queue length; it runs with every sample, and its cooldown is
    two samples long. *)
Definition eager_config : AutoScaler.Config :=
  AutoScaler.mkConfig 1 10 (-2) (-1) Float64.tenth (Float64.round (2#10)).

(** Two properties a run does not have in general: every request
    created is in a terminal collection, and the time stamps of a
    processed request strictly increase. *)
Definition all_terminal (s : Sim) : Prop :=
  Z.of_nat (length (CloudSystemModel.processed_requests (model s)))
  + Z.of_nat (length (CloudSystemModel.rejected_requests (model s)))
  = CloudSystemModel.next_request_id (model s).


(** A pool of three nodes with the default settings, and two metric
    readings: an idle interval and a loaded one. *)
Definition three_nodes : CloudSystemModel.t :=
  match CloudSystemModel.init preset_config 3 with
  | inr m => m
  | inl _ =>
    CloudSystemModel.mk preset_config 1000 [] [] 0 [] [] false false O
  end.

(** Service times from 0.1 to 2, no network delay.  One request
    arrives at 0.7, the time of the seventh sample, starts at once and
    is served for 0.1. *)
Definition short_service_config : CloudSystemModel.Config :=
  CloudSystemModel.mkConfig 1 Float64.tenth 2 0 0 (Some 100) 1 None.

Definition short_service_run : list Event :=
  sampled 50 7
  ++ [EGenerator Float64.tenth 5; EWorkerGet 0 0; EWorkerWake 0;
      EAdvance (tick 8); EWorkerWake 0].



Definition idle_metrics : AutoScaler.Metrics := AutoScaler.mkMetrics 0 0 3.

Definition loaded_metrics : AutoScaler.Metrics := AutoScaler.mkMetrics 20 0 3.

(** ** Further definitions *)

(** [k] successive calls of [select_node] on the same node list: the
    nodes returned, in order, and the balancer afterwards. *)
Fixpoint select_many (lb : LoadBalancer.t) (nodes : list StorageNode.t)
    (k : nat) : list (option StorageNode.t) * LoadBalancer.t :=
  match k with
  | O => ([], lb)
  | S k' =>
    let '(r, lb1) := LoadBalancer.select_node lb nodes in
    let '(rs, lb2) := select_many lb1 nodes k' in
    (r :: rs, lb2)
  end.

(** A small pool: node 1 has been deactivated. *)
Definition mixed_pool : list StorageNode.t :=
  [StorageNode.mk 0 0 1 true; StorageNode.mk 1 1 1 false;
   StorageNode.mk 2 2 1 true; StorageNode.mk 3 3 1 true].

(** A sequence of calls of [record_snapshot]; a snapshot is
    [((sim_time, queue_length), nodes_count, avg_response_time)]. *)
Definition record_all (c : MetricsCollector.t)
    (snaps : list (Q * Z * Z * Q)) : MetricsCollector.t :=
  fold_left (fun c s =>
               match s with
               | (t, q, n, rt) => MetricsCollector.record_snapshot c t q n rt
               end) snaps c.

(** The last [n] entries of [l]. *)
Definition last_n {A : Type} (n : nat) (l : list A) : list A :=
  skipn (length l - n) l.

(** Times that never go back. *)
Fixpoint nondecreasing (l : list (Q * Z)) : Prop :=
  match l with
  | (t1, _) :: (((t2, _) :: _) as l') => (t1 <= t2)%Q /\ nondecreasing l'
  | _ => True
  end.

(** No recorded queue length is negative. *)
Definition nonneg_values (l : list (Q * Z)) : Prop :=
  Forall (fun p => 0 <= snd p) l.


Definition busy_series : list (Q * Z) := [(0%Q, 4); (1%Q, 6); (1%Q, 5)].





(** Why a request may have been appended to the rejected collection by a
    step from state [s]: the reason code written, and the test of the
    code that led to it. *)
Definition rejection_justified (s : Sim) (r : Request.t) (reason : string)
  : Prop :=
  (reason = queue_full
   /\ Request.queue_entry_time r = None
   /\ over_cap (model s) (workers s) = true)
  \/ (reason = wait_timeout
      /\ In r (CloudSystemModel.queue_items (model s))
      /\ exists mw qe,
           CloudSystemModel.max_wait_time (CloudSystemModel.cfg (model s))
           = Some mw
           /\ Request.queue_entry_time r = Some qe
           /\ (mw < Float64.sub (now s) qe)%Q)
  \/ (reason = no_nodes
      /\ In r (CloudSystemModel.queue_items (model s))
      /\ CloudSystemModel.get_active_nodes (model s) = []).

(** What one step may do to the terminal collections, the id counter and
    the clock. *)
Definition terminal_effect (s s' : Sim) : Prop :=
  CloudSystemModel.cfg (model s') = CloudSystemModel.cfg (model s)
  /\ (now s <= now s')%Q
  /\ CloudSystemModel.next_request_id (model s)
     <= CloudSystemModel.next_request_id (model s')
  /\ (CloudSystemModel.processed_requests (model s')
      = CloudSystemModel.processed_requests (model s)
      \/ exists r,
           CloudSystemModel.processed_requests (model s')
           = CloudSystemModel.processed_requests (model s)
             ++ [Request.set_finish_time r (now s)])
  /\ (CloudSystemModel.rejected_requests (model s')
      = CloudSystemModel.rejected_requests (model s)
      \/ exists r reason,
           CloudSystemModel.rejected_requests (model s')
           = CloudSystemModel.rejected_requests (model s)
             ++ [Request.reject r reason]
           /\ rejection_justified s r reason).


Definition not_no_nodes (r : Request.t) : Prop :=
  Request.rejected_reason r <> Some no_nodes.

(** With an in-flight cap [c], the queue holds at most [c] requests and
    there are [c] workers. *)
Definition capped (s : Sim) : Prop :=
  forall c,
    CloudSystemModel.max_requests_in_flight (CloudSystemModel.cfg (model s))
    = Some c ->
    1 <= c
    /\ Z.of_nat (length (CloudSystemModel.queue_items (model s))) <= c
    /\ length (workers s) = Z.to_nat c.

(** [get_system_state] of core.py. *)
Record SystemState : Type := mkSystemState {
  st_sim_time : Q;
  st_queue_length : Z;
  st_active_nodes : Z;
  st_total_nodes : Z;
  st_processed_count : Z;
  st_rejected_count : Z
}.

Definition get_system_state (t : Q) (m : CloudSystemModel.t) : SystemState :=
  mkSystemState t
    (CloudSystemModel.get_queue_length m)
    (Z.of_nat (length (CloudSystemModel.get_active_nodes m)))
    (Z.of_nat (length (CloudSystemModel.nodes m)))
    (Z.of_nat (length (CloudSystemModel.processed_requests m)))
    (Z.of_nat (length (CloudSystemModel.rejected_requests m))).

(** Every node of the pool is active and its id is its position. *)
Definition pool_ok (m : CloudSystemModel.t) : Prop :=
  Forall (fun n => StorageNode.is_active n = true) (CloudSystemModel.nodes m)
  /\ map StorageNode.node_id (CloudSystemModel.nodes m)
     = map Z.of_nat (seq 0 (length (CloudSystemModel.nodes m))).

(** A controller whose streak counter already stands at one. *)
Definition one_low_interval : AutoScaler.t :=
  AutoScaler.set_consecutive_low_intervals
    (AutoScaler.init AutoScaler.default_config) 1.




(** ** Rounding to binary64 *)

Lemma pow2_pos (k : Z) : (0 < Float64.pow2 k)%Q.
Proof. apply Qpower_0_lt. reflexivity. Qed.

Lemma pow2_add (a b : Z) :
  (Float64.pow2 (a + b) == Float64.pow2 a * Float64.pow2 b)%Q.
Proof. apply Qpower_plus. discriminate. Qed.

Lemma pow2_le (a b : Z) : a <= b -> (Float64.pow2 a <= Float64.pow2 b)%Q.
Proof. intro H. apply Qpower_le_compat_l; [exact H|discriminate]. Qed.

Lemma pow2_lt_inv (a b : Z) :
  (Float64.pow2 a < Float64.pow2 b)%Q -> a < b.
Proof.
  intro H. destruct (Z_lt_le_dec a b) as [Hlt|Hle]; [exact Hlt|].
  apply pow2_le in Hle. lra.
Qed.

Lemma pow2_Z (n : Z) : 0 <= n -> (Float64.pow2 n == inject_Z (2 ^ n))%Q.
Proof.
  intro H. unfold Float64.pow2. symmetry. exact (Zpower_Qpower 2 n H).
Qed.

(** Two fractions of positive integers, compared by cross
    multiplication. *)
Lemma frac_le (p q r s : Z) :
  0 < q -> 0 < s -> p * s <= r * q ->
  (inject_Z p / inject_Z q <= inject_Z r / inject_Z s)%Q.
Proof.
  intros Hq Hs H.
  assert (Hq' : (0 < inject_Z q)%Q) by (rewrite <- (Zlt_Qlt 0); exact Hq).
  assert (Hs' : (0 < inject_Z s)%Q) by (rewrite <- (Zlt_Qlt 0); exact Hs).
  apply Qle_shift_div_l; [exact Hs'|].
  setoid_replace (inject_Z p / inject_Z q * inject_Z s)%Q
    with (inject_Z p * inject_Z s / inject_Z q)%Q by (field; lra).
  apply Qle_shift_div_r; [exact Hq'|].
  rewrite <- !inject_Z_mult, <- Zle_Qle. exact H.
Qed.

Lemma frac_lt (p q r s : Z) :
  0 < q -> 0 < s -> p * s < r * q ->
  (inject_Z p / inject_Z q < inject_Z r / inject_Z s)%Q.
Proof.
  intros Hq Hs H.
  assert (Hq' : (0 < inject_Z q)%Q) by (rewrite <- (Zlt_Qlt 0); exact Hq).
  assert (Hs' : (0 < inject_Z s)%Q) by (rewrite <- (Zlt_Qlt 0); exact Hs).
  apply Qlt_shift_div_l; [exact Hs'|].
  setoid_replace (inject_Z p / inject_Z q * inject_Z s)%Q
    with (inject_Z p * inject_Z s / inject_Z q)%Q by (field; lra).
  apply Qlt_shift_div_r; [exact Hq'|].
  rewrite <- !inject_Z_mult, <- Zlt_Qlt. exact H.
Qed.

Lemma pow2_sub (a b : Z) :
  0 <= a -> 0 <= b ->
  (Float64.pow2 (a - b) == inject_Z (2 ^ a) / inject_Z (2 ^ b))%Q.
Proof.
  intros Ha Hb. unfold Float64.pow2.
  rewrite Qpower_minus by discriminate.
  rewrite (Zpower_Qpower 2 a Ha), (Zpower_Qpower 2 b Hb). reflexivity.
Qed.

(** [mag] brackets a positive number between two powers of two. *)
Lemma mag_spec (x : Q) :
  (0 < x)%Q ->
  (Float64.pow2 (Float64.mag x) <= x < Float64.pow2 (Float64.mag x + 1))%Q.
Proof.
  intro Hx. destruct x as [n d].
  assert (Hn : 0 < n).
  { unfold Qlt in Hx. simpl in Hx. lia. }
  unfold Float64.mag. cbn [Qnum Qden].
  set (a := Z.log2 n). set (b := Z.log2 (Z.pos d)).
  assert (Ha : 0 <= a) by apply Z.log2_nonneg.
  assert (Hb : 0 <= b) by apply Z.log2_nonneg.
  destruct (Z.log2_spec n Hn) as [Ha1 Ha2]. fold a in Ha1, Ha2.
  destruct (Z.log2_spec (Z.pos d) (Pos2Z.is_pos d)) as [Hb1 Hb2].
  fold b in Hb1, Hb2.
  assert (Pa : 0 < 2 ^ a) by (apply Z.pow_pos_nonneg; lia).
  assert (Pb : 0 < 2 ^ b) by (apply Z.pow_pos_nonneg; lia).
  assert (Ex : (n # d == inject_Z n / inject_Z (Z.pos d))%Q)
    by apply Qmake_Qdiv.
  assert (Hlow : (Float64.pow2 (a - b - 1) <= n # d)%Q).
  { replace (a - b - 1) with (a - (b + 1)) by lia.
    rewrite pow2_sub, Ex by lia.
    apply frac_le; [apply Z.pow_pos_nonneg; lia|lia|].
    rewrite Z.pow_succ_r in Hb2 by lia.
    rewrite Z.pow_add_r by lia. change (2 ^ 1) with 2. nia. }
  assert (Hhigh : (n # d < Float64.pow2 (a - b + 1))%Q).
  { replace (a - b + 1) with (a + 1 - b) by lia.
    rewrite pow2_sub, Ex by lia.
    apply frac_lt; [lia|exact Pb|].
    rewrite Z.pow_succ_r in Ha2 by lia.
    rewrite Z.pow_add_r by lia. change (2 ^ 1) with 2. nia. }
  destruct (Qle_bool (Float64.pow2 (a - b)) (n # d)) eqn:E.
  - apply Qle_bool_iff in E. split; assumption.
  - assert (Hlt : (n # d < Float64.pow2 (a - b))%Q).
    { apply Qnot_le_lt. intro H. apply Qle_bool_iff in H. congruence. }
    replace (a - b - 1 + 1) with (a - b) by lia. split; assumption.
Qed.

Lemma mag_mono (x y : Q) :
  (0 < x)%Q -> (x <= y)%Q -> Float64.mag x <= Float64.mag y.
Proof.
  intros Hx Hxy.
  destruct (mag_spec x Hx) as [H1 _].
  destruct (mag_spec y) as [_ H2]; [lra|].
  assert (H : (Float64.pow2 (Float64.mag x)
               < Float64.pow2 (Float64.mag y + 1))%Q) by lra.
  apply pow2_lt_inv in H. lia.
Qed.

Lemma rne_Z (z : Z) : Float64.rne (inject_Z z) = z.
Proof.
  unfold Float64.rne. rewrite Qfloor_Z.
  assert (H : (inject_Z z - inject_Z z ?= 1 # 2)%Q = Lt).
  { apply Qlt_alt.
    assert (E : (inject_Z z - inject_Z z == 0)%Q) by ring.
    rewrite E. reflexivity. }
  now rewrite H.
Qed.

Lemma rne_near (x : Q) :
  Qfloor x <= Float64.rne x <= Qfloor x + 1.
Proof.
  unfold Float64.rne.
  destruct (x - inject_Z (Qfloor x) ?= 1 # 2)%Q;
    [destruct (Z.even (Qfloor x))| |]; lia.
Qed.

Lemma rne_mono (x y : Q) :
  (x <= y)%Q -> Float64.rne x <= Float64.rne y.
Proof.
  intro Hxy. pose proof (Qfloor_resp_le x y Hxy) as Hf.
  destruct (Z.eq_dec (Qfloor x) (Qfloor y)) as [E|N].
  - unfold Float64.rne. rewrite <- E.
    destruct (Qcompare_spec (x - inject_Z (Qfloor x)) (1 # 2)) as [H1|H1|H1];
      destruct (Qcompare_spec (y - inject_Z (Qfloor x)) (1 # 2))
        as [H2|H2|H2];
      try destruct (Z.even (Qfloor x)); try lia; lra.
  - pose proof (rne_near x). pose proof (rne_near y). lia.
Qed.

Lemma ulp_exp_mono (x y : Q) :
  (0 < x)%Q -> (x <= y)%Q -> Float64.ulp_exp x <= Float64.ulp_exp y.
Proof.
  intros Hx Hxy. pose proof (mag_mono x y Hx Hxy).
  unfold Float64.ulp_exp. lia.
Qed.

Lemma round_pos_nonneg (x : Q) : (0 < x)%Q -> (0 <= Float64.round_pos x)%Q.
Proof.
  intro Hx. unfold Float64.round_pos.
  pose proof (pow2_pos (Float64.ulp_exp x)) as Hp.
  apply Qmult_le_0_compat; [|lra].
  rewrite <- (Zle_Qle 0), <- (rne_Z 0). apply rne_mono.
  change (inject_Z 0) with 0%Q.
  apply Qle_shift_div_l; [exact Hp|]. rewrite Qmult_0_l. lra.
Qed.

(** Scaling by the last place: [x / 2^q <= 2^j] when [x <= 2^(q+j)]. *)
Lemma scaled_le (x : Q) (q j : Z) :
  0 <= j -> (x <= Float64.pow2 (q + j))%Q ->
  (x / Float64.pow2 q <= inject_Z (2 ^ j))%Q.
Proof.
  intros Hj H. pose proof (pow2_pos q) as Hp.
  apply Qle_shift_div_r; [exact Hp|].
  rewrite <- pow2_Z by exact Hj.
  rewrite <- pow2_add, Z.add_comm. exact H.
Qed.

Lemma scaled_ge (x : Q) (q j : Z) :
  0 <= j -> (Float64.pow2 (q + j) <= x)%Q ->
  (inject_Z (2 ^ j) <= x / Float64.pow2 q)%Q.
Proof.
  intros Hj H. pose proof (pow2_pos q) as Hp.
  apply Qle_shift_div_l; [exact Hp|].
  rewrite <- pow2_Z by exact Hj.
  rewrite <- pow2_add, Z.add_comm. exact H.
Qed.

Lemma round_pos_mono (x y : Q) :
  (0 < x)%Q -> (x <= y)%Q ->
  (Float64.round_pos x <= Float64.round_pos y)%Q.
Proof.
  intros Hx Hxy. assert (Hy : (0 < y)%Q) by lra.
  pose proof (ulp_exp_mono x y Hx Hxy) as Hq.
  unfold Float64.round_pos.
  set (qx := Float64.ulp_exp x) in *. set (qy := Float64.ulp_exp y) in *.
  pose proof (pow2_pos qx) as Px. pose proof (pow2_pos qy) as Py.
  destruct (Z.eq_dec qx qy) as [E|N].
  - rewrite <- E. apply Qmult_le_compat_r; [|lra].
    rewrite <- Zle_Qle. apply rne_mono.
    apply Qmult_le_compat_r; [exact Hxy|].
    apply Qlt_le_weak, Qinv_lt_0_compat, Px.
  - (* [x] is below the binade of [y] *)
    destruct (mag_spec x Hx) as [_ Hx2].
    destruct (mag_spec y Hy) as [Hy1 _].
    assert (Hqy : qy = Float64.mag y - 52)
      by (unfold qy, qx, Float64.ulp_exp in *; lia).
    assert (Hqx : Float64.mag x - 52 <= qx)
      by (unfold qx, Float64.ulp_exp; lia).
    apply Qle_trans with (Float64.pow2 (qy + 52)).
    + apply Qle_trans with (Float64.pow2 (qx + 53)).
      * rewrite pow2_add, (pow2_Z 53) by lia.
        rewrite (Qmult_comm (Float64.pow2 qx)).
        apply Qmult_le_compat_r; [|lra].
        rewrite <- Zle_Qle, <- (rne_Z (2 ^ 53)). apply rne_mono.
        apply scaled_le; [lia|].
        apply Qle_trans with (Float64.pow2 (Float64.mag x + 1)); [lra|].
        apply pow2_le. lia.
      * apply pow2_le. lia.
    + rewrite pow2_add, (pow2_Z 52) by lia.
      rewrite (Qmult_comm (Float64.pow2 qy)).
      apply Qmult_le_compat_r; [|lra].
      rewrite <- Zle_Qle, <- (rne_Z (2 ^ 52)). apply rne_mono.
      apply scaled_ge; [lia|].
      replace (qy + 52) with (Float64.mag y) by lia. exact Hy1.
Qed.

(** Rounding keeps the sign and the order. *)
Lemma round_nonneg (x : Q) : (0 <= x)%Q -> (0 <= Float64.round x)%Q.
Proof.
  intro Hx. unfold Float64.round. rewrite Qred_correct.
  destruct (Qcompare_spec x 0) as [H|H|H]; [lra|lra|].
  now apply round_pos_nonneg.
Qed.

Lemma round_nonpos (x : Q) : (x <= 0)%Q -> (Float64.round x <= 0)%Q.
Proof.
  intro Hx. unfold Float64.round. rewrite Qred_correct.
  destruct (Qcompare_spec x 0) as [H|H|H]; [lra| |lra].
  assert (H0 : (0 <= Float64.round_pos (- x))%Q)
    by (apply round_pos_nonneg; lra).
  lra.
Qed.

Lemma round_mono (x y : Q) :
  (x <= y)%Q -> (Float64.round x <= Float64.round y)%Q.
Proof.
  intro Hxy.
  destruct (Qlt_le_dec 0 x) as [Hx|Hx].
  - unfold Float64.round. rewrite !Qred_correct.
    destruct (Qcompare_spec x 0) as [H|H|H]; [lra|lra|].
    destruct (Qcompare_spec y 0) as [H'|H'|H']; [lra|lra|].
    now apply round_pos_mono.
  - destruct (Qlt_le_dec y 0) as [Hy|Hy].
    + unfold Float64.round. rewrite !Qred_correct.
      destruct (Qcompare_spec x 0) as [H|H|H]; [lra| |lra].
      destruct (Qcompare_spec y 0) as [H'|H'|H']; [lra| |lra].
      assert (Hm : (Float64.round_pos (- y) <= Float64.round_pos (- x))%Q)
        by (apply round_pos_mono; lra).
      lra.
    + apply Qle_trans with 0%Q; [now apply round_nonpos|now apply round_nonneg].
Qed.

(** Rounding sees the value of a rational, not the fraction that
    represents it. *)
Lemma round_eq (x y : Q) : (x == y)%Q -> Float64.round x = Float64.round y.
Proof.
  intro H.
  assert (E : (Float64.round x == Float64.round y)%Q).
  { apply Qle_antisym; apply round_mono; lra. }
  unfold Float64.round in *. apply Qred_complete.
  rewrite !Qred_correct in E. exact E.
Qed.

Lemma round_0 : Float64.round 0 = 0%Q.
Proof. reflexivity. Qed.






(** Float arithmetic on operands that are not negative. *)
Lemma add_nonneg (x y : Q) :
  (0 <= x)%Q -> (0 <= y)%Q -> (0 <= Float64.add x y)%Q.
Proof. intros Hx Hy. apply round_nonneg. lra. Qed.

Lemma mul_nonneg (x y : Q) :
  (0 <= x)%Q -> (0 <= y)%Q -> (0 <= Float64.mul x y)%Q.
Proof. intros Hx Hy. apply round_nonneg. now apply Qmult_le_0_compat. Qed.

Lemma div_nonneg (x y : Q) :
  (0 <= x)%Q -> (0 <= y)%Q -> (0 <= Float64.div x y)%Q.
Proof.
  intros Hx Hy. apply round_nonneg. unfold Qdiv.
  apply Qmult_le_0_compat; [exact Hx|]. now apply Qinv_le_0_compat.
Qed.

Lemma sub_nonneg (x y : Q) : (y <= x)%Q -> (0 <= Float64.sub x y)%Q.
Proof. intro H. apply round_nonneg. lra. Qed.

Lemma of_Z_nonneg (z : Z) : 0 <= z -> (0 <= Float64.of_Z z)%Q.
Proof.
  intro H. apply round_nonneg. now rewrite <- (Zle_Qle 0).
Qed.



(** ** Basic facts *)

Lemma rne_eq (x y : Q) : (x == y)%Q -> Float64.rne x = Float64.rne y.
Proof.
  intro H. apply Z.le_antisymm; apply rne_mono; lra.
Qed.

Lemma round_gt0 (x : Q) :
  (0 < x)%Q -> (Float64.round x == Float64.round_pos x)%Q.
Proof.
  intro Hx. unfold Float64.round. rewrite Qred_correct.
  destruct (Qcompare_spec x 0) as [H|H|H]; [lra|lra|reflexivity].
Qed.

Lemma round_lt0 (x : Q) :
  (x < 0)%Q -> (Float64.round x == - Float64.round (- x))%Q.
Proof.
  intro Hx. rewrite (round_gt0 (- x)) by lra.
  unfold Float64.round. rewrite Qred_correct.
  destruct (Qcompare_spec x 0) as [H|H|H]; [lra|reflexivity|lra].
Qed.

Lemma mag_lt (z : Q) (n : Z) :
  (0 < z)%Q -> (z < Float64.pow2 n)%Q -> Float64.mag z < n.
Proof.
  intros Hz H. destruct (mag_spec z Hz) as [H1 _].
  apply pow2_lt_inv. lra.
Qed.

(** A positive multiple [k * 2^q] of a power of two not below the least
    one, with fewer than 54 binary digits in [k], is a float. *)
Lemma round_scaled (k q : Z) :
  0 < k -> -1074 <= q ->
  (inject_Z k * Float64.pow2 q < Float64.pow2 (q + 53))%Q ->
  (Float64.round (inject_Z k * Float64.pow2 q)
   == inject_Z k * Float64.pow2 q)%Q.
Proof.
  intros Hk Hq Hlt.
  pose proof (pow2_pos q) as Hp.
  assert (Hk' : (0 < inject_Z k)%Q) by (rewrite <- (Zlt_Qlt 0); exact Hk).
  set (z := (inject_Z k * Float64.pow2 q)%Q) in *.
  assert (Hz : (0 < z)%Q) by (unfold z; apply Qmult_lt_0_compat; assumption).
  rewrite round_gt0 by exact Hz.
  unfold Float64.round_pos.
  set (u := Float64.ulp_exp z).
  assert (Hu : u <= q).
  { pose proof (mag_lt z (q + 53) Hz Hlt). unfold u, Float64.ulp_exp. lia. }
  pose proof (pow2_pos u) as Hpu.
  assert (E : (z / Float64.pow2 u == inject_Z (k * 2 ^ (q - u)))%Q).
  { unfold z. rewrite inject_Z_mult, <- (pow2_Z (q - u)) by lia.
    replace q with ((q - u) + u) at 1 by lia.
    rewrite pow2_add. field. lra. }
  rewrite (rne_eq _ _ E), rne_Z.
  rewrite inject_Z_mult, <- (pow2_Z (q - u)) by lia.
  unfold z. replace q with ((q - u) + u) at 2 by lia.
  rewrite pow2_add. ring.
Qed.

(** A positive float is a multiple of its unit in the last place. *)
Lemma float_scaled (y : Q) :
  (0 < y)%Q -> (Float64.round y == y)%Q ->
  exists k : Z,
    0 < k /\ (y == inject_Z k * Float64.pow2 (Float64.ulp_exp y))%Q.
Proof.
  intros Hy H. rewrite round_gt0 in H by exact Hy.
  unfold Float64.round_pos in H.
  set (k := Float64.rne (y / Float64.pow2 (Float64.ulp_exp y))) in *.
  exists k. split; [|symmetry; exact H].
  pose proof (pow2_pos (Float64.ulp_exp y)) as Hp.
  destruct (Z_lt_le_dec 0 k) as [L|L]; [exact L|exfalso].
  assert (Hk : (inject_Z k <= 0)%Q)
    by (change 0%Q with (inject_Z 0); rewrite <- Zle_Qle; exact L).
  assert (Hm : (inject_Z k * Float64.pow2 (Float64.ulp_exp y) <= 0)%Q).
  { rewrite <- (Qmult_0_l (Float64.pow2 (Float64.ulp_exp y))).
    apply Qmult_le_compat_r; [exact Hk|lra]. }
  lra.
Qed.

(** Rounding a float gives it back. *)
Lemma round_idem (x : Q) :
  (Float64.round (Float64.round x) == Float64.round x)%Q.
Proof.
  assert (Hpos : forall y, (0 < y)%Q ->
            (Float64.round (Float64.round y) == Float64.round y)%Q).
  { intros y Hy.
    assert (Ey : (Float64.round y
                  == inject_Z (Float64.rne (y / Float64.pow2 (Float64.ulp_exp y)))
                     * Float64.pow2 (Float64.ulp_exp y))%Q)
      by (rewrite round_gt0 by exact Hy; reflexivity).
    set (q := Float64.ulp_exp y) in *.
    set (k := Float64.rne (y / Float64.pow2 q)) in *.
    pose proof (pow2_pos q) as Hp.
    assert (Hq : -1074 <= q) by (unfold q, Float64.ulp_exp; lia).
    assert (Hk0 : 0 <= k).
    { unfold k. rewrite <- (rne_Z 0). apply rne_mono.
      change (inject_Z 0) with 0%Q. apply Qle_shift_div_l; [exact Hp|lra]. }
    assert (Hk1 : k <= 2 ^ 53).
    { unfold k. rewrite <- (rne_Z (2 ^ 53)). apply rne_mono.
      apply scaled_le; [lia|].
      destruct (mag_spec y Hy) as [_ H2].
      apply Qle_trans with (Float64.pow2 (Float64.mag y + 1)); [lra|].
      apply pow2_le. unfold q, Float64.ulp_exp. lia. }
    destruct (Z.eq_dec k 0) as [E0|N0].
    { rewrite E0 in Ey.
      assert (Z0 : (Float64.round y == 0)%Q) by (rewrite Ey; ring).
      rewrite (round_eq _ _ Z0). rewrite Z0. reflexivity. }
    destruct (Z.eq_dec k (2 ^ 53)) as [E1|N1].
    { assert (Z1 : (Float64.round y
                    == inject_Z 1 * Float64.pow2 (q + 53))%Q).
      { rewrite Ey, E1, <- (pow2_Z 53) by lia.
        rewrite (Z.add_comm q 53), pow2_add.
        change (inject_Z 1) with 1%Q. ring. }
      rewrite (round_eq _ _ Z1), Z1.
      apply round_scaled; [lia|lia|].
      change (inject_Z 1) with 1%Q. rewrite Qmult_1_l.
      destruct (Qlt_le_dec (Float64.pow2 (q + 53))
                           (Float64.pow2 (q + 53 + 53))) as [L|L];
        [exact L|exfalso].
      pose proof (pow2_pos (q + 53)) as Hp1.
      rewrite pow2_add in L.
      assert (H53 : (Float64.pow2 53 == inject_Z (2 ^ 53))%Q)
        by (apply pow2_Z; lia).
      rewrite H53 in L.
      assert (Hbig : (2 <= inject_Z (2 ^ 53))%Q).
      { change 2%Q with (inject_Z 2). rewrite <- Zle_Qle. lia. }
      nra. }
    rewrite (round_eq _ _ Ey), Ey.
    apply round_scaled; [lia|exact Hq|].
    rewrite (Z.add_comm q 53), pow2_add, (pow2_Z 53) by lia.
    apply Qmult_lt_compat_r; [exact Hp|].
    rewrite <- Zlt_Qlt. lia. }
  destruct (Qcompare_spec x 0) as [H|H|H].
  - rewrite (round_eq _ _ H). reflexivity.
  - pose proof (round_lt0 x H) as E.
    pose proof (Hpos (- x)%Q) as Hn.
    assert (Hx : (0 < - x)%Q) by lra. specialize (Hn Hx).
    set (r := Float64.round (- x)) in *.
    assert (Hr : (0 <= r)%Q) by (apply round_nonneg; lra).
    rewrite (round_eq _ _ E), E.
    destruct (Qcompare_spec r 0) as [R|R|R]; [|lra|].
    + assert (R' : (- r == 0)%Q) by lra.
      rewrite (round_eq _ _ R'). rewrite R'. reflexivity.
    + rewrite round_lt0 by lra.
      assert (R' : (- - r == r)%Q) by ring.
      rewrite (round_eq _ _ R'), Hn. reflexivity.
  - exact (Hpos x H).
Qed.

(** The difference of two floats [y <= x <= 2 * y] is computed without
    rounding. *)
Lemma sub_exact (x y : Q) :
  (Float64.round x == x)%Q -> (Float64.round y == y)%Q ->
  (0 < y)%Q -> (y <= x)%Q -> (x - y <= y)%Q ->
  (Float64.sub x y == x - y)%Q.
Proof.
  intros Fx Fy Hy Hyx Hd. unfold Float64.sub.
  destruct (Qlt_le_dec y x) as [Hlt|Hle].
  - destruct (float_scaled y Hy Fy) as (ky & Hky & Ey).
    destruct (float_scaled x) as (kx & Hkx & Ex); [lra|exact Fx|].
    pose proof (ulp_exp_mono y x Hy Hyx) as Hq.
    set (qy := Float64.ulp_exp y) in *. set (qx := Float64.ulp_exp x) in *.
    pose proof (pow2_pos qy) as Hp.
    assert (Hqy : -1074 <= qy) by (unfold qy, Float64.ulp_exp; lia).
    assert (E : (x - y
                 == inject_Z (kx * 2 ^ (qx - qy) - ky) * Float64.pow2 qy)%Q).
    { unfold Z.sub at 1. rewrite inject_Z_plus, inject_Z_opp, inject_Z_mult.
      rewrite <- (pow2_Z (qx - qy)) by lia.
      rewrite Ex at 1. rewrite Ey at 1.
      replace qx with ((qx - qy) + qy) at 1 by lia.
      rewrite pow2_add. ring. }
    rewrite (round_eq _ _ E), E.
    apply round_scaled; [|exact Hqy|].
    + destruct (Z_lt_le_dec 0 (kx * 2 ^ (qx - qy) - ky)) as [L|L];
        [exact L|exfalso].
      assert (Hk : (inject_Z (kx * 2 ^ (qx - qy) - ky) <= 0)%Q)
        by (change 0%Q with (inject_Z 0); rewrite <- Zle_Qle; exact L).
      assert (Hm : (inject_Z (kx * 2 ^ (qx - qy) - ky) * Float64.pow2 qy
                    <= 0)%Q).
      { rewrite <- (Qmult_0_l (Float64.pow2 qy)).
        apply Qmult_le_compat_r; [exact Hk|lra]. }
      lra.
    + rewrite <- E.
      destruct (mag_spec y Hy) as [_ H2].
      apply Qlt_le_trans with (Float64.pow2 (Float64.mag y + 1)); [lra|].
      apply pow2_le. unfold qy, Float64.ulp_exp. lia.
  - assert (E : (x - y == 0)%Q) by lra.
    rewrite (round_eq _ _ E), E. reflexivity.
Qed.

Lemma Qlt_bool_iff (a b : Q) : Qlt_bool a b = true <-> (a < b)%Q.
Proof.
  unfold Qlt_bool. rewrite negb_true_iff.
  split; intro H.
  - apply Qnot_le_lt. intro Hle. apply Qle_bool_iff in Hle. congruence.
  - destruct (Qle_bool b a) eqn:E; [|reflexivity].
    apply Qle_bool_iff in E. exfalso. apply (Qlt_not_le _ _ H E).
Qed.


Lemma list_set_split {A : Type} (l : list A) (i : nat) (x : A) :
  nth_error l i = Some x ->
  exists l1 l2, l = l1 ++ x :: l2 /\ length l1 = i
                /\ forall y, list_set l i y = l1 ++ y :: l2.
Proof.
  revert i. induction l as [|h t IH]; intros [|i] H; simpl in H;
    try discriminate.
  - inversion H; subst. exists [], t. repeat split.
  - destruct (IH i H) as (l1 & l2 & -> & Hlen & Hset).
    exists (h :: l1), l2. repeat split; simpl; [congruence|].
    intro y. now rewrite Hset.
Qed.

(** ** The load balancer *)

(** C6. [select_node] returns none when no node of the list is active;
    otherwise it returns the active node at [cursor mod |active|] and
    leaves the cursor at [(cursor + 1) mod |active|].  The cursor is the
    whole state of the balancer. *)
Theorem select_node_round_robin :
  forall (lb : LoadBalancer.t) (nodes : list StorageNode.t),
    let act := filter StorageNode.is_active nodes in
    let n := Z.of_nat (length act) in
    let c := LoadBalancer.current_index lb in
    LoadBalancer.select_node lb nodes =
      match act with
      | [] => (None, lb)
      | a :: _ => (Some (nth (Z.to_nat (c mod n)) act a),
                   LoadBalancer.mk ((c + 1) mod n))
      end
    /\ (act = [] \/ (Z.to_nat (c mod n) < length act)%nat)
    /\ lb = LoadBalancer.mk c.
Proof.
  intros lb nodes act n c.
  assert (Hrange : act = [] \/ (0 <= c mod n < n)).
  { destruct act as [|a l] eqn:E; [now left|right].
    apply Z.mod_pos_bound. subst n. simpl. lia. }
  split; [|split].
  - unfold LoadBalancer.select_node.
    destruct nodes as [|x xs] eqn:En; [reflexivity|].
    fold act. destruct act as [|a l] eqn:E; [reflexivity|].
    fold n. fold c. destruct Hrange as [H|H]; [discriminate|].
    f_equal. unfold py_index. fold n.
    replace ((0 <=? c mod n) && (c mod n <? n)) with true
      by (symmetry; apply andb_true_iff; split;
          [apply Z.leb_le|apply Z.ltb_lt]; lia).
    rewrite (nth_error_nth' (a :: l) a); [reflexivity|].
    subst n. lia.
  - destruct Hrange as [H|H]; [now left|right]. subst n. lia.
  - destruct lb. reflexivity.
Qed.

(** ** The scale-down hysteresis *)

(** Writing the counter does not change what the tests read. *)
Lemma low_condition_counter (a : AutoScaler.t) (k : Z) (t : Q)
    (m : CloudSystemModel.t) (x : AutoScaler.Metrics) :
  AutoScaler.low_condition (AutoScaler.set_consecutive_low_intervals a k) t m x
  = AutoScaler.low_condition a t m x.
Proof. reflexivity. Qed.

Lemma should_scale_down_counter (a : AutoScaler.t) (t : Q)
    (m : CloudSystemModel.t) (x : AutoScaler.Metrics) :
  AutoScaler.consecutive_low_intervals
    (snd (AutoScaler.should_scale_down a t m x))
  = if AutoScaler.low_condition a t m x
    then AutoScaler.consecutive_low_intervals a + 1 else 0.
Proof.
  unfold AutoScaler.should_scale_down.
  destruct (AutoScaler.low_condition a t m x); reflexivity.
Qed.

Lemma should_scale_down_result (a : AutoScaler.t) (t : Q)
    (m : CloudSystemModel.t) (x : AutoScaler.Metrics) :
  fst (AutoScaler.should_scale_down a t m x)
  = AutoScaler.low_condition a t m x
    && (AutoScaler.required_consecutive_low a
        <=? AutoScaler.consecutive_low_intervals a + 1).
Proof.
  unfold AutoScaler.should_scale_down.
  destruct (AutoScaler.low_condition a t m x); reflexivity.
Qed.

(** C9. [should_scale_down] writes the streak counter on every call: a
    call whose full condition holds leaves it one higher and answers by
    comparing the new value with the required streak, any other call
    leaves it at 0 and answers False.  Hence, from a counter at 0 and
    with the required streak of 2, two successive calls on the same
    qualifying metrics answer False and then True. *)
Theorem should_scale_down_not_idempotent :
  forall (a : AutoScaler.t) (t : Q) (m : CloudSystemModel.t)
         (x : AutoScaler.Metrics),
    AutoScaler.low_condition a t m x = true ->
    AutoScaler.consecutive_low_intervals a = 0 ->
    AutoScaler.required_consecutive_low a = 2 ->
    let r1 := AutoScaler.should_scale_down a t m x in
    let r2 := AutoScaler.should_scale_down (snd r1) t m x in
    fst r1 = false /\ fst r2 = true
    /\ AutoScaler.consecutive_low_intervals (snd r1) = 1
    /\ AutoScaler.consecutive_low_intervals (snd r2) = 2
    /\ (forall (b : AutoScaler.t) (t' : Q) (m' : CloudSystemModel.t)
               (y : AutoScaler.Metrics),
          AutoScaler.should_scale_down b t' m' y
          = if AutoScaler.low_condition b t' m' y
            then (AutoScaler.required_consecutive_low b
                    <=? AutoScaler.consecutive_low_intervals b + 1,
                  AutoScaler.set_consecutive_low_intervals b
                    (AutoScaler.consecutive_low_intervals b + 1))
            else (false, AutoScaler.set_consecutive_low_intervals b 0)).
Proof.
  intros a t m x Hlow Hc Hreq r1 r2.
  assert (E1 : r1 = (false, AutoScaler.set_consecutive_low_intervals a 1)).
  { subst r1. unfold AutoScaler.should_scale_down. rewrite Hlow.
    simpl. rewrite Hreq, Hc. reflexivity. }
  assert (E2 : r2 = (true, AutoScaler.set_consecutive_low_intervals a 2)).
  { subst r2. rewrite E1. unfold AutoScaler.should_scale_down. simpl snd.
    rewrite low_condition_counter, Hlow. simpl. rewrite Hreq. reflexivity. }
  rewrite E1, E2. simpl. repeat split; try reflexivity.
Qed.

Lemma add_node_nodes (m m' : CloudSystemModel.t) (n : StorageNode.t) :
  CloudSystemModel.add_node m = Some (n, m') ->
  CloudSystemModel.nodes m' = CloudSystemModel.nodes m ++ [n]
  /\ StorageNode.is_active n = true.
Proof.
  unfold CloudSystemModel.add_node, StorageNode.new.
  destruct (0 <? _); [|discriminate].
  intro H. inversion H; subst. simpl. split; reflexivity.
Qed.

(** What one decision does, case by case. *)
Lemma decide_cases (a : AutoScaler.t) (t : Q) (m : CloudSystemModel.t)
    (x : AutoScaler.Metrics) (a' : AutoScaler.t) (m' : CloudSystemModel.t) :
  AutoScaler.decide a t m x = Some (a', m') ->
  (AutoScaler.should_scale_up a t m x = true
   /\ (exists n, CloudSystemModel.add_node m = Some (n, m'))
   /\ a' = AutoScaler.scaled a t
             (AutoScaler.ScaledUp (AutoScaler.current_nodes m)
                                  (AutoScaler.current_nodes m')))
  \/ (AutoScaler.should_scale_up a t m x = false
      /\ AutoScaler.low_condition a t m x = true
      /\ AutoScaler.required_consecutive_low a
         <= AutoScaler.consecutive_low_intervals a + 1
      /\ AutoScaler.min_nodes (AutoScaler.cfg a) < AutoScaler.current_nodes m
      /\ m' = snd (CloudSystemModel.remove_node m)
      /\ a' = AutoScaler.scaled
                (AutoScaler.set_consecutive_low_intervals a
                   (AutoScaler.consecutive_low_intervals a + 1)) t
                (AutoScaler.ScaledDown (AutoScaler.current_nodes m)
                                       (AutoScaler.current_nodes m')))
  \/ (AutoScaler.should_scale_up a t m x = false
      /\ m' = m
      /\ a' = AutoScaler.set_consecutive_low_intervals a
                (if AutoScaler.low_condition a t m x
                 then AutoScaler.consecutive_low_intervals a + 1 else 0)
      /\ (AutoScaler.low_condition a t m x = true ->
          AutoScaler.consecutive_low_intervals a + 1
          < AutoScaler.required_consecutive_low a)).
Proof.
  unfold AutoScaler.decide.
  destruct (AutoScaler.should_scale_up a t m x) eqn:Eup.
  - unfold AutoScaler.scale_up.
    assert (Hcan : (AutoScaler.current_nodes m
                    <? AutoScaler.max_nodes (AutoScaler.cfg a)) = true).
    { unfold AutoScaler.should_scale_up in Eup.
      apply andb_true_iff in Eup as [Eup _].
      apply andb_true_iff in Eup as [_ Eup]. exact Eup. }
    rewrite Hcan.
    destruct (CloudSystemModel.add_node m) as [[n m1]|] eqn:Eadd;
      [|discriminate].
    intro H. inversion H; subst. left. repeat split. now exists n.
  - unfold AutoScaler.should_scale_down.
    destruct (AutoScaler.low_condition a t m x) eqn:Elow.
    + destruct (_ <=? _) eqn:Ereq.
      * unfold AutoScaler.scale_down.
        change (AutoScaler.cfg (AutoScaler.set_consecutive_low_intervals a _))
          with (AutoScaler.cfg a).
        assert (Hcan : (AutoScaler.min_nodes (AutoScaler.cfg a)
                        <? AutoScaler.current_nodes m) = true).
        { unfold AutoScaler.low_condition in Elow.
          apply andb_true_iff in Elow as [Elow _].
          apply andb_true_iff in Elow as [_ Elow]. exact Elow. }
        rewrite Hcan. intro H. inversion H; subst.
        right; left. simpl in Ereq. apply Z.leb_le in Ereq.
        apply Z.ltb_lt in Hcan. repeat split; assumption.
      * intro H. inversion H; subst. right; right.
        simpl in Ereq. apply Z.leb_gt in Ereq. repeat split. intros _. lia.
    + intro H. inversion H; subst. right; right.
      repeat split. discriminate.
Qed.

Lemma removelast_len {A : Type} (l : list A) :
  length (removelast l) = (length l - 1)%nat.
Proof.
  induction l as [|x [|y l] IH]; try reflexivity.
  change (removelast (x :: y :: l)) with (x :: removelast (y :: l)).
  simpl length in *. lia.
Qed.

Lemma remove_node_length (m : CloudSystemModel.t) :
  (length (CloudSystemModel.nodes (snd (CloudSystemModel.remove_node m)))
   = length (CloudSystemModel.nodes m) - 1)%nat.
Proof.
  unfold CloudSystemModel.remove_node.
  destruct (CloudSystemModel.nodes m) as [|x l] eqn:E.
  - simpl. rewrite E. reflexivity.
  - replace (0 <? Z.of_nat (length (x :: l))) with true
      by (symmetry; apply Z.ltb_lt; simpl; lia).
    rewrite <- E. simpl. apply removelast_len.
Qed.

(** C3. With the required streak of 2 and the counter at 0, the first
    pass of the controller removes no node whatever its metrics; the
    second pass removes one only if the scale-down condition held in
    both passes; and if the condition fails in the second pass nothing
    is removed and the counter is back at 0. *)
Theorem scale_down_needs_two_intervals :
  forall (a a1 a2 : AutoScaler.t) (t1 t2 : Q)
         (m1 m1' m2 m2' : CloudSystemModel.t) (x1 x2 : AutoScaler.Metrics),
    AutoScaler.required_consecutive_low a = 2 ->
    AutoScaler.consecutive_low_intervals a = 0 ->
    AutoScaler.decide a t1 m1 x1 = Some (a1, m1') ->
    AutoScaler.decide a1 t2 m2 x2 = Some (a2, m2') ->
    (~ removed_node m1 m1'
     /\ AutoScaler.consecutive_low_intervals a1 <= 1)
    /\ (removed_node m2 m2' ->
        AutoScaler.low_condition a t1 m1 x1 = true
        /\ AutoScaler.low_condition a1 t2 m2 x2 = true
        /\ AutoScaler.consecutive_low_intervals a1 = 1)
    /\ (AutoScaler.low_condition a1 t2 m2 x2 = false ->
        ~ removed_node m2 m2'
        /\ AutoScaler.consecutive_low_intervals a2 = 0).
Proof.
  intros a a1 a2 t1 t2 m1 m1' m2 m2' x1 x2 Hreq Hc H1 H2.
  unfold removed_node.
  apply decide_cases in H1. apply decide_cases in H2.
  assert (Hreq1 : AutoScaler.required_consecutive_low a1 = 2).
  { destruct H1 as [(_ & _ & ->)|[(_ & _ & _ & _ & _ & ->)|(_ & _ & -> & _)]];
      exact Hreq. }
  assert (Hfirst : (length (CloudSystemModel.nodes m1)
                    <= length (CloudSystemModel.nodes m1'))%nat
                   /\ (AutoScaler.consecutive_low_intervals a1 = 0
                       \/ (AutoScaler.consecutive_low_intervals a1 = 1
                           /\ AutoScaler.low_condition a t1 m1 x1 = true))).
  { destruct H1 as [(_ & [n Hadd] & ->)
                   |[(_ & _ & Hk & _)|(_ & -> & -> & _)]].
    - apply add_node_nodes in Hadd as [-> _]. rewrite length_app. simpl.
      split; [lia|now left].
    - lia.
    - split; [lia|]. simpl.
      destruct (AutoScaler.low_condition a t1 m1 x1);
        [right; split; [lia|reflexivity]|now left]. }
  destruct Hfirst as [Hlen1 Hcount1].
  split; [split; [lia|destruct Hcount1 as [->|[-> _]]; lia]|].
  split.
  - intro Hrem.
    destruct H2 as [(_ & [n Hadd] & _)
                   |[(_ & Hlow2 & Hk & _)|(_ & -> & _)]].
    + apply add_node_nodes in Hadd as [Hn _]. rewrite Hn, length_app in Hrem.
      simpl in Hrem. lia.
    + destruct Hcount1 as [E|[E Hlow1]]; [lia|]. now repeat split.
    + lia.
  - intro Hlow2.
    destruct H2 as [(_ & [n Hadd] & ->)
                   |[(_ & Hlow2' & _)|(_ & -> & -> & _)]].
    + apply add_node_nodes in Hadd as [-> _]. rewrite length_app. simpl.
      split; [lia|reflexivity].
    + congruence.
    + rewrite Hlow2. simpl. split; [lia|reflexivity].
Qed.

(** ** Construction *)





(** ** Average queue length *)

Lemma area_loop_cons (t1 t2 : Q) (ts : list Q) (q : Z) (qs : list Z)
    (acc : Q * Q) :
  MetricsCollector.area_loop (t1 :: t2 :: ts) (q :: qs) acc
  = MetricsCollector.area_loop (t2 :: ts) qs
      (Float64.add (fst acc)
         (Float64.mul (Float64.of_Z q) (Float64.sub t2 t1)),
       Float64.add (snd acc) (Float64.sub t2 t1)).
Proof. reflexivity. Qed.







(** ** The equations of the engine *)

Ltac break_in H :=
  match type of H with
  | context [match ?x with _ => _ end] => destruct x eqn:?
  | context [if ?x then _ else _] => destruct x eqn:?
  end.

Ltac some_inv H := inversion H; subst; clear H.

Lemma gen_loop_top_idle (t : Q) (m : CloudSystemModel.t) (ia : Q) (g : GenPc) :
  gen_loop_top t m ia = Some g -> gen_idle g.
Proof.
  unfold gen_loop_top. intro H.
  repeat break_in H; try discriminate; some_inv H; exact I.
Qed.

Lemma gen_idle_held (g : GenPc) : gen_idle g -> gen_held g = [].
Proof. destruct g; simpl; intro H; try reflexivity; contradiction. Qed.

Lemma worker_loop_top_held (t : Q) (m : CloudSystemModel.t) :
  held (worker_loop_top t m) = [].
Proof.
  unfold worker_loop_top.
  destruct (CloudSystemModel.is_running m), (CloudSystemModel.is_paused m);
    reflexivity.
Qed.

Lemma store_put_cases (cap : Z) (items : list Request.t)
    (r : Request.t) :
  store_put cap items r = PutSucceeded (items ++ [r])
  \/ (store_put cap items r = PutPending
      /\ cap <= Z.of_nat (length items)).
Proof.
  unfold store_put.
  destruct (Z.of_nat (length items) <? cap) eqn:E; [now left|right].
  apply Z.ltb_ge in E. split; [reflexivity|exact E].
Qed.

Lemma generate_request_cases (t : Q) (m : CloudSystemModel.t)
    (ws : list Worker) (svc : Q) (m' : CloudSystemModel.t)
    (pc : option GenPc) :
  generate_request store_put t m ws svc = (m', pc) ->
  let r0 := Request.set_service_time
              (Request.new (CloudSystemModel.next_request_id m) t) svc in
  let m1 := CloudSystemModel.set_next_request_id m
              (CloudSystemModel.next_request_id m + 1) in
  (over_cap m ws = true /\ pc = None
   /\ m' = CloudSystemModel.set_rejected_requests m1
             (CloudSystemModel.rejected_requests m
              ++ [Request.reject r0 queue_full]))
  \/ (over_cap m ws = false /\ pc = None
      /\ m' = CloudSystemModel.set_queue_items m1
                (CloudSystemModel.queue_items m
                 ++ [Request.set_queue_entry_time r0 t]))
  \/ (over_cap m ws = false
      /\ pc = Some (GenBlockedPut (Request.set_queue_entry_time r0 t))
      /\ m' = m1
      /\ CloudSystemModel.queue_capacity m
         <= Z.of_nat (length (CloudSystemModel.queue_items m))).
Proof.
  intros H r0 m1. unfold generate_request in H. fold r0 in H. fold m1 in H.
  change (over_cap m1 ws) with (over_cap m ws) in H.
  destruct (over_cap m ws) eqn:Eo.
  - some_inv H. left. repeat split.
  - right.
    destruct (store_put_cases (CloudSystemModel.queue_capacity m1)
                (CloudSystemModel.queue_items m1)
                (Request.set_queue_entry_time r0 t)) as [E|[E Hc]];
      rewrite E in H; some_inv H.
    + left. repeat split.
    + right. repeat split. exact Hc.
Qed.

Lemma gen_step_inv (svc ia : Q) (s s' : Sim) :
  gen_step svc ia s = Some s' ->
  exists m g,
    s' = set_gen s m g /\ gen_held (gen s) = []
    /\ ((m = model s /\ gen_idle g)
        \/ (exists pc,
              generate_request store_put (now s) (model s) (workers s) svc
              = (m, pc)
              /\ match pc with
                 | Some g' => g = g'
                 | None => gen_idle g
                 end)).
Proof.
  unfold gen_step. intro H.
  destruct (gen s) as [[due|]|due|r| |] eqn:Eg; try discriminate.
  - destruct (Qeq_bool (now s) due); [|discriminate].
    destruct (CloudSystemModel.is_running (model s)).
    + destruct (drawn_uniform _ _ svc); [|discriminate].
      destruct (generate_request store_put (now s) (model s) (workers s) svc)
        as [m [g|]] eqn:Egen.
      * some_inv H. exists m, g. repeat split. right. exists (Some g).
        split; reflexivity.
      * destruct (gen_loop_top (now s) m ia) as [g|] eqn:Et;
          [|discriminate].
        some_inv H. exists m, g. repeat split. right. exists None.
        split; [reflexivity|]. eapply gen_loop_top_idle; eassumption.
    + some_inv H. exists (model s), GenDone. repeat split. left.
      split; [reflexivity|exact I].
  - destruct (Qeq_bool (now s) due); [|discriminate].
    destruct (gen_loop_top (now s) (model s) ia) as [g|] eqn:Et;
      [|discriminate].
    some_inv H. exists (model s), g. repeat split. left.
    split; [reflexivity|]. eapply gen_loop_top_idle; eassumption.
  - destruct (gen_loop_top (now s) (model s) ia) as [g|] eqn:Et;
      [|discriminate].
    some_inv H. exists (model s), g. repeat split. left.
    split; [reflexivity|]. eapply gen_loop_top_idle; eassumption.
Qed.

Lemma worker_get_step_inv (w : nat) (d : Q) (s s' : Sim) :
  worker_get_step w d s = Some s' ->
  exists request rest l1 l2 m1 g1,
    workers s = l1 ++ WGet :: l2
    /\ CloudSystemModel.queue_items (model s) = request :: rest
    /\ ((m1 = CloudSystemModel.set_queue_items (model s) rest /\ g1 = gen s)
        \/ (exists r2, gen s = GenBlockedPut r2
              /\ m1 = CloudSystemModel.set_queue_items (model s)
                        (rest ++ [r2])
              /\ g1 = GenPutDone))
    /\ ((exists reason top lb,
           (reason = wait_timeout \/ reason = no_nodes)
           /\ held top = []
           /\ s' = mkSim (now s)
                     (CloudSystemModel.set_rejected_requests m1
                        (CloudSystemModel.rejected_requests m1
                         ++ [Request.reject request reason]))
                     lb (scaler s) g1 (l1 ++ top :: l2) (slot_queue s)
                     (ctl s) (sampler s))
        \/ (exists node lb,
              (0 <= d)%Q
              /\ s' = mkSim (now s) m1 lb (scaler s) g1
                        (l1 ++ WNetDelay request node (Float64.add (now s) d) :: l2)
                        (slot_queue s) (ctl s) (sampler s))).
Proof.
  unfold worker_get_step. intro H.
  destruct (nth_error (workers s) w) as [[| | | | |]|] eqn:Ew;
    try discriminate.
  destruct (CloudSystemModel.queue_items (model s)) as [|request rest] eqn:Eq;
    [discriminate|].
  destruct (list_set_split _ _ _ Ew) as (l1 & l2 & Hw & _ & Hset).
  set (m0 := CloudSystemModel.set_queue_items (model s) rest) in *.
  assert (Hput : exists m1 g1,
    (match gen s with
     | GenBlockedPut r2 =>
       match store_put (CloudSystemModel.queue_capacity m0)
                       (CloudSystemModel.queue_items m0) r2 with
       | PutSucceeded items =>
         (CloudSystemModel.set_queue_items m0 items, GenPutDone)
       | _ => (m0, gen s)
       end
     | g => (m0, g)
     end) = (m1, g1)
    /\ ((m1 = m0 /\ g1 = gen s)
        \/ (exists r2, gen s = GenBlockedPut r2
              /\ m1 = CloudSystemModel.set_queue_items (model s)
                        (rest ++ [r2])
              /\ g1 = GenPutDone))).
  { destruct (gen s) as [x|x|r2| |] eqn:Eg;
      try (eexists _, _; split; [reflexivity|left; split; reflexivity]).
    destruct (store_put_cases (CloudSystemModel.queue_capacity m0)
                (CloudSystemModel.queue_items m0) r2) as [E|[E _]];
      rewrite E.
    - eexists _, _; split; [reflexivity|right]. exists r2. repeat split.
    - eexists _, _; split; [reflexivity|left; split; reflexivity]. }
  destruct Hput as (m1 & g1 & Eput & Hcases). rewrite Eput in H.
  exists request, rest, l1, l2, m1, g1.
  split; [exact Hw|]. split; [reflexivity|]. split; [exact Hcases|].
  destruct (match CloudSystemModel.max_wait_time (CloudSystemModel.cfg m1)
            with Some _ => _ | None => _ end).
  - some_inv H. left. rewrite Hset. eexists wait_timeout, _, _.
    split; [now left|]. split; [apply worker_loop_top_held|reflexivity].
  - destruct (LoadBalancer.select_node (balancer s)
                (CloudSystemModel.get_active_nodes m1)) as [[node|] lb].
    + destruct (net_delay_drawn _ d && Qle_bool 0 d) eqn:Ed; [|discriminate].
      some_inv H. right. rewrite Hset. exists node, lb.
      split; [|reflexivity].
      apply andb_true_iff in Ed as [_ Ed]. now apply Qle_bool_iff.
    + some_inv H. left. rewrite Hset. eexists no_nodes, _, _.
      split; [now right|]. split; [apply worker_loop_top_held|reflexivity].
Qed.

Lemma begin_service_inv (t : Q) (r : Request.t) (node : StorageNode.t)
    (busy : Worker) :
  begin_service t r node = Some busy ->
  exists x, Request.service_time r = Some x /\ (0 <= x)%Q
            /\ busy = WService r node (Float64.add t x).
Proof.
  unfold begin_service.
  destruct (Request.service_time r) as [x|]; [|discriminate].
  destruct (Qle_bool 0 x) eqn:E; [|discriminate].
  intro H. some_inv H. exists x. repeat split. now apply Qle_bool_iff.
Qed.

Lemma worker_wake_step_inv (w : nat) (s s' : Sim) :
  worker_wake_step w s = Some s' ->
  exists l1 l2 x,
    workers s = l1 ++ x :: l2
    /\ ((exists due top,
           x = WPaused due /\ held top = []
           /\ s' = set_workers s (model s) (l1 ++ top :: l2) (slot_queue s))
        \/ (exists r node due sq busy,
              x = WNetDelay r node due
              /\ (let r' := Request.set_start r (StorageNode.node_id node)
                              (now s) in
                  (busy = WWaitSlot r' node
                   \/ exists sv, Request.service_time r = Some sv
                                 /\ (0 <= sv)%Q
                                 /\ busy = WService r' node (Float64.add (now s) sv)))
              /\ s' = set_workers s (model s) (l1 ++ busy :: l2) sq)
        \/ (exists r node due top ws sq,
              x = WService r node due
              /\ (now s == due)%Q
              /\ held top = []
              /\ (ws = l1 ++ top :: l2
                  \/ exists l3 l4 r2 n2 sv,
                       l1 ++ top :: l2 = l3 ++ WWaitSlot r2 n2 :: l4
                       /\ Request.service_time r2 = Some sv
                       /\ (0 <= sv)%Q
                       /\ ws = l3 ++ WService r2 n2 (Float64.add (now s) sv) :: l4)
              /\ s' = set_workers s
                        (CloudSystemModel.set_processed_requests (model s)
                           (CloudSystemModel.processed_requests (model s)
                            ++ [Request.set_finish_time r (now s)]))
                        ws sq)).
Proof.
  unfold worker_wake_step. intro H.
  destruct (nth_error (workers s) w) as [x|] eqn:Ew; [|discriminate].
  destruct (list_set_split _ _ _ Ew) as (l1 & l2 & Hw & _ & Hset).
  exists l1, l2, x. split; [exact Hw|].
  destruct x as [|due|r node due|r node|r node due|]; try discriminate.
  - destruct (Qeq_bool (now s) due); [|discriminate].
    some_inv H. left. rewrite Hset. eexists _, _.
    split; [reflexivity|]. split; [apply worker_loop_top_held|reflexivity].
  - destruct (Qeq_bool (now s) due); [|discriminate].
    right; left.
    destruct (Z.of_nat _ <? StorageNode.capacity node).
    + destruct (begin_service _ _ node) as [busy|] eqn:Eb; [|discriminate].
      some_inv H. rewrite Hset.
      apply begin_service_inv in Eb as (sv & Hsv & Hpos & ->).
      eexists r, node, due, _, _. split; [reflexivity|].
      split; [|reflexivity]. right. exists sv. repeat split; assumption.
    + some_inv H. rewrite Hset. eexists r, node, due, _, _.
      split; [reflexivity|]. split; [|reflexivity]. now left.
  - destruct (Qeq_bool (now s) due) eqn:Edue; [|discriminate].
    apply Qeq_bool_iff in Edue.
    right; right. rewrite Hset in H.
    set (top := worker_loop_top (now s) _) in *.
    destruct (take_waiter (StorageNode.uid node) (slot_queue s))
      as [[w2 sq]|].
    + destruct (nth_error (l1 ++ top :: l2) w2) as [[| | |r2 n2| |]|] eqn:E2;
        try discriminate.
      destruct (begin_service (now s) r2 n2) as [busy|] eqn:Eb;
        [|discriminate].
      some_inv H.
      destruct (list_set_split _ _ _ E2) as (l3 & l4 & Hw2 & _ & Hset2).
      rewrite Hset2.
      apply begin_service_inv in Eb as (sv & Hsv & Hpos & ->).
      eexists r, node, due, top, _, _. split; [reflexivity|].
      split; [exact Edue|]. split; [apply worker_loop_top_held|].
      split; [|reflexivity]. right. exists l3, l4, r2, n2, sv.
      repeat split; assumption.
    + some_inv H. eexists r, node, due, top, _, _. split; [reflexivity|].
      split; [exact Edue|]. split; [apply worker_loop_top_held|].
      split; [|reflexivity]. now left.
Qed.

Lemma advance_step_inv (t : Q) (s s' : Sim) :
  advance_step t s = Some s' ->
  (now s <= t)%Q
  /\ s' = mkSim t (model s) (balancer s) (scaler s) (gen s) (workers s)
                (slot_queue s) (ctl s) (sampler s).
Proof.
  unfold advance_step. destruct (_ && _) eqn:E; [|discriminate].
  intro H. some_inv H. split; [|reflexivity].
  apply andb_true_iff in E as [E _]. apply andb_true_iff in E as [E _].
  now apply Qle_bool_iff.
Qed.

Lemma same_requests_refl (m : CloudSystemModel.t) : same_requests m m.
Proof. repeat split. Qed.

Lemma same_scaling_refl (a : AutoScaler.t) : same_scaling a a.
Proof. repeat split. Qed.

Lemma add_node_same_requests (m m' : CloudSystemModel.t) (n : StorageNode.t) :
  CloudSystemModel.add_node m = Some (n, m') -> same_requests m m'.
Proof.
  unfold CloudSystemModel.add_node.
  destruct (StorageNode.new _ _ _); [|discriminate].
  intro H. some_inv H. repeat split.
Qed.

Lemma remove_node_same_requests (m : CloudSystemModel.t) :
  same_requests m (snd (CloudSystemModel.remove_node m)).
Proof.
  unfold CloudSystemModel.remove_node. destruct (0 <? _); repeat split.
Qed.

Lemma decide_same_requests (a : AutoScaler.t) (t : Q)
    (m : CloudSystemModel.t) (x : AutoScaler.Metrics) (a' : AutoScaler.t)
    (m' : CloudSystemModel.t) :
  AutoScaler.decide a t m x = Some (a', m') -> same_requests m m'.
Proof.
  intro H. apply decide_cases in H.
  destruct H as [(_ & [n Hadd] & _)|[(_ & _ & _ & _ & -> & _)|(_ & -> & _)]].
  - eapply add_node_same_requests; eassumption.
  - apply remove_node_same_requests.
  - apply same_requests_refl.
Qed.

(** A pass of the controller is one decision, taken on the scaling state
    the pass started with. *)
Lemma control_pass_inv (a : AutoScaler.t) (t : Q) (m : CloudSystemModel.t)
    (a' : AutoScaler.t) (m' : CloudSystemModel.t) :
  AutoScaler.control_pass a t m = Some (a', m') ->
  exists a0 x a1,
    same_scaling a a0
    /\ AutoScaler.decide a0 t m x = Some (a1, m')
    /\ same_scaling a1 a'.
Proof.
  unfold AutoScaler.control_pass.
  destruct (AutoScaler._calculate_interval_metrics a t m) as [x a1] eqn:E.
  unfold AutoScaler._calculate_interval_metrics in E. some_inv E.
  match goal with
  | |- context [AutoScaler.decide ?a0 t m ?x] =>
    destruct (AutoScaler.decide a0 t m x) as [[a3 m3]|] eqn:Ed;
      [|discriminate];
    intro H; some_inv H; exists a0, x, a3
  end.
  split; [repeat split|]. split; [exact Ed|repeat split].
Qed.

Lemma control_step_inv (s s' : Sim) :
  control_step s = Some s' ->
  exists m a c,
    s' = set_scaler s m a c (sampler s)
    /\ ((m = model s /\ same_scaling (scaler s) a)
        \/ AutoScaler.control_pass (scaler s) (now s) (model s)
           = Some (a, m)).
Proof.
  unfold control_step. intro H.
  destruct (ctl s) as [due|due|]; try discriminate;
    (destruct (Qeq_bool (now s) due); [|discriminate]).
  - destruct (AutoScaler.is_running (scaler s)).
    + destruct (AutoScaler.control_pass _ _ _) as [[a m]|] eqn:Ep;
        [|discriminate].
      destruct (ctl_loop_top (now s) a) as [c|]; [|discriminate].
      some_inv H. exists m, a, c. split; [reflexivity|now right].
    + some_inv H. eexists _, _, _. split; [reflexivity|left].
      split; [reflexivity|apply same_scaling_refl].
  - destruct (ctl_loop_top (now s) (scaler s)) as [c|]; [|discriminate].
    some_inv H. eexists _, _, _. split; [reflexivity|left].
    split; [reflexivity|apply same_scaling_refl].
Qed.

Lemma sample_step_inv (s s' : Sim) :
  sample_step s = Some s' ->
  exists a p,
    s' = set_scaler s (model s) a (ctl s) p /\ same_scaling (scaler s) a.
Proof.
  unfold sample_step. intro H.
  destruct (sampler s) as [due|due|]; try discriminate;
    (destruct (Qeq_bool (now s) due); [|discriminate]).
  - destruct (AutoScaler.is_running (scaler s)); some_inv H;
      eexists _, _; (split; [reflexivity|repeat split]).
  - some_inv H. eexists _, _. split; [reflexivity|repeat split].
Qed.

(** ** Accounting of requests *)

Lemma idcount_nil (z : Z) : idcount [] z = 0%nat.
Proof. reflexivity. Qed.

Lemma idcount_cons (r : Request.t) (l : list Request.t) (z : Z) :
  idcount (r :: l) z = (idc1 r z + idcount l z)%nat.
Proof.
  unfold idcount, idc1. simpl.
  destruct (Z.eq_dec (Request.request_id r) z); reflexivity.
Qed.

Lemma idcount_app (l1 l2 : list Request.t) (z : Z) :
  idcount (l1 ++ l2) z = (idcount l1 z + idcount l2 z)%nat.
Proof. unfold idcount. now rewrite map_app, count_occ_app. Qed.

Lemma in_range_next (n z : Z) :
  0 <= n ->
  (if in_range (n + 1) z then 1%nat else 0%nat)
  = ((if in_range n z then 1 else 0) + (if Z.eq_dec n z then 1 else 0))%nat.
Proof.
  intro Hn. unfold in_range.
  destruct (Z.eq_dec n z) as [E|Hne]; [subst z|];
    destruct (0 <=? _) eqn:E1; destruct (_ <? n + 1) eqn:E2;
    destruct (_ <? n) eqn:E3; simpl; try reflexivity;
    rewrite ?Z.leb_le, ?Z.leb_gt, ?Z.ltb_lt, ?Z.ltb_ge in *; lia.
Qed.

Arguments idcount : simpl never.
Arguments idc1 : simpl never.
Arguments in_range : simpl never.

Lemma Forall_middle {A : Type} (P : A -> Prop) (l1 l2 : list A) (x y : A) :
  Forall P (l1 ++ x :: l2) -> P y -> Forall P (l1 ++ y :: l2).
Proof.
  rewrite !Forall_app. intros [H1 H2] Hy. split; [exact H1|].
  constructor; [exact Hy|]. now apply Forall_inv_tail in H2.
Qed.

Lemma Forall_middle_inv {A : Type} (P : A -> Prop) (l1 l2 : list A) (x : A) :
  Forall P (l1 ++ x :: l2) -> P x.
Proof.
  rewrite Forall_app. intros [_ H]. now apply Forall_inv in H.
Qed.

Lemma flat_map_step {A B : Type} (f : A -> list B) (x : A) (l : list A) :
  flat_map f (x :: l) = f x ++ flat_map f l.
Proof. reflexivity. Qed.

Ltac places :=
  repeat first
    [ rewrite idcount_app | rewrite idcount_cons | rewrite idcount_nil
    | rewrite flat_map_app | rewrite flat_map_step | rewrite length_app
    | match goal with
      | H : held ?t = [] |- context [held ?t] => rewrite H
      | H : gen_held ?t = [] |- context [gen_held ?t] => rewrite H
      end
    | progress cbn [held gen_held] ].

Ltac places_in H :=
  repeat first
    [ rewrite idcount_app in H | rewrite idcount_cons in H
    | rewrite idcount_nil in H | rewrite flat_map_app in H
    | rewrite flat_map_step in H | rewrite length_app in H
    | match type of H with
      | context [held ?t] =>
        match goal with H' : held t = [] |- _ => rewrite H' in H end
      | context [gen_held ?t] =>
        match goal with H' : gen_held t = [] |- _ => rewrite H' in H end
      end
    | progress cbn [held gen_held] in H ].

Ltac acc_open H :=
  let Hn := fresh "Hn" in
  let Hc := fresh "Hc" in
  let Hl := fresh "Hl" in
  destruct H as [Hn Hc Hl ? ? ? ? ?];
  unfold all_requests, in_flight in Hc, Hl.

Ltac acc_count Hc :=
  let z := fresh "z" in
  intro z; specialize (Hc z); places_in Hc; places;
  rewrite ?in_range_next by assumption;
  unfold idc1 in *; simpl in *; lia.

Ltac acc_length Hl := places_in Hl; places; cbn [length] in *; lia.

(** Dispatch of the fields of [accounted]. *)
Ltac acc_goal Hc Hl :=
  unfold all_requests, in_flight; simpl;
  match goal with
  | |- forall z, idcount _ _ = _ => acc_count Hc
  | |- Z.of_nat (length _) = _ => acc_length Hl
  | |- _ <= _ => assumption || lia
  | |- Forall _ (_ ++ [_]) =>
    apply Forall_app; split; [assumption|apply Forall_cons; [|constructor]]
  | |- Forall _ (_ ++ _ :: _) =>
    eapply Forall_middle; [eassumption|]
  | _ => try assumption
  end.

Lemma accounted_gen (svc ia : Q) (s s' : Sim) :
  accounted s -> gen_step svc ia s = Some s' -> accounted s'.
Proof.
  intros Hacc H.
  apply gen_step_inv in H as (m & g & -> & Hg0 & [[-> Hidle]|(pc & Hgen & Hpc)]).
  - apply gen_idle_held in Hidle. acc_open Hacc.
    constructor; unfold all_requests, in_flight; simpl;
      rewrite ?Hidle; rewrite ?Hg0 in *; auto.
  - acc_open Hacc. rewrite Hg0 in *.
    apply generate_request_cases in Hgen
      as [(_ & -> & ->)|[(_ & -> & ->)|(_ & -> & -> & _)]];
      try (apply gen_idle_held in Hpc); subst;
      constructor; unfold all_requests, in_flight; simpl;
      rewrite ?Hpc; rewrite ?Forall_app; auto;
      try lia; try (acc_count Hc); try (acc_length Hl);
      try (split; [assumption|]);
      repeat constructor.
Qed.

Lemma is_waiting_reject (r : Request.t) (reason : string) :
  is_waiting r ->
  reason = wait_timeout \/ reason = no_nodes ->
  is_rejected (Request.reject r reason).
Proof.
  intros (_ & Hf & Hs) Hr. repeat split; simpl; try assumption.
  destruct Hr as [->| ->]; [right; left|right; right]; reflexivity.
Qed.

Lemma accounted_worker_get (w : nat) (d : Q) (s s' : Sim) :
  accounted s -> worker_get_step w d s = Some s' -> accounted s'.
Proof.
  intros Hacc H.
  apply worker_get_step_inv in H
    as (request & rest & l1 & l2 & m1 & g1 & Hw & Hq & Hput & Hout).
  acc_open Hacc. rewrite Hw, Hq in *.
  assert (Hreq : is_waiting request) by (eapply Forall_inv; eassumption).
  assert (Hrest : Forall is_waiting rest)
    by (eapply Forall_inv_tail; eassumption).
  destruct Hput as [[-> ->]|(r2 & Hg & -> & ->)];
    [|rewrite Hg in *; cbn [gen_held] in *;
      assert (Hr2 : is_waiting r2) by (eapply Forall_inv; eassumption)];
    destruct Hout as [(reason & top & lb & Hr & Htop & ->)|(node & lb & _ & ->)];
    constructor; acc_goal Hc Hl;
    auto using is_waiting_reject;
    try (destruct top; simpl in *; auto; discriminate).
Qed.

Lemma accounted_worker_wake (w : nat) (s s' : Sim) :
  accounted s -> worker_wake_step w s = Some s' -> accounted s'.
Proof.
  intros Hacc H.
  apply worker_wake_step_inv in H as (l1 & l2 & x & Hw & Hcases).
  acc_open Hacc. rewrite Hw in *.
  destruct Hcases
    as [(due & top & -> & Htop & ->)
       |[(r & node & due & sq & busy & -> & Hbusy & ->)
        |(r & node & due & top & ws & sq & -> & _ & Htop & Hws & ->)]].
  - constructor; acc_goal Hc Hl.
    destruct top; simpl in *; auto; discriminate.
  - assert (Hr : is_waiting r).
    { match goal with H : Forall _ (l1 ++ _ :: l2) |- _ =>
        apply Forall_middle_inv in H; exact H end. }
    destruct Hr as (Hr1 & Hr2 & _).
    cbn zeta in Hbusy.
    destruct Hbusy as [->|(sv & _ & _ & ->)];
      constructor; acc_goal Hc Hl; split; assumption.
  - assert (Hr : is_held r).
    { match goal with H : Forall _ (l1 ++ _ :: l2) |- _ =>
        apply Forall_middle_inv in H; exact H end. }
    destruct Hr as (Hr1 & Hr2).
    assert (Htopok : match top with
                     | WNetDelay r _ _ => is_waiting r
                     | WWaitSlot r _ | WService r _ _ => is_held r
                     | _ => True
                     end)
      by (destruct top; simpl in *; auto; discriminate).
    destruct Hws as [->|(l3 & l4 & r2 & n2 & sv & Hsplit & _ & _ & ->)].
    + constructor; acc_goal Hc Hl; auto.
      split; [assumption|simpl; discriminate].
    + assert (Hall : Forall (fun w => match w with
                                      | WNetDelay r _ _ => is_waiting r
                                      | WWaitSlot r _ | WService r _ _ =>
                                        is_held r
                                      | _ => True
                                      end) (l3 ++ WWaitSlot r2 n2 :: l4)).
      { rewrite <- Hsplit. eapply Forall_middle; eassumption. }
      assert (Hflat : flat_map held (l3 ++ WService r2 n2 (Float64.add (now s) sv) :: l4)
                      = flat_map held (l1 ++ top :: l2)).
      { rewrite Hsplit. rewrite !flat_map_app. reflexivity. }
      constructor; unfold all_requests, in_flight; simpl;
        rewrite ?Hflat; try assumption.
      * acc_count Hc.
      * acc_length Hl.
      * apply Forall_app; split; [assumption|].
        repeat constructor; simpl; [assumption|discriminate].
      * eapply Forall_middle; [exact Hall|].
        apply Forall_middle_inv in Hall. exact Hall.
Qed.

Lemma accounted_frame (s s' : Sim) :
  accounted s ->
  same_requests (model s) (model s') ->
  gen s' = gen s -> workers s' = workers s ->
  accounted s'.
Proof.
  intros [Hn Hc Hl HP HR HQ HG HW] (_ & _ & Eq & En & Ep & Er) Eg Ew.
  unfold all_requests, in_flight in Hc, Hl.
  constructor; unfold all_requests, in_flight;
    rewrite ?Eq, ?En, ?Ep, ?Er, ?Eg, ?Ew; assumption.
Qed.

Lemma control_pass_same_requests (a : AutoScaler.t) (t : Q)
    (m : CloudSystemModel.t) (a' : AutoScaler.t) (m' : CloudSystemModel.t) :
  AutoScaler.control_pass a t m = Some (a', m') -> same_requests m m'.
Proof.
  intro H. apply control_pass_inv in H as (a0 & x & a1 & _ & Hd & _).
  eapply decide_same_requests; eassumption.
Qed.

(** The steps that leave every request where it is. *)
Lemma quiet_step_frame (e : Event) (s s' : Sim) :
  step e s = Some s' ->
  match e with
  | EGenerator _ _ | EWorkerGet _ _ | EWorkerWake _ => True
  | _ =>
    same_requests (model s) (model s')
    /\ gen s' = gen s /\ workers s' = workers s
    /\ (now s <= now s')%Q
  end.
Proof.
  destruct e; simpl; intro H; try exact I.
  - apply advance_step_inv in H as [Hle ->]. simpl.
    repeat split. exact Hle.
  - apply control_step_inv in H as (m & a & c & -> & [[-> _]|Hp]); simpl.
    + repeat split. apply Qle_refl.
    + split; [eapply control_pass_same_requests; eassumption|].
      repeat split. apply Qle_refl.
  - apply sample_step_inv in H as (a & p & -> & _). simpl.
    repeat split. apply Qle_refl.
  - some_inv H. simpl. repeat split. apply Qle_refl.
  - some_inv H. simpl. repeat split. apply Qle_refl.
  - some_inv H. simpl. repeat split. apply Qle_refl.
Qed.

Lemma accounted_step (e : Event) (s s' : Sim) :
  accounted s -> step e s = Some s' -> accounted s'.
Proof.
  intros Hacc H. pose proof (quiet_step_frame e s s' H) as Hq.
  destruct e; simpl in H;
    try (destruct Hq as (Hm & Hg & Hw & _);
         eapply accounted_frame; eassumption).
  - eapply accounted_gen; eassumption.
  - eapply accounted_worker_get; eassumption.
  - eapply accounted_worker_wake; eassumption.
Qed.

Lemma add_nodes_same_requests (k : nat) (m m' : CloudSystemModel.t) :
  CloudSystemModel.add_nodes k m = Some m' -> same_requests m m'.
Proof.
  revert m. induction k as [|k IH]; intros m; simpl.
  - intro H. some_inv H. apply same_requests_refl.
  - destruct (CloudSystemModel.add_node m) as [[n m1]|] eqn:E;
      [|discriminate].
    intro H. apply IH in H. apply add_node_same_requests in E.
    destruct E as (E1 & E2 & E3 & E4 & E5 & E6).
    destruct H as (H1 & H2 & H3 & H4 & H5 & H6).
    repeat split; congruence.
Qed.

Lemma flat_map_repeat_WGet (k : nat) : flat_map held (repeat WGet k) = [].
Proof. induction k; simpl; auto. Qed.

(** The state a run starts in. *)
(** What a successful construction has checked, and what it returns. *)
Lemma init_inv (mc : CloudSystemModel.Config) (n : Z)
    (m : CloudSystemModel.t) :
  CloudSystemModel.init mc n = inr m ->
  exists cap,
    CloudSystemModel.max_requests_in_flight mc = Some cap
    /\ 0 < cap
    /\ CloudSystemModel.add_nodes (Z.to_nat n)
         (CloudSystemModel.mk mc (cap * 10) [] [] 0 [] [] false false O)
       = Some m.
Proof.
  unfold CloudSystemModel.init.
  destruct (CloudSystemModel.max_requests_in_flight mc) as [cap|];
    [|discriminate].
  destruct (0 <? cap * 10) eqn:E; [|discriminate].
  destruct (CloudSystemModel.add_nodes _ _) as [m1|] eqn:Ea;
    [|discriminate].
  intro H. inversion H; subst. apply Z.ltb_lt in E.
  exists cap. split; [reflexivity|]. split; [lia|exact Ea].
Qed.

Lemma start_inv (mc : CloudSystemModel.Config) (n : Z)
    (sc : AutoScaler.Config) (ia : Q) (s0 : Sim) :
  start mc n sc ia = Some s0 ->
  now s0 = 0%Q
  /\ CloudSystemModel.cfg (model s0) = mc
  /\ (exists cap,
        CloudSystemModel.max_requests_in_flight mc = Some cap
        /\ 0 < cap
        /\ CloudSystemModel.queue_capacity (model s0) = cap * 10)
  /\ CloudSystemModel.queue_items (model s0) = []
  /\ CloudSystemModel.next_request_id (model s0) = 0
  /\ CloudSystemModel.processed_requests (model s0) = []
  /\ CloudSystemModel.rejected_requests (model s0) = []
  /\ gen_idle (gen s0)
  /\ workers s0 = repeat WGet (max_parallel_processors mc)
  /\ scaler s0 = AutoScaler.set_is_running (AutoScaler.init sc) true.
Proof.
  unfold start.
  destruct (CloudSystemModel.init mc n) as [e|m0] eqn:Ei; [discriminate|].
  destruct (gen_loop_top 0 _ ia) as [g|] eqn:Eg; [|discriminate].
  destruct (ctl_loop_top 0 _) as [c|]; [|discriminate].
  intro H. some_inv H. simpl.
  apply gen_loop_top_idle in Eg.
  apply init_inv in Ei as (cap & Ecap & Hcap & Ei).
  apply add_nodes_same_requests in Ei.
  destruct Ei as (E1 & E2 & E3 & E4 & E5 & E6). simpl in *.
  repeat split; try assumption.
  exists cap. repeat split; assumption.
Qed.

Lemma accounted_start (mc : CloudSystemModel.Config) (n : Z)
    (sc : AutoScaler.Config) (ia : Q) (s0 : Sim) :
  start mc n sc ia = Some s0 -> accounted s0.
Proof.
  intro H. apply start_inv in H
    as (_ & _ & _ & Eq & En & Ep & Er & Hg & Ew & _).
  apply gen_idle_held in Hg.
  constructor; unfold all_requests, in_flight;
    rewrite ?Eq, ?En, ?Ep, ?Er, ?Hg, ?Ew, ?flat_map_repeat_WGet;
    simpl; try constructor; try lia.
  - intro z. unfold in_range.
    destruct (0 <=? z) eqn:E1; destruct (z <? 0) eqn:E2; try reflexivity.
    apply Z.leb_le in E1. apply Z.ltb_lt in E2. lia.
  - apply Forall_forall. intros x Hx. apply repeat_spec in Hx. now subst.
Qed.

Lemma reachable_invariant (P : Sim -> Prop) :
  (forall mc n sc ia s0, start mc n sc ia = Some s0 -> P s0) ->
  (forall e s s', P s -> step e s = Some s' -> P s') ->
  forall s, reachable s -> P s.
Proof.
  intros Hstart Hstep s (mc & n & sc & ia & s0 & H0 & Hr).
  induction Hr as [|s e s' _ IH Hs].
  - eapply Hstart; eassumption.
  - eapply Hstep; eassumption.
Qed.

Lemma reachable_accounted (s : Sim) : reachable s -> accounted s.
Proof.
  apply reachable_invariant.
  - apply accounted_start.
  - intros e. apply accounted_step.
Qed.

(** ** Time stamps *)

Lemma stamped_queued_mono (t t' : Q) (r : Request.t) :
  (t <= t')%Q -> stamped_queued t r -> stamped_queued t' r.
Proof.
  intros Hle (H1 & H2 & H3). repeat split; try assumption.
  eapply Qle_trans; eassumption.
Qed.

Lemma worker_stamps_mono (t t' : Q) (w : Worker) :
  (t <= t')%Q -> worker_stamps t w -> worker_stamps t' w.
Proof.
  intros Hle. destruct w; simpl; try (intro; assumption).
  - apply stamped_queued_mono. exact Hle.
  - intros (H1 & H2 & st & H3 & H4 & H5). repeat split; try assumption.
    exists st. repeat split; try assumption. eapply Qle_trans; eassumption.
  - intros (H1 & H2 & st & x & H3 & H4 & H5 & H6 & H7).
    repeat split; try assumption.
    exists st, x. repeat split; try assumption.
    eapply Qle_trans; eassumption.
Qed.

Lemma worker_stamps_idle (t : Q) (w : Worker) :
  held w = [] -> worker_stamps t w.
Proof. destruct w; simpl; intro H; try exact I; discriminate. Qed.

Lemma timed_frame (s s' : Sim) :
  timed s ->
  same_requests (model s) (model s') ->
  gen s' = gen s -> workers s' = workers s -> (now s <= now s')%Q ->
  timed s'.
Proof.
  intros [Hn HQ HG HW HP] (_ & _ & Eq & _ & Ep & _) Eg Ew Hle.
  constructor; rewrite ?Eq, ?Ep, ?Eg, ?Ew.
  - eapply Qle_trans; eassumption.
  - eapply Forall_impl; [|exact HQ]. intro r. now apply stamped_queued_mono.
  - eapply Forall_impl; [|exact HG]. intro r. now apply stamped_queued_mono.
  - eapply Forall_impl; [|exact HW]. intro w. now apply worker_stamps_mono.
  - exact HP.
Qed.

Lemma timed_gen (svc ia : Q) (s s' : Sim) :
  timed s -> gen_step svc ia s = Some s' -> timed s'.
Proof.
  intros [Hn HQ HG HW HP] H.
  apply gen_step_inv in H as (m & g & -> & Hg0 & [[-> Hidle]|(pc & Hgen & Hpc)]).
  - apply gen_idle_held in Hidle.
    constructor; simpl; rewrite ?Hidle; auto.
  - assert (Hnew : forall rid,
              stamped_queued (now s)
                (Request.set_queue_entry_time
                   (Request.set_service_time (Request.new rid (now s)) svc)
                   (now s))).
    { intro rid. repeat split; simpl; try assumption. apply Qle_refl. }
    apply generate_request_cases in Hgen
      as [(_ & -> & ->)|[(_ & -> & ->)|(_ & -> & -> & _)]];
      try (apply gen_idle_held in Hpc); subst;
      constructor; simpl; rewrite ?Hpc; auto.
    apply Forall_app. split; [assumption|]. constructor; [|constructor].
    apply Hnew.
Qed.

Lemma timed_worker_get (w : nat) (d : Q) (s s' : Sim) :
  timed s -> worker_get_step w d s = Some s' -> timed s'.
Proof.
  intros [Hn HQ HG HW HP] H.
  apply worker_get_step_inv in H
    as (request & rest & l1 & l2 & m1 & g1 & Hw & Hq & Hput & Hout).
  rewrite Hw, Hq in *.
  assert (Hreq : stamped_queued (now s) request)
    by (eapply Forall_inv; eassumption).
  assert (Hrest : Forall (stamped_queued (now s)) rest)
    by (eapply Forall_inv_tail; eassumption).
  destruct Hput as [[-> ->]|(r2 & Hg & -> & ->)];
    [|rewrite Hg in *; cbn [gen_held] in *];
    destruct Hout as [(reason & top & lb & Hr & Htop & ->)|(node & lb & _ & ->)];
    constructor; simpl; auto;
    try (apply Forall_app; split; assumption);
    (eapply Forall_middle; [eassumption|]);
    auto using worker_stamps_idle.
Qed.

Lemma stamped_serving_start (t sv : Q) (r : Request.t) (nid : Z) :
  stamped_queued t r -> Request.service_time r = Some sv -> (0 <= sv)%Q ->
  stamped_serving t (Request.set_start r nid t).
Proof.
  intros (H1 & H2 & H3) Hsv Hpos. repeat split; simpl; try assumption.
  exists t, sv. repeat split; try assumption. apply Qle_refl.
Qed.

Lemma stamped_serving_grant (t sv : Q) (r : Request.t) :
  stamped_started t r -> Request.service_time r = Some sv -> (0 <= sv)%Q ->
  stamped_serving t r.
Proof.
  intros (H1 & H2 & st & H3 & H4 & H5) Hsv Hpos.
  repeat split; try assumption.
  exists st, sv. repeat split; assumption.
Qed.

Lemma stamped_completed_finish (t : Q) (r : Request.t) :
  stamped_serving t r ->
  stamped_completed (Request.set_finish_time r t).
Proof.
  intros (H1 & H2 & st & x & H3 & H4 & H5 & H6 & H7).
  repeat split; simpl; try assumption.
  exists st, t, x. repeat split; assumption.
Qed.

Lemma timed_worker_wake (w : nat) (s s' : Sim) :
  timed s -> worker_wake_step w s = Some s' -> timed s'.
Proof.
  intros [Hn HQ HG HW HP] H.
  apply worker_wake_step_inv in H as (l1 & l2 & x & Hw & Hcases).
  rewrite Hw in *.
  pose proof (Forall_middle_inv _ _ _ _ HW) as Hx.
  destruct Hcases
    as [(due & top & -> & Htop & ->)
       |[(r & node & due & sq & busy & -> & Hbusy & ->)
        |(r & node & due & top & ws & sq & -> & Hdue & Htop & Hws & ->)]];
    simpl in Hx.
  - constructor; simpl; auto.
    eapply Forall_middle; [eassumption|]. now apply worker_stamps_idle.
  - constructor; simpl; auto.
    eapply Forall_middle; [eassumption|].
    cbn zeta in Hbusy. destruct Hbusy as [->|(sv & Hsv & Hpos & ->)]; simpl.
    + destruct Hx as (H1 & H2 & H3). repeat split; try assumption.
      exists (now s). repeat split; simpl; try assumption; apply Qle_refl.
    + now apply (stamped_serving_start (now s) sv).
  - assert (Hmid : Forall (worker_stamps (now s)) (l1 ++ top :: l2)).
    { eapply Forall_middle; [eassumption|]. now apply worker_stamps_idle. }
    constructor; simpl; auto.
    + destruct Hws as [->|(l3 & l4 & r2 & n2 & sv & Hsplit & Hsv & Hpos & ->)];
        [exact Hmid|].
      rewrite Hsplit in Hmid.
      eapply Forall_middle; [exact Hmid|].
      apply Forall_middle_inv in Hmid. simpl in *.
      now apply (stamped_serving_grant (now s) sv).
    + apply Forall_app. split; [assumption|]. constructor; [|constructor].
      eapply stamped_completed_finish; eassumption.
Qed.

Lemma timed_step (e : Event) (s s' : Sim) :
  timed s -> step e s = Some s' -> timed s'.
Proof.
  intros Ht H. pose proof (quiet_step_frame e s s' H) as Hq.
  destruct e; simpl in H;
    try (destruct Hq as (Hm & Hg & Hw & Hle);
         eapply timed_frame; eassumption).
  - eapply timed_gen; eassumption.
  - eapply timed_worker_get; eassumption.
  - eapply timed_worker_wake; eassumption.
Qed.

Lemma timed_start (mc : CloudSystemModel.Config) (n : Z)
    (sc : AutoScaler.Config) (ia : Q) (s0 : Sim) :
  start mc n sc ia = Some s0 -> timed s0.
Proof.
  intro H. apply start_inv in H
    as (E0 & _ & _ & Eq & _ & Ep & _ & Hg & Ew & _).
  apply gen_idle_held in Hg.
  constructor; rewrite ?E0, ?Eq, ?Ep, ?Hg, ?Ew; try constructor.
  - apply Qle_refl.
  - apply Forall_forall. intros x Hx. apply repeat_spec in Hx.
    subst. exact I.
Qed.

Lemma reachable_timed (s : Sim) : reachable s -> timed s.
Proof.
  apply reachable_invariant.
  - apply timed_start.
  - intros e. apply timed_step.
Qed.

(** ** The put of the generator *)

Lemma fold_add_nonneg (l : list Z) (a : Z) :
  Forall (fun x => 0 <= x) l -> a <= fold_left Z.add l a.
Proof.
  revert a. induction l as [|x l IH]; intros a Hall; simpl; [lia|].
  pose proof (Forall_inv Hall) as Hx. cbv beta in Hx.
  apply Forall_inv_tail in Hall.
  specialize (IH (a + x) Hall). lia.
Qed.

Lemma in_processing_nonneg (ws : list Worker) (ns : list StorageNode.t) :
  0 <= in_processing ws ns.
Proof.
  unfold in_processing. apply fold_add_nonneg.
  apply Forall_forall. intros x Hx. apply in_map_iff in Hx as (n & <- & _).
  lia.
Qed.

(** Past the admission test the store has room. *)
Lemma admitted_put_has_room (m : CloudSystemModel.t) (ws : list Worker) :
  (exists cap,
      CloudSystemModel.max_requests_in_flight (CloudSystemModel.cfg m)
      = Some cap
      /\ CloudSystemModel.queue_capacity m = cap * 10) ->
  over_cap m ws = false ->
  Z.of_nat (length (CloudSystemModel.queue_items m))
  < CloudSystemModel.queue_capacity m.
Proof.
  unfold over_cap. intros (cap & Ecap & ->) Hover.
  rewrite Ecap in Hover. apply Z.leb_gt in Hover.
  pose proof (in_processing_nonneg ws (CloudSystemModel.nodes m)). lia.
Qed.

Lemma reason_not_queue_full (reason : string) :
  reason = wait_timeout \/ reason = no_nodes -> reason <> queue_full.
Proof. intros [->| ->]; discriminate. Qed.

Lemma put_never_waits_gen (svc ia : Q) (s s' : Sim) :
  put_never_waits s -> gen_step svc ia s = Some s' -> put_never_waits s'.
Proof.
  intros [Hcap Hgen HR] H.
  apply gen_step_inv in H as (m & g & -> & Hg0 & [[-> Hidle]|(pc & Hg & Hpc)]).
  - constructor; simpl; assumption.
  - apply generate_request_cases in Hg
      as [(_ & -> & ->)|[(_ & -> & ->)|(Hover & -> & -> & Hfull)]].
    + constructor; simpl; try assumption.
      apply Forall_app. split; [assumption|].
      constructor; [|constructor]. reflexivity.
    + constructor; simpl; assumption.
    + pose proof (admitted_put_has_room _ _ Hcap Hover). lia.
Qed.

Lemma put_never_waits_worker_get (w : nat) (d : Q) (s s' : Sim) :
  put_never_waits s -> worker_get_step w d s = Some s' -> put_never_waits s'.
Proof.
  intros [Hcap Hgen HR] H.
  apply worker_get_step_inv in H
    as (request & rest & l1 & l2 & m1 & g1 & Hw & Hq & Hput & Hout).
  destruct Hput as [[-> ->]|(r2 & Hg & _)];
    [|rewrite Hg in Hgen; contradiction].
  destruct Hout as [(reason & top & lb & Hr & Htop & ->)|(node & lb & _ & ->)];
    constructor; simpl; try assumption.
  apply Forall_app. split; [assumption|]. constructor; [|constructor].
  simpl. intro E. some_inv E.
  now apply reason_not_queue_full in Hr.
Qed.

Lemma put_never_waits_worker_wake (w : nat) (s s' : Sim) :
  put_never_waits s -> worker_wake_step w s = Some s' -> put_never_waits s'.
Proof.
  intros [Hcap Hgen HR] H.
  apply worker_wake_step_inv in H as (l1 & l2 & x & Hw & Hcases).
  destruct Hcases
    as [(due & top & -> & Htop & ->)
       |[(r & node & due & sq & busy & -> & Hbusy & ->)
        |(r & node & due & top & ws & sq & -> & _ & Htop & Hws & ->)]];
    constructor; simpl; assumption.
Qed.

Lemma put_never_waits_step (e : Event) (s s' : Sim) :
  put_never_waits s -> step e s = Some s' -> put_never_waits s'.
Proof.
  intros Hp H. pose proof (quiet_step_frame e s s' H) as Hq.
  destruct e; simpl in H;
    try (destruct Hp as [Hcap Hgen HR];
         destruct Hq as ((E1 & E2 & _ & _ & _ & E6) & Hg & _);
         constructor; rewrite ?E1, ?E2, ?E6, ?Hg; assumption).
  - eapply put_never_waits_gen; eassumption.
  - eapply put_never_waits_worker_get; eassumption.
  - eapply put_never_waits_worker_wake; eassumption.
Qed.

Lemma put_never_waits_start (mc : CloudSystemModel.Config) (n : Z)
    (sc : AutoScaler.Config) (ia : Q) (s0 : Sim) :
  start mc n sc ia = Some s0 -> put_never_waits s0.
Proof.
  intro H. apply start_inv in H
    as (_ & Ec & (cap & Ecap & _ & Eq) & _ & _ & _ & Er & Hg & _).
  constructor; rewrite ?Ec, ?Er; try assumption; [|constructor].
  exists cap. split; assumption.
Qed.

Lemma reachable_put_never_waits (s : Sim) :
  reachable s -> put_never_waits s.
Proof.
  apply reachable_invariant.
  - apply put_never_waits_start.
  - intros e. apply put_never_waits_step.
Qed.

(** ** Cooldown and bounds of the controller *)

Lemma decide_scaling (a : AutoScaler.t) (t : Q) (m : CloudSystemModel.t)
    (x : AutoScaler.Metrics) (a' : AutoScaler.t) (m' : CloudSystemModel.t) :
  AutoScaler.decide a t m x = Some (a', m') ->
  AutoScaler.cfg a' = AutoScaler.cfg a
  /\ ((AutoScaler.scale_log a' = AutoScaler.scale_log a
       /\ AutoScaler.last_scale_time a' = AutoScaler.last_scale_time a
       /\ m' = m)
      \/ (exists msg,
            AutoScaler.scale_log a' = (t, msg) :: AutoScaler.scale_log a
            /\ AutoScaler.last_scale_time a' = t
            /\ (AutoScaler.scale_cooldown (AutoScaler.cfg a)
                <= Float64.sub t (AutoScaler.last_scale_time a))%Q)).
Proof.
  intro H. apply decide_cases in H.
  destruct H as [(Hup & _ & ->)|[(_ & Hlow & _ & _ & _ & ->)|(_ & -> & -> & _)]].
  - split; [reflexivity|right]. eexists. repeat split.
    unfold AutoScaler.should_scale_up in Hup.
    apply andb_true_iff in Hup as [_ Hup]. now apply Qle_bool_iff.
  - split; [reflexivity|right]. eexists. repeat split.
    unfold AutoScaler.low_condition in Hlow.
    apply andb_true_iff in Hlow as [_ Hlow]. now apply Qle_bool_iff.
  - split; [reflexivity|left]. repeat split.
Qed.

Lemma cooled_control_pass (s : Sim) (a : AutoScaler.t)
    (m : CloudSystemModel.t) :
  cooled s ->
  AutoScaler.control_pass (scaler s) (now s) (model s) = Some (a, m) ->
  forall c p, cooled (set_scaler s m a c p).
Proof.
  intros [Hgaps Hlast] H c p.
  apply control_pass_inv in H
    as (a0 & x & a1 & (E1 & E2 & E3 & _) & Hd & (F1 & F2 & F3 & _)).
  apply decide_scaling in Hd
    as (Ecfg & [(Elog & Elast & _)|(msg & Elog & Elast & Hcool)]);
    constructor; simpl; rewrite ?F1, ?F2, ?F3, ?Ecfg, ?Elog, ?Elast, ?E1, ?E2, ?E3;
    try assumption.
  - simpl. destruct (AutoScaler.scale_log (scaler s)) as [|[t1 msg1] rest];
      [exact I|].
    split; [|exact Hgaps]. rewrite E1, E2, Hlast in Hcool. exact Hcool.
  - reflexivity.
Qed.

Lemma cooled_step (e : Event) (s s' : Sim) :
  cooled s -> step e s = Some s' -> cooled s'.
Proof.
  intros Hc H.
  assert (Hsame : forall s1, scaler s1 = scaler s \/ same_scaling (scaler s) (scaler s1) ->
                             cooled s1).
  { intros s1 [E|(E1 & E2 & E3 & _)]; destruct Hc as [Hgaps Hlast];
      constructor; rewrite ?E, ?E1, ?E2, ?E3; assumption. }
  destruct e; simpl in H.
  - apply advance_step_inv in H as [_ ->]. apply Hsame. now left.
  - apply gen_step_inv in H as (m & g & -> & _). apply Hsame. now left.
  - apply worker_get_step_inv in H
      as (request & rest & l1 & l2 & m1 & g1 & _ & _ & _ & Hout).
    destruct Hout as [(reason & top & lb & _ & _ & ->)|(node & lb & _ & ->)];
      apply Hsame; now left.
  - apply worker_wake_step_inv in H as (l1 & l2 & x & Hw & Hcases).
    destruct Hcases
      as [(due & top & -> & Htop & ->)
         |[(r & node & due & sq & busy & -> & Hbusy & ->)
          |(r & node & due & top & ws & sq & -> & _ & Htop & Hws & ->)]];
      apply Hsame; now left.
  - apply control_step_inv in H as (m & a & c & -> & [[-> Ha]|Hp]).
    + apply Hsame. now right.
    + now apply cooled_control_pass.
  - apply sample_step_inv in H as (a & p & -> & Ha). apply Hsame. now right.
  - some_inv H. apply Hsame. right. repeat split.
  - some_inv H. apply Hsame. right. repeat split.
  - some_inv H. apply Hsame. right. repeat split.
Qed.

Lemma cooled_start (mc : CloudSystemModel.Config) (n : Z)
    (sc : AutoScaler.Config) (ia : Q) (s0 : Sim) :
  start mc n sc ia = Some s0 -> cooled s0.
Proof.
  intro H. apply start_inv in H as (_ & _ & _ & _ & _ & _ & _ & _ & _ & Es).
  constructor; rewrite Es; simpl; exact I.
Qed.

Lemma reachable_cooled (s : Sim) : reachable s -> cooled s.
Proof.
  apply reachable_invariant.
  - apply cooled_start.
  - intros e. apply cooled_step.
Qed.

Lemma gaps_ok_pairs (cooldown : Q) (log l1 l2 : list (Q * AutoScaler.ScaleMessage))
    (e2 e1 : Q * AutoScaler.ScaleMessage) :
  gaps_ok cooldown log -> log = l1 ++ e2 :: e1 :: l2 ->
  (cooldown <= Float64.sub (fst e2) (fst e1))%Q.
Proof.
  revert log. induction l1 as [|x l1 IH]; intros log Hg ->.
  - destruct e2, e1. simpl in *. tauto.
  - apply (IH (l1 ++ e2 :: e1 :: l2)); [|reflexivity].
    destruct x as [tx mx]. simpl in Hg.
    destruct (l1 ++ e2 :: e1 :: l2) as [|[ty my] l] eqn:E.
    + destruct l1; discriminate.
    + tauto.
Qed.

Lemma gaps_exact_pairs (cooldown : Q)
    (log l1 l2 : list (Q * AutoScaler.ScaleMessage))
    (e2 e1 : Q * AutoScaler.ScaleMessage) :
  gaps_exact cooldown log -> log = l1 ++ e2 :: e1 :: l2 ->
  (cooldown <= fst e2 - fst e1)%Q.
Proof.
  revert log. induction l1 as [|x l1 IH]; intros log Hg ->.
  - destruct e2, e1. simpl in *. tauto.
  - apply (IH (l1 ++ e2 :: e1 :: l2)); [|reflexivity].
    destruct x as [tx mx]. simpl in Hg.
    destruct (l1 ++ e2 :: e1 :: l2) as [|[ty my] l] eqn:E.
    + destruct l1; discriminate.
    + tauto.
Qed.

Lemma ctl_loop_top_float (t : Q) (a : AutoScaler.t) (c : CtlPc) :
  ctl_loop_top t a = Some c -> ctl_due_float c.
Proof.
  unfold ctl_loop_top. intro H.
  repeat break_in H; try discriminate; some_inv H; simpl;
    try exact I; apply round_idem.
Qed.

(** The controller wakes at the time its timeout was due, and goes to
    sleep until a time that is a float. *)
Lemma control_step_due (s s' : Sim) :
  control_step s = Some s' ->
  ctl_due_float (ctl s')
  /\ exists due,
       (ctl s = CtlWait due \/ ctl s = CtlPaused due) /\ (now s == due)%Q.
Proof.
  unfold control_step. intro H.
  destruct (ctl s) as [due|due|] eqn:Ec; [| |discriminate];
    (destruct (Qeq_bool (now s) due) eqn:Eq; [|discriminate]);
    apply Qeq_bool_iff in Eq.
  - split; [|exists due; split; [now left|exact Eq]].
    destruct (AutoScaler.is_running (scaler s)).
    + destruct (AutoScaler.control_pass _ _ _) as [[a m]|]; [|discriminate].
      destruct (ctl_loop_top (now s) a) as [c|] eqn:Et; [|discriminate].
      some_inv H. simpl. eapply ctl_loop_top_float; eassumption.
    + some_inv H. exact I.
  - split; [|exists due; split; [now right|exact Eq]].
    destruct (ctl_loop_top (now s) (scaler s)) as [c|] eqn:Et; [|discriminate].
    some_inv H. simpl. eapply ctl_loop_top_float; eassumption.
Qed.

Lemma stamped_log_frame (s s1 : Sim) :
  stamped_log s ->
  ctl s1 = ctl s ->
  (now s <= now s1)%Q ->
  AutoScaler.cfg (scaler s1) = AutoScaler.cfg (scaler s) ->
  AutoScaler.scale_log (scaler s1) = AutoScaler.scale_log (scaler s) ->
  AutoScaler.last_scale_time (scaler s1)
  = AutoScaler.last_scale_time (scaler s) ->
  stamped_log s1.
Proof.
  intros [H1 H2 H3 H4] Ec Hn Ecfg Elog Elast.
  constructor; rewrite ?Ec, ?Ecfg, ?Elog, ?Elast; try assumption.
  eapply Forall_impl; [|exact H2].
  intros e (Ha & Hb & Hc). split; [exact Ha|]. split; [lra|exact Hc].
Qed.

(** A pass that finds the cooldown over, by the float difference, is at
    least [cooldown] after the last action in exact arithmetic too. *)
Lemma cooldown_exact (s : Sim) :
  cooled s -> stamped_log s -> is_float (now s) ->
  (AutoScaler.scale_cooldown (AutoScaler.cfg (scaler s))
   <= Float64.sub (now s) (AutoScaler.last_scale_time (scaler s)))%Q ->
  match AutoScaler.scale_log (scaler s) with
  | [] => (AutoScaler.scale_cooldown (AutoScaler.cfg (scaler s)) <= now s)%Q
  | (t1, _) :: _ =>
    (AutoScaler.scale_cooldown (AutoScaler.cfg (scaler s)) <= now s - t1)%Q
  end.
Proof.
  intros [_ Hlast] [_ Ht Hfirst _] Hf Hcool.
  set (c := AutoScaler.scale_cooldown (AutoScaler.cfg (scaler s))) in *.
  destruct (AutoScaler.scale_log (scaler s)) as [|[t1 m1] rest].
  - rewrite (Hfirst eq_refl) in Hcool. unfold Float64.sub in Hcool.
    assert (E : (now s - 0 == now s)%Q) by ring.
    rewrite (round_eq _ _ E) in Hcool. unfold is_float in Hf. lra.
  - rewrite Hlast in Hcool. apply Forall_inv in Ht as (Ft & Hle & Hc).
    cbn [fst] in *.
    destruct (Qlt_le_dec 0 c) as [Hpos|Hneg]; [|lra].
    specialize (Hc Hpos).
    destruct (Qlt_le_dec (now s - t1) c) as [Hlt|Hge]; [exfalso|exact Hge].
    rewrite sub_exact in Hcool; try assumption; lra.
Qed.

Lemma stamped_log_control_pass (s : Sim) (a : AutoScaler.t)
    (m : CloudSystemModel.t) (c : CtlPc) (p : SamplerPc) :
  cooled s -> stamped_log s -> is_float (now s) -> ctl_due_float c ->
  AutoScaler.control_pass (scaler s) (now s) (model s) = Some (a, m) ->
  stamped_log (set_scaler s m a c p).
Proof.
  intros Hc Hs Hf Hctl H.
  pose proof (cooldown_exact s Hc Hs Hf) as Hex.
  destruct Hc as [_ Hlast]. destruct Hs as [_ Ht Hfirst Hg].
  apply control_pass_inv in H
    as (a0 & x & a1 & (E1 & E2 & E3 & _) & Hd & (F1 & F2 & F3 & _)).
  apply decide_scaling in Hd
    as (Ecfg & [(Elog & Elast & _)|(msg & Elog & Elast & Hcool)]);
    constructor; cbn [set_scaler ctl scaler now];
    rewrite ?F1, ?F2, ?F3, ?Ecfg, ?Elog, ?Elast, ?E1, ?E2, ?E3;
    try assumption.
  - rewrite E1, E2 in Hcool. specialize (Hex Hcool).
    constructor; [|exact Ht].
    cbn [fst]. split; [exact Hf|]. split; [apply Qle_refl|].
    intro Hpos.
    destruct (AutoScaler.scale_log (scaler s)) as [|[t1 m1] rest];
      [exact Hex|].
    pose proof (Forall_inv Ht) as (_ & Hle & Hc1). cbn [fst] in *.
    specialize (Hc1 Hpos). lra.
  - discriminate.
  - rewrite E1, E2 in Hcool. specialize (Hex Hcool).
    simpl. destruct (AutoScaler.scale_log (scaler s)) as [|[t1 m1] rest];
      [exact I|]. split; [exact Hex|exact Hg].
Qed.

Lemma stamped_log_step (e : Event) (s s' : Sim) :
  cooled s -> stamped_log s -> step e s = Some s' -> stamped_log s'.
Proof.
  intros Hc Hs H.
  assert (Hsame : forall s1,
             ctl s1 = ctl s -> (now s <= now s1)%Q ->
             scaler s1 = scaler s \/ same_scaling (scaler s) (scaler s1) ->
             stamped_log s1).
  { intros s1 Ec Hn [E|(E1 & E2 & E3 & _)];
      apply (stamped_log_frame s); rewrite ?E; try assumption; reflexivity. }
  destruct e; simpl in H.
  - apply advance_step_inv in H as [Hle ->].
    apply Hsame; [reflexivity|exact Hle|now left].
  - apply gen_step_inv in H as (m & g & -> & _).
    apply Hsame; [reflexivity|apply Qle_refl|now left].
  - apply worker_get_step_inv in H
      as (request & rest & l1 & l2 & m1 & g1 & _ & _ & _ & Hout).
    destruct Hout as [(reason & top & lb & _ & _ & ->)|(node & lb & _ & ->)];
      (apply Hsame; [reflexivity|apply Qle_refl|now left]).
  - apply worker_wake_step_inv in H as (l1 & l2 & x & Hw & Hcases).
    destruct Hcases
      as [(due & top & -> & Htop & ->)
         |[(r & node & due & sq & busy & -> & Hbusy & ->)
          |(r & node & due & top & ws & sq & -> & _ & Htop & Hws & ->)]];
      (apply Hsame; [reflexivity|apply Qle_refl|now left]).
  - pose proof (control_step_due s s' H) as (Hctl & due & Hdue & Enow).
    assert (Hf : is_float (now s)).
    { destruct Hs as [Hs _ _ _]. unfold is_float.
      rewrite (round_eq _ _ Enow), Enow.
      destruct Hdue as [E|E]; rewrite E in Hs; exact Hs. }
    apply control_step_inv in H as (m & a & c & -> & [[-> Ha]|Hp]).
    + destruct Ha as (E1 & E2 & E3 & _). destruct Hs as [H1 H2 H3 H4].
      constructor; cbn [set_scaler ctl scaler now] in *;
        rewrite ?E1, ?E2, ?E3; assumption.
    + now apply stamped_log_control_pass.
  - apply sample_step_inv in H as (a & p & -> & Ha).
    apply Hsame; [reflexivity|apply Qle_refl|now right].
  - some_inv H. apply Hsame; [reflexivity|apply Qle_refl|].
    right. repeat split.
  - some_inv H. apply Hsame; [reflexivity|apply Qle_refl|].
    right. repeat split.
  - some_inv H. apply Hsame; [reflexivity|apply Qle_refl|].
    right. repeat split.
Qed.

Lemma stamped_log_start (mc : CloudSystemModel.Config) (n : Z)
    (sc : AutoScaler.Config) (ia : Q) (s0 : Sim) :
  start mc n sc ia = Some s0 -> stamped_log s0.
Proof.
  intro H.
  pose proof (start_inv _ _ _ _ _ H)
    as (_ & _ & _ & _ & _ & _ & _ & _ & _ & Es).
  assert (Hctl : ctl_due_float (ctl s0)).
  { unfold start in H.
    destruct (CloudSystemModel.init mc n) as [e|m0]; [discriminate|].
    destruct (gen_loop_top _ _ _) as [g|]; [|discriminate].
    destruct (ctl_loop_top _ _) as [c|] eqn:Et; [|discriminate].
    some_inv H. simpl. eapply ctl_loop_top_float; eassumption. }
  constructor; rewrite ?Es; simpl; auto.
Qed.

Lemma reachable_stamped_log (s : Sim) :
  reachable s -> cooled s /\ stamped_log s.
Proof.
  revert s. apply (reachable_invariant (fun s => cooled s /\ stamped_log s)).
  - intros mc n sc ia s0 H. split;
      [eapply cooled_start|eapply stamped_log_start]; eassumption.
  - intros e s0 s' [Hc Hs] H. split;
      [eapply cooled_step|eapply stamped_log_step]; eassumption.
Qed.

Lemma filter_removelast_length {A : Type} (f : A -> bool) (l : list A) :
  (length (filter f (removelast l)) <= length (filter f l)
   <= S (length (filter f (removelast l))))%nat.
Proof.
  destruct l as [|x l] using rev_ind; [simpl; lia|].
  rewrite removelast_last, filter_app, length_app. simpl.
  destruct (f x); simpl; lia.
Qed.

Lemma remove_node_active (m : CloudSystemModel.t) :
  AutoScaler.current_nodes m - 1
  <= AutoScaler.current_nodes (snd (CloudSystemModel.remove_node m))
  <= AutoScaler.current_nodes m.
Proof.
  unfold AutoScaler.current_nodes, CloudSystemModel.get_active_nodes,
    CloudSystemModel.remove_node.
  destruct (0 <? _); simpl; [|lia].
  pose proof (filter_removelast_length StorageNode.is_active
                (CloudSystemModel.nodes m)).
  lia.
Qed.

Lemma add_node_active (m m' : CloudSystemModel.t) (n : StorageNode.t) :
  CloudSystemModel.add_node m = Some (n, m') ->
  AutoScaler.current_nodes m' = AutoScaler.current_nodes m + 1.
Proof.
  intro H. apply add_node_nodes in H as [Hn Ha].
  unfold AutoScaler.current_nodes, CloudSystemModel.get_active_nodes.
  rewrite Hn, filter_app, length_app. simpl. rewrite Ha. simpl. lia.
Qed.

(** One decision moves the active node count by at most one and keeps it
    within the bounds. *)
Lemma decide_bounded (a : AutoScaler.t) (t : Q) (m : CloudSystemModel.t)
    (x : AutoScaler.Metrics) (a' : AutoScaler.t) (m' : CloudSystemModel.t) :
  AutoScaler.decide a t m x = Some (a', m') ->
  Z.abs (AutoScaler.current_nodes m' - AutoScaler.current_nodes m) <= 1
  /\ (AutoScaler.min_nodes (AutoScaler.cfg a) <= AutoScaler.current_nodes m
      <= AutoScaler.max_nodes (AutoScaler.cfg a) ->
      AutoScaler.min_nodes (AutoScaler.cfg a) <= AutoScaler.current_nodes m'
      <= AutoScaler.max_nodes (AutoScaler.cfg a)).
Proof.
  intro H. apply decide_cases in H.
  destruct H as [(Hup & [n Hadd] & _)
                |[(_ & _ & _ & Hmin & -> & _)|(_ & -> & _)]].
  - apply add_node_active in Hadd.
    unfold AutoScaler.should_scale_up in Hup.
    apply andb_true_iff in Hup as [Hup _].
    apply andb_true_iff in Hup as [_ Hup]. apply Z.ltb_lt in Hup. lia.
  - pose proof (remove_node_active m). lia.
  - lia.
Qed.

(** What a step does to the pool and to the scaling state. *)
Lemma step_scaling (e : Event) (s s' : Sim) :
  step e s = Some s' ->
  AutoScaler.cfg (scaler s') = AutoScaler.cfg (scaler s)
  /\ ((CloudSystemModel.nodes (model s') = CloudSystemModel.nodes (model s)
       /\ AutoScaler.scale_log (scaler s') = AutoScaler.scale_log (scaler s)
       /\ AutoScaler.last_scale_time (scaler s')
          = AutoScaler.last_scale_time (scaler s))
      \/ (e = EControl
          /\ exists a0 x a1,
               same_scaling (scaler s) a0
               /\ AutoScaler.decide a0 (now s) (model s) x
                  = Some (a1, model s')
               /\ same_scaling a1 (scaler s'))).
Proof.
  intro H. destruct e; simpl in H.
  - apply advance_step_inv in H as [_ ->]. simpl. split; [|left]; repeat split.
  - apply gen_step_inv in H as (m & g & -> & _ & [[-> _]|(pc & Hg & _)]);
      simpl; (split; [reflexivity|left]); repeat split.
    apply generate_request_cases in Hg
      as [(_ & _ & ->)|[(_ & _ & ->)|(_ & _ & -> & _)]]; reflexivity.
  - apply worker_get_step_inv in H
      as (request & rest & l1 & l2 & m1 & g1 & _ & _ & Hput & Hout).
    destruct Hput as [[-> _]|(r2 & _ & -> & _)];
      destruct Hout as [(reason & top & lb & _ & _ & ->)|(node & lb & _ & ->)];
      simpl; (split; [reflexivity|left]); repeat split.
  - apply worker_wake_step_inv in H as (l1 & l2 & x & Hw & Hcases).
    destruct Hcases
      as [(due & top & -> & Htop & ->)
         |[(r & node & due & sq & busy & -> & Hbusy & ->)
          |(r & node & due & top & ws & sq & -> & _ & Htop & Hws & ->)]];
      simpl; (split; [reflexivity|left]); repeat split.
  - apply control_step_inv in H as (m & a & c & -> & [[-> Ha]|Hp]); simpl.
    + destruct Ha as (E1 & E2 & E3 & _). split; [exact E1|left].
      repeat split; assumption.
    + apply control_pass_inv in Hp as (a0 & x & a1 & Ha0 & Hd & Ha1).
      split.
      * apply decide_scaling in Hd as [Ecfg _].
        destruct Ha0 as (E1 & _), Ha1 as (F1 & _). congruence.
      * right. split; [reflexivity|]. exists a0, x, a1. repeat split;
          try assumption; try apply Ha0; apply Ha1.
  - apply sample_step_inv in H as (a & p & -> & (E1 & E2 & E3 & _)). simpl.
    split; [exact E1|left]. repeat split; assumption.
  - some_inv H. simpl. split; [|left]; repeat split.
  - some_inv H. simpl. split; [|left]; repeat split.
  - some_inv H. simpl. split; [|left]; repeat split.
Qed.

Lemma bounded_step (e : Event) (s s' : Sim) :
  step e s = Some s' ->
  Z.abs (AutoScaler.current_nodes (model s')
         - AutoScaler.current_nodes (model s)) <= 1
  /\ (bounded s -> bounded s').
Proof.
  intro H. apply step_scaling in H as [Ecfg [(En & _)|(_ & a0 & x & a1 & Ha0 & Hd & _)]];
    unfold bounded, AutoScaler.current_nodes, CloudSystemModel.get_active_nodes
      in *; rewrite Ecfg.
  - rewrite En. split; [lia|auto].
  - apply decide_bounded in Hd as [Habs Hb]. destruct Ha0 as (E & _).
    rewrite E in Hb.
    unfold AutoScaler.current_nodes, CloudSystemModel.get_active_nodes in *.
    split; assumption.
Qed.

Lemma run_reachable_from (es : list Event) (s0 s : Sim) :
  run es s0 = Some s -> reachable_from s0 s.
Proof.
  assert (G : forall s1, reachable_from s0 s1 -> run es s1 = Some s ->
                         reachable_from s0 s).
  { induction es as [|e es IH]; intros s1 Hr H; simpl in H.
    - some_inv H. exact Hr.
    - destruct (step e s1) as [s2|] eqn:E; [|discriminate].
      eapply IH; [|exact H]. econstructor; eassumption. }
  apply G. constructor.
Defined.

Lemma run_from_reachable (mc : CloudSystemModel.Config) (n : Z)
    (sc : AutoScaler.Config) (ia : Q) (es : list Event) (s : Sim) :
  run_from mc n sc ia es = Some s -> reachable s.
Proof.
  unfold run_from. destruct (start mc n sc ia) as [s0|] eqn:E; [|discriminate].
  intro H. exists mc, n, sc, ia, s0. split; [exact E|].
  eapply run_reachable_from. exact H.
Defined.

(** ** Properties of whole runs *)

Lemma idcount_In (r : Request.t) (l : list Request.t) :
  In r l -> (1 <= idcount l (Request.request_id r))%nat.
Proof.
  intro H. unfold idcount.
  apply (count_occ_In Z.eq_dec). now apply in_map.
Qed.

(** C1, as the code has it.  In every state of a run the processed and
    the rejected collections share no request, a processed request is
    not marked rejected and has its finish time, a rejected request is
    marked and has neither start nor finish time, and every request
    created so far is at exactly one place: processed, rejected, in the
    queue, or in flight (held by a worker or by the generator).  The
    four sizes sum to the number of requests created; the requests that
    are queued or in flight when the run stops are in neither terminal
    collection. *)
Theorem requests_accounted :
  forall s : Sim,
    reachable s ->
    (forall r,
        In r (CloudSystemModel.processed_requests (model s)) ->
        In r (CloudSystemModel.rejected_requests (model s)) -> False)
    /\ NoDup (ids s)
    /\ Forall is_processed (CloudSystemModel.processed_requests (model s))
    /\ Forall is_rejected (CloudSystemModel.rejected_requests (model s))
    /\ Z.of_nat (length (CloudSystemModel.processed_requests (model s)))
       + Z.of_nat (length (CloudSystemModel.rejected_requests (model s)))
       + Z.of_nat (length (CloudSystemModel.queue_items (model s)))
       + Z.of_nat (length (in_flight s))
       = CloudSystemModel.next_request_id (model s)
    /\ (forall z,
           0 <= z < CloudSystemModel.next_request_id (model s) ->
           In z (ids s)).
Proof.
  intros s Hr. apply reachable_accounted in Hr.
  destruct Hr as [Hn Hc Hl HP HR HQ HG HW].
  split; [|split; [|split; [exact HP|split; [exact HR|split]]]].
  - intros r Hp Hrej. apply idcount_In in Hp, Hrej.
    specialize (Hc (Request.request_id r)).
    unfold all_requests in Hc. rewrite !idcount_app in Hc.
    destruct (in_range _ _); lia.
  - apply (NoDup_count_occ Z.eq_dec). intro z. specialize (Hc z).
    unfold ids. unfold idcount in Hc. rewrite Hc.
    destruct (in_range _ _); lia.
  - unfold all_requests in Hl. rewrite !length_app in Hl. lia.
  - intros z Hz. apply (count_occ_In Z.eq_dec). specialize (Hc z).
    unfold ids. unfold idcount in Hc. rewrite Hc.
    replace (in_range _ z) with true; [lia|].
    symmetry. unfold in_range. apply andb_true_iff.
    split; [apply Z.leb_le|apply Z.ltb_lt]; lia.
Qed.

Lemma requests_accounted_witness :
  exists s,
    run_from zero_delay_config 2 AutoScaler.default_config first_arrival
             completed_run = Some s
    /\ length (CloudSystemModel.processed_requests (model s)) = 1%nat
    /\ NoDup (ids s)
    /\ Z.of_nat (length (CloudSystemModel.processed_requests (model s)))
       + Z.of_nat (length (CloudSystemModel.rejected_requests (model s)))
       + Z.of_nat (length (CloudSystemModel.queue_items (model s)))
       + Z.of_nat (length (in_flight s))
       = CloudSystemModel.next_request_id (model s).
Proof.
  eexists. split; [vm_compute; reflexivity|].
  split; [reflexivity|].
  match goal with
  | |- NoDup (ids ?s) /\ _ =>
    pose proof (requests_accounted s
                  (run_from_reachable zero_delay_config 2
                     AutoScaler.default_config first_arrival completed_run s
                     eq_refl)) as H
  end.
  split; [apply H|apply H].
Defined.

(** A run stopped at time 1 while its only request is in service: one
    request was created, and both terminal collections are empty. *)
Lemma request_left_in_service :
  ~ (forall s : Sim,
        reachable s ->
        CloudSystemModel.is_running (model s) = false ->
        all_terminal s).
Proof.
  intro H.
  destruct (run_from zero_delay_config 2
              AutoScaler.default_config first_arrival interrupted_run)
    as [s|] eqn:E; [|vm_compute in E; discriminate].
  pose proof (H s (run_from_reachable _ _ _ _ _ _ E)) as Hs.
  vm_compute in E. some_inv E. specialize (Hs eq_refl).
  unfold all_terminal in Hs. simpl in Hs. discriminate.
Qed.



(** In floats the service need not last as long as the service time: a
    request that starts at 0.7 with a service time of 0.1 finishes at
    0.7999999999999999, and [finish_time - start_time] is
    0.09999999999999987. *)
Lemma service_shorter_than_service_time :
  exists s r st ft sv,
    run_from short_service_config 2 AutoScaler.default_config
             (Float64.round (7#10)) short_service_run = Some s
    /\ CloudSystemModel.processed_requests (model s) = [r]
    /\ Request.start_time r = Some st
    /\ Request.finish_time r = Some ft
    /\ Request.service_time r = Some sv
    /\ (Float64.sub ft st < sv)%Q.
Proof.
  destruct (run_from short_service_config 2 AutoScaler.default_config
              (Float64.round (7#10)) short_service_run)
    as [s|] eqn:E; [|vm_compute in E; discriminate].
  vm_compute in E. some_inv E.
  eexists. eexists. eexists. eexists. eexists.
  split; [reflexivity|]. split; [reflexivity|].
  split; [reflexivity|]. split; [reflexivity|]. split; [reflexivity|].
  vm_compute. reflexivity.
Qed.


(** C10. With no in-flight cap, which is the default of the constructor
    and what its docstring calls no limit, the model is not constructed:
    [simpy.Store(env, capacity=None)] raises [TypeError], so there is no
    unbounded queue to put into. *)
Lemma no_cap_construction_raises :
  CloudSystemModel.max_requests_in_flight CloudSystemModel.default_config
  = None
  /\ CloudSystemModel.init CloudSystemModel.default_config 2 = inl TypeError.
Proof. split; reflexivity. Qed.



(** The test of the cooldown reads the configuration and the time of
    the last action only. *)
Lemma cooldown_ok_same (a a' : AutoScaler.t) (t : Q) :
  same_scaling a a' -> AutoScaler.cooldown_ok a' t = AutoScaler.cooldown_ok a t.
Proof.
  intros (E1 & E2 & _). unfold AutoScaler.cooldown_ok.
  now rewrite E1, E2.
Qed.

(** C4. In every state of a run, any two consecutive entries of the
    scale log are at least [scale_cooldown] apart, both by the float
    difference of their times, which is what the controller computes,
    and by their exact difference; the time of the newest entry is
    [last_scale_time].  A step of the run either leaves the pool, the
    log and [last_scale_time] as they are, or it is a pass of the
    controller that finds [now - last_scale_time >= scale_cooldown],
    adds a node with [add_node] or pops one with [remove_node], logs
    that action at the current time and sets [last_scale_time] to it:
    the pool changes in no other way. *)
Theorem scaling_respects_cooldown :
  forall s : Sim,
    reachable s ->
    (forall l1 e2 e1 l2,
        AutoScaler.scale_log (scaler s) = l1 ++ e2 :: e1 :: l2 ->
        (AutoScaler.scale_cooldown (AutoScaler.cfg (scaler s))
         <= Float64.sub (fst e2) (fst e1))%Q
        /\ (AutoScaler.scale_cooldown (AutoScaler.cfg (scaler s))
            <= fst e2 - fst e1)%Q)
    /\ (forall t msg rest,
           AutoScaler.scale_log (scaler s) = (t, msg) :: rest ->
           AutoScaler.last_scale_time (scaler s) = t)
    /\ (forall e s',
           step e s = Some s' ->
           (CloudSystemModel.nodes (model s')
            = CloudSystemModel.nodes (model s)
            /\ AutoScaler.scale_log (scaler s')
               = AutoScaler.scale_log (scaler s)
            /\ AutoScaler.last_scale_time (scaler s')
               = AutoScaler.last_scale_time (scaler s))
           \/ (e = EControl
               /\ AutoScaler.cooldown_ok (scaler s) (now s) = true
               /\ (AutoScaler.scale_cooldown (AutoScaler.cfg (scaler s))
                   <= Float64.sub (now s)
                        (AutoScaler.last_scale_time (scaler s)))%Q
               /\ (AutoScaler.scale_cooldown (AutoScaler.cfg (scaler s))
                   <= now s - AutoScaler.last_scale_time (scaler s))%Q
               /\ ((exists n,
                       CloudSystemModel.add_node (model s)
                       = Some (n, model s'))
                   \/ model s' = snd (CloudSystemModel.remove_node (model s)))
               /\ (exists msg,
                      AutoScaler.scale_log (scaler s')
                      = (now s, msg) :: AutoScaler.scale_log (scaler s))
               /\ AutoScaler.last_scale_time (scaler s') = now s)).
Proof.
  intros s Hr. apply reachable_stamped_log in Hr.
  destruct Hr as [Hcooled Hstamped].
  pose proof Hcooled as [Hgaps Hlast].
  pose proof Hstamped as [Hctl _ Hfirst Hexact].
  split; [|split].
  - intros l1 e2 e1 l2 E. split.
    + eapply gaps_ok_pairs; eassumption.
    + eapply gaps_exact_pairs; eassumption.
  - intros t msg rest E. rewrite E in Hlast. exact Hlast.
  - intros e s' H.
    pose proof H as Hstep.
    apply step_scaling in H
      as [_ [(E0 & E1 & E2)|(-> & a0 & x & a1 & Ha0 & Hd & Ha1)]];
      [left; repeat split; assumption|].
    pose proof (cooldown_ok_same _ _ (now s) Ha0) as Hsame.
    destruct Ha0 as (A1 & A2 & A3 & _). destruct Ha1 as (B1 & B2 & B3 & _).
    assert (Hf : is_float (now s)).
    { simpl in Hstep.
      apply control_step_due in Hstep as (_ & due & Hdue & Enow).
      unfold is_float. rewrite (round_eq _ _ Enow), Enow.
      destruct Hdue as [E|E]; rewrite E in Hctl; exact Hctl. }
    assert (Hcool : AutoScaler.cooldown_ok a0 (now s) = true ->
              AutoScaler.cooldown_ok (scaler s) (now s) = true
              /\ (AutoScaler.scale_cooldown (AutoScaler.cfg (scaler s))
                  <= Float64.sub (now s)
                       (AutoScaler.last_scale_time (scaler s)))%Q
              /\ (AutoScaler.scale_cooldown (AutoScaler.cfg (scaler s))
                  <= now s - AutoScaler.last_scale_time (scaler s))%Q).
    { intro Hc. rewrite Hsame in Hc. split; [exact Hc|].
      unfold AutoScaler.cooldown_ok in Hc. apply Qle_bool_iff in Hc.
      split; [exact Hc|].
      pose proof (cooldown_exact s Hcooled Hstamped Hf Hc) as Hex.
      destruct (AutoScaler.scale_log (scaler s)) as [|[t1 m1] rest].
      - rewrite (Hfirst eq_refl). lra.
      - rewrite Hlast. exact Hex. }
    apply decide_cases in Hd.
    destruct Hd as [(Hup & Hadd & ->)
                   |[(_ & Hlow & _ & _ & Hm & ->)|(_ & Hm & -> & _)]].
    + right. split; [reflexivity|].
      unfold AutoScaler.should_scale_up in Hup.
      apply andb_true_iff in Hup as [_ Hup].
      destruct (Hcool Hup) as (H1 & H2 & H3).
      split; [exact H1|]. split; [exact H2|]. split; [exact H3|].
      split; [left; exact Hadd|].
      split; [eexists; rewrite B3, <- A3; reflexivity|].
      rewrite B2. reflexivity.
    + right. split; [reflexivity|].
      unfold AutoScaler.low_condition in Hlow.
      apply andb_true_iff in Hlow as [_ Hlow].
      destruct (Hcool Hlow) as (H1 & H2 & H3).
      split; [exact H1|]. split; [exact H2|]. split; [exact H3|].
      split; [right; exact Hm|].
      split; [eexists; rewrite B3, <- A3; reflexivity|].
      rewrite B2. reflexivity.
    + left. rewrite Hm, B2, B3. simpl. repeat split; assumption.
Qed.

Lemma scaling_respects_cooldown_witness :
  exists s e2 e1,
    run_from preset_config 2 eager_config 100 (sampled 1 4) = Some s
    /\ AutoScaler.scale_log (scaler s) = [e2; e1]
    /\ (AutoScaler.scale_cooldown (AutoScaler.cfg (scaler s))
        <= Float64.sub (fst e2) (fst e1))%Q
    /\ (AutoScaler.scale_cooldown (AutoScaler.cfg (scaler s))
        <= fst e2 - fst e1)%Q.
Proof.
  destruct (run_from preset_config 2 eager_config 100 (sampled 1 4))
    as [s|] eqn:E; [|vm_compute in E; discriminate].
  pose proof (scaling_respects_cooldown s
                (run_from_reachable _ _ _ _ _ _ E)) as (H & _).
  vm_compute in E. inversion E; subst; clear E.
  eexists. eexists. eexists. split; [reflexivity|].
  split; [reflexivity|].
  exact (H [] _ _ [] eq_refl).
Defined.

(** C5. From a state whose active node count lies within
    [[min_nodes, max_nodes]], every state of the run has its count
    within the bounds; every step changes the count by at most one;
    [scale_up] does nothing when the count is not below [max_nodes], and
    [scale_down] nothing when it is not above [min_nodes]. *)
Theorem node_count_within_bounds :
  forall s0 s : Sim,
    bounded s0 ->
    reachable_from s0 s ->
    bounded s
    /\ (forall e s',
           step e s = Some s' ->
           bounded s'
           /\ Z.abs (AutoScaler.current_nodes (model s')
                     - AutoScaler.current_nodes (model s)) <= 1)
    /\ (forall (a : AutoScaler.t) (t : Q) (m : CloudSystemModel.t),
           AutoScaler.max_nodes (AutoScaler.cfg a)
           <= AutoScaler.current_nodes m ->
           AutoScaler.scale_up a t m = Some (false, a, m))
    /\ (forall (a : AutoScaler.t) (t : Q) (m : CloudSystemModel.t),
           AutoScaler.current_nodes m
           <= AutoScaler.min_nodes (AutoScaler.cfg a) ->
           AutoScaler.scale_down a t m = (false, a, m)).
Proof.
  intros s0 s Hb Hr.
  assert (Hs : bounded s).
  { induction Hr as [|s e s' _ IH Hstep]; [exact Hb|].
    apply bounded_step in Hstep as [_ Hk]. auto. }
  split; [exact Hs|]. split; [|split].
  - intros e s' Hstep. apply bounded_step in Hstep as [Habs Hk]. auto.
  - intros a t m Hmax. unfold AutoScaler.scale_up.
    replace (_ <? _) with false; [reflexivity|].
    symmetry. apply Z.ltb_ge. exact Hmax.
  - intros a t m Hmin. unfold AutoScaler.scale_down.
    replace (_ <? _) with false; [reflexivity|].
    symmetry. apply Z.ltb_ge. exact Hmin.
Qed.

Lemma node_count_within_bounds_witness :
  exists s0 s,
    start preset_config 2 eager_config 100 = Some s0
    /\ run (sampled 1 4) s0 = Some s
    /\ bounded s0
    /\ AutoScaler.current_nodes (model s) = 4
    /\ bounded s.
Proof.
  destruct (start preset_config 2 eager_config 100) as [s0|] eqn:E0;
    [|vm_compute in E0; discriminate].
  destruct (run (sampled 1 4) s0) as [s|] eqn:E;
    [|vm_compute in E0; inversion E0; subst; vm_compute in E; discriminate].
  assert (Hb : bounded s0).
  { clear E. vm_compute in E0. inversion E0; subst.
    vm_compute. split; discriminate. }
  pose proof (node_count_within_bounds s0 s Hb (run_reachable_from _ _ _ E))
    as (H & _).
  exists s0, s. split; [reflexivity|]. split; [exact E|].
  split; [exact Hb|]. split; [|exact H].
  clear H Hb. vm_compute in E0. inversion E0; subst.
  vm_compute in E. inversion E; subst. reflexivity.
Defined.


Lemma should_scale_down_not_idempotent_witness :
  AutoScaler.low_condition (AutoScaler.init AutoScaler.default_config) 10
    three_nodes idle_metrics = true
  /\ fst (AutoScaler.should_scale_down
            (AutoScaler.init AutoScaler.default_config) 10 three_nodes
            idle_metrics) = false
  /\ fst (AutoScaler.should_scale_down
            (snd (AutoScaler.should_scale_down
                    (AutoScaler.init AutoScaler.default_config) 10
                    three_nodes idle_metrics))
            10 three_nodes idle_metrics) = true.
Proof.
  pose proof (should_scale_down_not_idempotent
                (AutoScaler.init AutoScaler.default_config) 10 three_nodes
                idle_metrics eq_refl eq_refl eq_refl) as H.
  destruct H as (Ha & Hb & _).
  split; [reflexivity|]. split; [exact Ha|exact Hb].
Defined.

Lemma scale_down_needs_two_intervals_witness :
  match AutoScaler.decide (AutoScaler.init AutoScaler.default_config) 10
          three_nodes idle_metrics with
  | Some (a1, m1) =>
    match AutoScaler.decide a1 15 m1 loaded_metrics with
    | Some (a2, m2) =>
      AutoScaler.low_condition (AutoScaler.init AutoScaler.default_config)
        10 three_nodes idle_metrics = true
      /\ AutoScaler.low_condition a1 15 m1 loaded_metrics = false
      /\ ~ removed_node three_nodes m1
      /\ ~ removed_node m1 m2
      /\ AutoScaler.consecutive_low_intervals a2 = 0
    | None => False
    end
  | None => False
  end.
Proof.
  destruct (AutoScaler.decide (AutoScaler.init AutoScaler.default_config) 10
              three_nodes idle_metrics) as [[a1 m1]|] eqn:E1;
    [|vm_compute in E1; discriminate].
  destruct (AutoScaler.decide a1 15 m1 loaded_metrics) as [[a2 m2]|] eqn:E2.
  - destruct (scale_down_needs_two_intervals
                (AutoScaler.init AutoScaler.default_config) a1 a2 10 15
                three_nodes m1 m1 m2 idle_metrics loaded_metrics
                eq_refl eq_refl E1 E2) as ((H1 & _) & _ & H3).
    assert (Hlow : AutoScaler.low_condition a1 15 m1 loaded_metrics = false).
    { clear E2 H1 H3. vm_compute in E1. inversion E1; subst.
      vm_compute. reflexivity. }
    split; [vm_compute; reflexivity|]. split; [exact Hlow|].
    split; [exact H1|]. exact (H3 Hlow).
  - vm_compute in E1. inversion E1; subst. vm_compute in E2. discriminate.
Defined.

(** ** Further properties: the load balancer *)

Lemma select_node_at (nodes l1 l2 : list StorageNode.t) (x : StorageNode.t) :
  filter StorageNode.is_active nodes = l1 ++ x :: l2 ->
  LoadBalancer.select_node (LoadBalancer.mk (Z.of_nat (length l1))) nodes
  = (Some x,
     LoadBalancer.mk ((Z.of_nat (length l1) + 1)
                      mod Z.of_nat (length (l1 ++ x :: l2)))).
Proof.
  intros Hact. unfold LoadBalancer.select_node.
  destruct nodes as [|n0 ns]; [destruct l1; discriminate|].
  rewrite Hact.
  assert (Hm : forall (A : Type) (a b : A),
             match l1 ++ x :: l2 with [] => a | _ :: _ => b end = b)
    by (intros; destruct l1; reflexivity).
  rewrite Hm. clear Hm. cbn [LoadBalancer.current_index].
  assert (Hlen : Z.of_nat (length (l1 ++ x :: l2))
                 = Z.of_nat (length l1) + 1 + Z.of_nat (length l2)).
  { rewrite length_app. simpl. lia. }
  f_equal.
  rewrite Z.mod_small by lia. unfold py_index.
  replace ((0 <=? Z.of_nat (length l1))
           && (Z.of_nat (length l1) <? Z.of_nat (length (l1 ++ x :: l2))))
    with true
    by (symmetry; apply andb_true_iff; split;
        [apply Z.leb_le|apply Z.ltb_lt]; lia).
  rewrite Nat2Z.id, nth_error_app2 by lia.
  rewrite Nat.sub_diag. reflexivity.
Qed.

(** From the position after [l1], the calls walk through [l2]. *)
Lemma select_many_walk (nodes l2 l1 l3 : list StorageNode.t) :
  filter StorageNode.is_active nodes = l1 ++ l2 ++ l3 ->
  l2 ++ l3 <> [] ->
  select_many (LoadBalancer.mk (Z.of_nat (length l1))) nodes (length l2)
  = (map Some l2,
     LoadBalancer.mk (Z.of_nat (length l1 + length l2)
                      mod Z.of_nat (length (l1 ++ l2 ++ l3)))).
Proof.
  revert l1. induction l2 as [|x l2 IH]; intros l1 Hact Hne.
  - simpl. rewrite Nat.add_0_r, Z.mod_small; [reflexivity|].
    rewrite length_app. destruct l3; [contradiction|]. simpl. lia.
  - cbn [length select_many].
    rewrite (select_node_at nodes l1 (l2 ++ l3) x Hact).
    destruct l2 as [|y l2].
    + cbn [select_many length map app].
      replace (Z.of_nat (length l1 + 1)) with (Z.of_nat (length l1) + 1)
        by lia.
      reflexivity.
    + assert (Hstep : (Z.of_nat (length l1) + 1)
                      mod Z.of_nat (length (l1 ++ x :: (y :: l2) ++ l3))
                      = Z.of_nat (length (l1 ++ [x]))).
      { rewrite !length_app. simpl. rewrite Z.mod_small; lia. }
      rewrite Hstep, (IH (l1 ++ [x])).
      * rewrite <- app_assoc. cbn [app]. rewrite (length_app l1 [x]).
        cbn [length map].
        replace (length l1 + 1 + S (length l2))%nat
          with (length l1 + S (S (length l2)))%nat by lia.
        reflexivity.
      * rewrite <- app_assoc. exact Hact.
      * discriminate.
Qed.

Lemma select_many_app (lb : LoadBalancer.t) (nodes : list StorageNode.t)
    (j k : nat) :
  select_many lb nodes (j + k)
  = let '(r1, lb1) := select_many lb nodes j in
    let '(r2, lb2) := select_many lb1 nodes k in
    (r1 ++ r2, lb2).
Proof.
  revert lb. induction j as [|j IH]; intro lb; simpl.
  - destruct (select_many lb nodes k). reflexivity.
  - destruct (LoadBalancer.select_node lb nodes) as [r lb1].
    rewrite IH. destruct (select_many lb1 nodes j) as [r1 lb2].
    destruct (select_many lb2 nodes k) as [r2 lb3]. reflexivity.
Qed.

(** X1. On a fixed node list with [n] active nodes and a cursor [c] in
    range, [n] successive calls of [select_node] return the active
    nodes from position [c] to the end and then from the start to
    position [c]: every active node exactly once, no inactive node, and
    the cursor is back at [c]. *)
Theorem round_robin_cycle :
  forall (nodes : list StorageNode.t) (c : Z),
    let act := filter StorageNode.is_active nodes in
    0 <= c < Z.of_nat (length act) ->
    select_many (LoadBalancer.mk c) nodes (length act)
    = (map Some (skipn (Z.to_nat c) act ++ firstn (Z.to_nat c) act),
       LoadBalancer.mk c)
    /\ Permutation (fst (select_many (LoadBalancer.mk c) nodes (length act)))
                   (map Some act).
Proof.
  intros nodes c act Hc.
  set (k := Z.to_nat c).
  assert (Hk : (k < length act)%nat) by (subst k; lia).
  assert (Ec : c = Z.of_nat k) by (subst k; lia).
  assert (Hsplit : act = firstn k act ++ skipn k act)
    by (symmetry; apply firstn_skipn).
  assert (Hl1 : length (firstn k act) = k)
    by (rewrite length_firstn; lia).
  assert (Hl2 : length (skipn k act) = (length act - k)%nat)
    by apply length_skipn.
  assert (Hne : skipn k act <> []).
  { intro E. rewrite E in Hl2. simpl in Hl2. lia. }
  assert (Hrun : select_many (LoadBalancer.mk c) nodes (length act)
                 = (map Some (skipn k act ++ firstn k act),
                    LoadBalancer.mk c)).
  { pose proof (select_many_walk nodes (skipn k act) (firstn k act) []) as W1.
    rewrite !app_nil_r in W1. rewrite <- Hsplit in W1.
    specialize (W1 eq_refl Hne). rewrite Hl1, Hl2 in W1.
    replace (Z.of_nat (k + (length act - k))) with (Z.of_nat (length act))
      in W1 by lia.
    rewrite Z_mod_same_full in W1.
    pose proof (select_many_walk nodes (firstn k act) [] (skipn k act)) as W2.
    cbn [app length] in W2. rewrite <- Hsplit in W2.
    assert (Hne2 : firstn k act ++ skipn k act <> []).
    { intro E. apply app_eq_nil in E as [_ E]. contradiction. }
    rewrite <- Hsplit in Hne2.
    specialize (W2 eq_refl Hne2). rewrite Hl1 in W2.
    change (Z.of_nat 0) with 0 in W2.
    rewrite Nat.add_0_l, Z.mod_small in W2 by lia.
    replace (length act) with ((length act - k) + k)%nat at 1 by lia.
    rewrite select_many_app, Ec, W1, W2, map_app. reflexivity. }
  split; [exact Hrun|].
  rewrite Hrun. cbn [fst]. apply Permutation_map.
  rewrite Hsplit at 3. apply Permutation_app_comm.
Qed.

Lemma round_robin_cycle_witness :
  0 <= 1 < Z.of_nat (length (filter StorageNode.is_active mixed_pool))
  /\ fst (select_many (LoadBalancer.mk 1) mixed_pool 3)
     = [Some (StorageNode.mk 2 2 1 true); Some (StorageNode.mk 3 3 1 true);
        Some (StorageNode.mk 0 0 1 true)].
Proof.
  assert (H : 0 <= 1 < Z.of_nat (length (filter StorageNode.is_active
                                           mixed_pool)))
    by (simpl; lia).
  split; [exact H|].
  destruct (round_robin_cycle mixed_pool 1 H) as [E _].
  change (length (filter StorageNode.is_active mixed_pool)) with 3%nat in E.
  rewrite E. reflexivity.
Defined.

(** X2. Whatever the cursor, [select_node] either returns a node that is
    a member of the list it was given and is active, leaving the cursor
    within the size of the active subset, or returns none, which happens
    exactly when no node of the list is active, and then the cursor is
    untouched. *)
Theorem select_node_member :
  forall (lb : LoadBalancer.t) (nodes : list StorageNode.t),
    match LoadBalancer.select_node lb nodes with
    | (Some node, lb') =>
      In node nodes /\ StorageNode.is_active node = true
      /\ 0 <= LoadBalancer.current_index lb'
         < Z.of_nat (length (filter StorageNode.is_active nodes))
    | (None, lb') =>
      filter StorageNode.is_active nodes = [] /\ lb' = lb
    end.
Proof.
  intros lb nodes. unfold LoadBalancer.select_node.
  destruct nodes as [|x xs]; [split; reflexivity|].
  destruct (filter StorageNode.is_active (x :: xs)) as [|a l] eqn:E;
    [split; reflexivity|].
  set (n := Z.of_nat (length (a :: l))).
  assert (Hn : 0 < n) by (subst n; simpl; lia).
  pose proof (Z.mod_pos_bound (LoadBalancer.current_index lb) n Hn) as H1.
  pose proof (Z.mod_pos_bound (LoadBalancer.current_index lb + 1) n Hn) as H2.
  unfold py_index. fold n.
  replace ((0 <=? LoadBalancer.current_index lb mod n)
           && (LoadBalancer.current_index lb mod n <? n)) with true
    by (symmetry; apply andb_true_iff; split;
        [apply Z.leb_le|apply Z.ltb_lt]; lia).
  destruct (nth_error (a :: l) (Z.to_nat (LoadBalancer.current_index lb mod n)))
    as [node|] eqn:En.
  - apply nth_error_In in En. rewrite <- E in En.
    apply filter_In in En as [Hin Hact].
    cbn [LoadBalancer.current_index]. repeat split; try assumption; lia.
  - apply nth_error_None in En. subst n. lia.
Qed.

(** ** Further properties: the metrics collector *)

Lemma deque_append_last_n {A : Type} (n : nat) (l : list A) (x : A) :
  MetricsCollector.deque_append n (last_n n l) x = last_n n (l ++ [x]).
Proof.
  unfold MetricsCollector.deque_append, last_n.
  assert (Happ : skipn (length l - n) l ++ [x]
                 = skipn (length l - n) (l ++ [x])).
  { rewrite skipn_app.
    replace (length l - n - length l)%nat with 0%nat by lia. reflexivity. }
  rewrite Happ, skipn_skipn. f_equal.
  rewrite length_skipn, !length_app. simpl. lia.
Qed.

Lemma record_all_series (n : nat) (snaps done : list (Q * Z * Z * Q))
    (c : MetricsCollector.t) :
  MetricsCollector.max_history_size c = n ->
  MetricsCollector.time_series c
  = last_n n (map (fun s => fst (fst (fst s))) done) ->
  MetricsCollector.queue_length_series c
  = last_n n (map (fun s => snd (fst (fst s))) done) ->
  MetricsCollector.nodes_count_series c
  = last_n n (map (fun s => snd (fst s)) done) ->
  MetricsCollector.avg_response_time_series c
  = last_n n (map (fun s => snd s) done) ->
  let c' := record_all c snaps in
  MetricsCollector.time_series c'
  = last_n n (map (fun s => fst (fst (fst s))) (done ++ snaps))
  /\ MetricsCollector.queue_length_series c'
     = last_n n (map (fun s => snd (fst (fst s))) (done ++ snaps))
  /\ MetricsCollector.nodes_count_series c'
     = last_n n (map (fun s => snd (fst s)) (done ++ snaps))
  /\ MetricsCollector.avg_response_time_series c'
     = last_n n (map (fun s => snd s) (done ++ snaps)).
Proof.
  revert done c. induction snaps as [|[[[t q] k] rt] snaps IH];
    intros done c Hn H1 H2 H3 H4.
  - simpl. rewrite app_nil_r. repeat split; assumption.
  - cbn [record_all fold_left].
    replace (done ++ (t, q, k, rt) :: snaps)
      with ((done ++ [(t, q, k, rt)]) ++ snaps)
      by (rewrite <- app_assoc; reflexivity).
    apply (IH (done ++ [(t, q, k, rt)])
              (MetricsCollector.record_snapshot c t q k rt));
      unfold MetricsCollector.record_snapshot; simpl;
      rewrite ?Hn, ?H1, ?H2, ?H3, ?H4, ?map_app; simpl;
      try reflexivity; apply deque_append_last_n.
Qed.

(** X3. A collector created with history size [n] that has recorded a
    sequence of snapshots holds, in each of its four series, exactly the
    last [n] recorded values in order (the oldest are dropped); the four
    series therefore have the same length, which is the smaller of [n]
    and the number of snapshots. *)
Theorem record_snapshot_keeps_last :
  forall (n : nat) (snaps : list (Q * Z * Z * Q)),
    let c := record_all (MetricsCollector.new n) snaps in
    MetricsCollector.time_series c
    = last_n n (map (fun s => fst (fst (fst s))) snaps)
    /\ MetricsCollector.queue_length_series c
       = last_n n (map (fun s => snd (fst (fst s))) snaps)
    /\ MetricsCollector.nodes_count_series c
       = last_n n (map (fun s => snd (fst s)) snaps)
    /\ MetricsCollector.avg_response_time_series c
       = last_n n (map (fun s => snd s) snaps)
    /\ length (MetricsCollector.time_series c) = Nat.min n (length snaps)
    /\ length (MetricsCollector.queue_length_series c)
       = length (MetricsCollector.time_series c)
    /\ length (MetricsCollector.nodes_count_series c)
       = length (MetricsCollector.time_series c)
    /\ length (MetricsCollector.avg_response_time_series c)
       = length (MetricsCollector.time_series c).
Proof.
  intros n snaps c.
  destruct (record_all_series n snaps [] (MetricsCollector.new n))
    as (H1 & H2 & H3 & H4); try reflexivity.
  fold c in H1, H2, H3, H4. simpl in H1, H2, H3, H4.
  rewrite H1, H2, H3, H4. repeat split.
  all: unfold last_n; rewrite !length_skipn, !length_map; lia.
Qed.

Lemma last_In {A : Type} (l : list A) (d : A) : l <> [] -> In (last l d) l.
Proof.
  induction l as [|x [|y l] IH]; intro H; [contradiction|now left|].
  right. apply IH. discriminate.
Qed.

(** Over times that never go back and queue lengths that are not
    negative, the loop of the collector runs to its end and neither of
    its two sums is negative. *)
Lemma area_loop_nonneg (l : list (Q * Z)) (acc : Q * Q) :
  nondecreasing l -> nonneg_values l ->
  (0 <= fst acc)%Q -> (0 <= snd acc)%Q ->
  exists r,
    MetricsCollector.area_loop (map fst l) (map snd l) acc = Some r
    /\ (0 <= fst r)%Q /\ (0 <= snd r)%Q.
Proof.
  revert acc. induction l as [|[t1 q1] l IH]; intros acc Hn Hv Ha Ht.
  - exists acc. repeat split; assumption.
  - destruct l as [|[t2 q2] l].
    + exists acc. repeat split; assumption.
    + change (map fst ((t1, q1) :: (t2, q2) :: l))
        with (t1 :: t2 :: map fst l).
      change (map snd ((t1, q1) :: (t2, q2) :: l))
        with (q1 :: map snd ((t2, q2) :: l)).
      rewrite area_loop_cons.
      change (t2 :: map fst l) with (map fst ((t2, q2) :: l)).
      destruct Hn as [Hle Hn].
      pose proof (Forall_inv Hv) as Hq. cbv beta in Hq. simpl in Hq.
      apply Forall_inv_tail in Hv.
      pose proof (sub_nonneg t2 t1 Hle) as Hdt.
      apply IH; try assumption; cbn [fst snd].
      * apply add_nonneg; [exact Ha|].
        apply mul_nonneg; [now apply of_Z_nonneg|exact Hdt].
      * now apply add_nonneg.
Qed.

(** X4. For a collector whose snapshots have times that never go back
    and queue lengths that are not negative, [avg_queue_length] is
    computed without an index error and is not negative. *)
Theorem avg_queue_length_nonneg :
  forall series : list (Q * Z),
    nondecreasing series ->
    nonneg_values series ->
    exists v,
      MetricsCollector.avg_queue_length (collector_of series) = Some v
      /\ (0 <= v)%Q.
Proof.
  intros series Hn Hv.
  unfold MetricsCollector.avg_queue_length, collector_of.
  cbn [MetricsCollector.time_series MetricsCollector.queue_length_series].
  assert (Hq : Forall (fun x => 0 <= x) (map snd series)).
  { unfold nonneg_values in Hv. rewrite Forall_forall in Hv |- *.
    intros x Hx. apply in_map_iff in Hx as (p & <- & Hp). now apply Hv. }
  destruct (_ && _).
  - destruct (area_loop_nonneg series (0%Q, 0%Q) Hn Hv)
      as ([a tt] & -> & Ha & Ht); try apply Qle_refl.
    cbn [fst snd] in Ha, Ht.
    destruct (Qlt_bool 0 tt).
    + eexists. split; [reflexivity|]. now apply div_nonneg.
    + eexists. split; [reflexivity|].
      destruct (map snd series) as [|x l] eqn:E.
      * apply Qle_refl.
      * rewrite <- (Zle_Qle 0). rewrite Forall_forall in Hq.
        apply Hq. apply last_In. discriminate.
  - destruct (map snd series) as [|x l] eqn:E.
    + eexists. split; [reflexivity|apply Qle_refl].
    + eexists. split; [reflexivity|].
      apply div_nonneg.
      * rewrite <- (Zle_Qle 0). now apply (fold_add_nonneg (x :: l) 0).
      * unfold Qlen. rewrite <- (Zle_Qle 0). lia.
Qed.

Lemma avg_queue_length_nonneg_witness :
  nondecreasing busy_series
  /\ nonneg_values busy_series
  /\ exists v,
       MetricsCollector.avg_queue_length (collector_of busy_series) = Some v
       /\ (0 <= v)%Q.
Proof.
  assert (H2 : nondecreasing busy_series).
  { simpl. repeat split; discriminate. }
  assert (H3 : nonneg_values busy_series).
  { repeat constructor; simpl; lia. }
  split; [exact H2|]. split; [exact H3|].
  exact (avg_queue_length_nonneg busy_series H2 H3).
Defined.

(** ** Further properties: interval metrics of the controller *)

Lemma trapezoid_loop_nonneg (l : list (Q * Z)) (acc : Q * Q) :
  nonneg_values l ->
  (0 <= fst acc)%Q -> (0 <= snd acc)%Q ->
  (0 <= fst (AutoScaler.trapezoid_loop l acc))%Q
  /\ (0 <= snd (AutoScaler.trapezoid_loop l acc))%Q.
Proof.
  revert acc. induction l as [|[t1 q1] l IH]; intros acc Hv Ha Ht.
  - split; assumption.
  - destruct l as [|[t2 q2] l]; [split; assumption|].
    change (AutoScaler.trapezoid_loop ((t1, q1) :: (t2, q2) :: l) acc)
      with (AutoScaler.trapezoid_loop ((t2, q2) :: l)
              (if Qlt_bool 0 (Float64.sub t2 t1)
               then (Float64.add (fst acc)
                       (Float64.mul
                          (Float64.div (Float64.of_Z (q1 + q2)) 2)
                          (Float64.sub t2 t1)),
                     Float64.add (snd acc) (Float64.sub t2 t1))
               else acc)).
    pose proof (Forall_inv Hv) as Hq1. cbv beta in Hq1. simpl in Hq1.
    apply Forall_inv_tail in Hv.
    pose proof (Forall_inv Hv) as Hq2. cbv beta in Hq2. simpl in Hq2.
    destruct (Qlt_bool 0 (Float64.sub t2 t1)) eqn:E.
    + apply Qlt_bool_iff in E. apply IH; [exact Hv| |]; cbn [fst snd].
      * apply add_nonneg; [exact Ha|]. apply mul_nonneg; [|lra].
        apply div_nonneg; [apply of_Z_nonneg; lia|discriminate].
      * apply add_nonneg; [exact Ht|lra].
    + now apply IH.
Qed.

(** The interval average of the controller is not negative when no
    sampled queue length is, whatever the sample times are. *)
Lemma interval_avg_nonneg (samples : list (Q * Z))
    (current_queue_length : Z) :
  nonneg_values samples -> 0 <= current_queue_length ->
  (0 <= AutoScaler.interval_avg_queue_length samples
          current_queue_length)%Q.
Proof.
  intros Hv Hc. unfold AutoScaler.interval_avg_queue_length.
  assert (Hcur : (0 <= inject_Z current_queue_length)%Q)
    by (rewrite <- (Zle_Qle 0); exact Hc).
  destruct (1 <? length samples)%nat.
  - destruct (trapezoid_loop_nonneg samples (0%Q, 0%Q) Hv) as [H1 H2];
      try apply Qle_refl.
    destruct (AutoScaler.trapezoid_loop samples (0%Q, 0%Q)) as [a t].
    cbn [fst snd] in H1, H2.
    destruct (Qlt_bool 0 t); [|exact Hcur]. now apply div_nonneg.
  - destruct samples as [|p l]; [exact Hcur|].
    rewrite <- (Zle_Qle 0).
    unfold nonneg_values in Hv. rewrite Forall_forall in Hv.
    apply (Hv (last (p :: l) (0%Q, 0))). apply last_In. discriminate.
Qed.

(** ** Further properties: the aggregated metrics *)










(** ** Further properties: the terminal collections along a run *)

Lemma select_node_none (lb lb' : LoadBalancer.t) (nodes : list StorageNode.t) :
  LoadBalancer.select_node lb nodes = (None, lb') ->
  filter StorageNode.is_active nodes = [].
Proof.
  unfold LoadBalancer.select_node.
  destruct nodes as [|x xs]; [reflexivity|].
  destruct (filter StorageNode.is_active (x :: xs)) as [|a l] eqn:E;
    [reflexivity|].
  set (n := Z.of_nat (length (a :: l))).
  assert (Hn : 0 < n) by (subst n; simpl; lia).
  pose proof (Z.mod_pos_bound (LoadBalancer.current_index lb) n Hn) as H1.
  unfold py_index. fold n.
  replace ((0 <=? LoadBalancer.current_index lb mod n)
           && (LoadBalancer.current_index lb mod n <? n)) with true
    by (symmetry; apply andb_true_iff; split;
        [apply Z.leb_le|apply Z.ltb_lt]; lia).
  intro H. pose proof (f_equal fst H) as Hn0. cbn [fst] in Hn0.
  apply nth_error_None in Hn0. subst n. lia.
Qed.

Lemma filter_filter_same {A : Type} (f : A -> bool) (l : list A) :
  filter f (filter f l) = filter f l.
Proof.
  induction l as [|x l IH]; [reflexivity|]. simpl.
  destruct (f x) eqn:E; simpl; rewrite ?E, IH; reflexivity.
Qed.

Lemma worker_get_effect (w : nat) (d : Q) (s s' : Sim) :
  worker_get_step w d s = Some s' -> terminal_effect s s'.
Proof.
  unfold worker_get_step. intro H.
  destruct (nth_error (workers s) w) as [[| | | | |]|]; try discriminate.
  destruct (CloudSystemModel.queue_items (model s)) as [|request rest] eqn:Eq;
    [discriminate|].
  set (m0 := CloudSystemModel.set_queue_items (model s) rest) in *.
  assert (Hput : exists m1 g1,
    (match gen s with
     | GenBlockedPut r2 =>
       match store_put (CloudSystemModel.queue_capacity m0)
                       (CloudSystemModel.queue_items m0) r2 with
       | PutSucceeded items =>
         (CloudSystemModel.set_queue_items m0 items, GenPutDone)
       | _ => (m0, gen s)
       end
     | g => (m0, g)
     end) = (m1, g1)
    /\ exists q, m1 = CloudSystemModel.set_queue_items (model s) q).
  { destruct (gen s) as [x|x|r2| |];
      try (eexists _, _; split; [reflexivity|eexists; reflexivity]).
    destruct (store_put _ _ r2);
      eexists _, _; (split; [reflexivity|eexists; reflexivity]). }
  destruct Hput as (m1 & g1 & Eput & q & ->). rewrite Eput in H.
  cbn [CloudSystemModel.cfg CloudSystemModel.set_queue_items] in H.
  destruct (CloudSystemModel.max_wait_time (CloudSystemModel.cfg (model s)))
    as [mw|] eqn:Emw.
  - destruct (Request.queue_entry_time request) as [qe|] eqn:Eqe.
    + destruct (Qlt_bool mw (Float64.sub (now s) qe)) eqn:Et.
      * some_inv H. unfold terminal_effect. simpl.
        split; [reflexivity|]. split; [apply Qle_refl|]. split; [lia|].
        split; [now left|right]. exists request, wait_timeout.
        split; [reflexivity|]. right; left.
        split; [reflexivity|]. split; [rewrite Eq; now left|].
        exists mw, qe. repeat split; try assumption.
        now apply Qlt_bool_iff.
      * destruct (LoadBalancer.select_node _ _) as [[node|] lb] eqn:Es.
        -- destruct (_ && _); [|discriminate]. some_inv H.
           unfold terminal_effect. simpl.
           split; [reflexivity|]. split; [apply Qle_refl|]. split; [lia|].
           split; now left.
        -- some_inv H. apply select_node_none in Es.
           unfold terminal_effect. simpl.
           split; [reflexivity|]. split; [apply Qle_refl|]. split; [lia|].
           split; [now left|right]. exists request, no_nodes.
           split; [reflexivity|]. right; right.
           split; [reflexivity|]. split; [rewrite Eq; now left|].
        unfold CloudSystemModel.get_active_nodes in *.
        cbn [CloudSystemModel.nodes CloudSystemModel.set_queue_items] in Es.
        rewrite filter_filter_same in Es. exact Es.
    + destruct (LoadBalancer.select_node _ _) as [[node|] lb] eqn:Es.
      * destruct (_ && _); [|discriminate]. some_inv H.
        unfold terminal_effect. simpl.
        split; [reflexivity|]. split; [apply Qle_refl|]. split; [lia|].
        split; now left.
      * some_inv H. apply select_node_none in Es.
        unfold terminal_effect. simpl.
        split; [reflexivity|]. split; [apply Qle_refl|]. split; [lia|].
        split; [now left|right]. exists request, no_nodes.
        split; [reflexivity|]. right; right.
        split; [reflexivity|]. split; [rewrite Eq; now left|].
        unfold CloudSystemModel.get_active_nodes in *.
        cbn [CloudSystemModel.nodes CloudSystemModel.set_queue_items] in Es.
        rewrite filter_filter_same in Es. exact Es.
  - destruct (LoadBalancer.select_node _ _) as [[node|] lb] eqn:Es.
    + destruct (_ && _); [|discriminate]. some_inv H.
      unfold terminal_effect. simpl.
      split; [reflexivity|]. split; [apply Qle_refl|]. split; [lia|].
      split; now left.
    + some_inv H. apply select_node_none in Es.
      unfold terminal_effect. simpl.
      split; [reflexivity|]. split; [apply Qle_refl|]. split; [lia|].
      split; [now left|right]. exists request, no_nodes.
      split; [reflexivity|]. right; right.
      split; [reflexivity|]. split; [rewrite Eq; now left|].
        unfold CloudSystemModel.get_active_nodes in *.
        cbn [CloudSystemModel.nodes CloudSystemModel.set_queue_items] in Es.
        rewrite filter_filter_same in Es. exact Es.
Qed.

Lemma step_effect (e : Event) (s s' : Sim) :
  step e s = Some s' -> terminal_effect s s'.
Proof.
  intro H. pose proof (quiet_step_frame e s s' H) as Hq.
  destruct e; simpl in H;
    try (destruct Hq as ((E1 & _ & _ & E4 & E5 & E6) & _ & _ & Hle);
         unfold terminal_effect; rewrite E1, E4, E5, E6;
         split; [reflexivity|]; split; [exact Hle|]; split; [lia|];
         split; now left).
  - apply gen_step_inv in H as (m & g & -> & _ & [[-> _]|(pc & Hg & _)]).
    + unfold terminal_effect. simpl. split; [reflexivity|].
      split; [apply Qle_refl|]. split; [lia|]. split; now left.
    + apply generate_request_cases in Hg
        as [(Hover & _ & ->)|[(_ & _ & ->)|(_ & _ & -> & _)]];
        unfold terminal_effect; simpl;
        (split; [reflexivity|]); (split; [apply Qle_refl|]);
        (split; [lia|]); (split; [now left|]); try (now left).
      right. eexists _, queue_full. split; [reflexivity|]. left.
      repeat split. exact Hover.
  - eapply worker_get_effect. exact H.
  - apply worker_wake_step_inv in H as (l1 & l2 & x & Hw & Hcases).
    destruct Hcases
      as [(due & top & -> & Htop & ->)
         |[(r & node & due & sq & busy & -> & Hbusy & ->)
          |(r & node & due & top & ws & sq & -> & _ & Htop & Hws & ->)]];
      unfold terminal_effect; simpl;
      (split; [reflexivity|]); (split; [apply Qle_refl|]);
      (split; [lia|]); (split; [|now left]); try (now left).
    right. now exists r.
Qed.

Lemma is_prefix_trans {A : Type} (l1 l2 l3 : list A) :
  (exists x, l2 = l1 ++ x) -> (exists y, l3 = l2 ++ y) ->
  exists z, l3 = l1 ++ z.
Proof.
  intros [x ->] [y ->]. exists (x ++ y). now rewrite app_assoc.
Qed.

(** X7. Along a run the clock never goes back, the id counter never
    decreases, and the processed and the rejected collections only grow
    at their end: whatever was in them stays, in the same order. *)
Theorem terminal_collections_append_only :
  forall s0 s : Sim,
    reachable_from s0 s ->
    (now s0 <= now s)%Q
    /\ CloudSystemModel.next_request_id (model s0)
       <= CloudSystemModel.next_request_id (model s)
    /\ (exists added,
           CloudSystemModel.processed_requests (model s)
           = CloudSystemModel.processed_requests (model s0) ++ added)
    /\ (exists added,
           CloudSystemModel.rejected_requests (model s)
           = CloudSystemModel.rejected_requests (model s0) ++ added).
Proof.
  intros s0 s Hr. induction Hr as [|s e s' _ IH Hstep].
  - split; [apply Qle_refl|]. split; [lia|].
    split; exists []; now rewrite app_nil_r.
  - destruct IH as (I1 & I2 & I3 & I4).
    apply step_effect in Hstep as (_ & H1 & H2 & H3 & H4).
    split; [eapply Qle_trans; eassumption|]. split; [lia|]. split.
    + eapply is_prefix_trans; [exact I3|].
      destruct H3 as [->|[r ->]]; [exists []; now rewrite app_nil_r|].
      eexists; reflexivity.
    + eapply is_prefix_trans; [exact I4|].
      destruct H4 as [->|(r & reason & -> & _)];
        [exists []; now rewrite app_nil_r|].
      eexists; reflexivity.
Qed.

Lemma terminal_collections_append_only_witness :
  exists s0 s,
    start zero_delay_config 2 AutoScaler.default_config first_arrival = Some s0
    /\ run completed_run s0 = Some s
    /\ (now s0 <= now s)%Q
    /\ exists added,
         CloudSystemModel.processed_requests (model s)
         = CloudSystemModel.processed_requests (model s0) ++ added.
Proof.
  destruct (start zero_delay_config 2 AutoScaler.default_config first_arrival)
    as [s0|] eqn:E0; [|vm_compute in E0; discriminate].
  destruct (run completed_run s0) as [s|] eqn:E;
    [|vm_compute in E0; inversion E0; subst; vm_compute in E; discriminate].
  destruct (terminal_collections_append_only s0 s
              (run_reachable_from _ _ _ E)) as (H1 & _ & H3 & _).
  exists s0, s. split; [reflexivity|]. split; [exact E|].
  split; [exact H1|exact H3].
Defined.




Lemma no_active_nodes_count (m : CloudSystemModel.t) :
  CloudSystemModel.get_active_nodes m = [] -> AutoScaler.current_nodes m = 0.
Proof. unfold AutoScaler.current_nodes. intros ->. reflexivity. Qed.

(** X9. If the controller's [min_nodes] is at least 1 and the active
    node count starts within its bounds, no request of the run is ever
    rejected with reason [no_nodes]: the load balancer always finds an
    active node. *)
Theorem no_nodes_never_with_min_nodes :
  forall s0 s : Sim,
    bounded s0 ->
    1 <= AutoScaler.min_nodes (AutoScaler.cfg (scaler s0)) ->
    Forall not_no_nodes (CloudSystemModel.rejected_requests (model s0)) ->
    reachable_from s0 s ->
    Forall not_no_nodes (CloudSystemModel.rejected_requests (model s)).
Proof.
  intros s0 s Hb Hmin H0 Hr.
  assert (H : bounded s
              /\ AutoScaler.cfg (scaler s) = AutoScaler.cfg (scaler s0)
              /\ Forall not_no_nodes
                        (CloudSystemModel.rejected_requests (model s))).
  { induction Hr as [|s e s' _ IH Hstep];
      [split; [exact Hb|split; [reflexivity|exact H0]]|].
    destruct IH as (Ib & Ic & IR).
    pose proof (bounded_step e s s' Hstep) as [_ Hb'].
    pose proof (step_scaling e s s' Hstep) as [Ecfg _].
    split; [auto|]. split; [congruence|].
    apply step_effect in Hstep as (_ & _ & _ & _ & [->|(r & reason & -> & Hj)]);
      [exact IR|].
    apply Forall_app. split; [exact IR|]. constructor; [|constructor].
    unfold not_no_nodes. cbn [Request.rejected_reason Request.reject].
    destruct Hj as [(-> & _)|[(-> & _)|(-> & _ & Hnone)]];
      try discriminate.
    apply no_active_nodes_count in Hnone.
    unfold bounded in Ib. rewrite Ic in Ib. lia. }
  apply H.
Qed.

Lemma no_nodes_never_with_min_nodes_witness :
  exists s0 s,
    start zero_delay_config 2 AutoScaler.default_config first_arrival = Some s0
    /\ run completed_run s0 = Some s
    /\ bounded s0
    /\ 1 <= AutoScaler.min_nodes (AutoScaler.cfg (scaler s0))
    /\ Forall not_no_nodes (CloudSystemModel.rejected_requests (model s)).
Proof.
  destruct (start zero_delay_config 2 AutoScaler.default_config first_arrival)
    as [s0|] eqn:E0; [|vm_compute in E0; discriminate].
  destruct (run completed_run s0) as [s|] eqn:E;
    [|vm_compute in E0; inversion E0; subst; vm_compute in E; discriminate].
  assert (H : bounded s0
              /\ 1 <= AutoScaler.min_nodes (AutoScaler.cfg (scaler s0))
              /\ Forall not_no_nodes
                        (CloudSystemModel.rejected_requests (model s0))).
  { clear E. vm_compute in E0. inversion E0; subst.
    split; [vm_compute; split; discriminate|].
    split; [vm_compute; discriminate|constructor]. }
  destruct H as (Hb & Hmin & H0).
  exists s0, s. split; [reflexivity|]. split; [exact E|].
  split; [exact Hb|]. split; [exact Hmin|].
  exact (no_nodes_never_with_min_nodes s0 s Hb Hmin H0
           (run_reachable_from _ _ _ E)).
Defined.

(** ** Further properties: the bounded queue *)

Lemma same_middle_length {A : Type} (l1 l2 : list A) (x y : A) :
  length (l1 ++ y :: l2) = length (l1 ++ x :: l2).
Proof. rewrite !length_app. reflexivity. Qed.

Lemma capped_step (e : Event) (s s' : Sim) :
  capped s -> step e s = Some s' -> capped s'.
Proof.
  intros Hc H. pose proof (quiet_step_frame e s s' H) as Hq.
  destruct e; simpl in H;
    try (destruct Hq as ((E1 & _ & E3 & _) & _ & Ew & _);
         unfold capped; rewrite E1, E3, Ew; exact Hc).
  - apply gen_step_inv in H as (m & g & -> & _ & [[-> _]|(pc & Hg & _)]);
      [exact Hc|].
    apply generate_request_cases in Hg
      as [(_ & _ & ->)|[(Hover & _ & ->)|(_ & _ & -> & _)]];
      unfold capped; simpl; try exact Hc.
    intros c Ecap. destruct (Hc c Ecap) as (H1 & H2 & H3).
    split; [exact H1|]. split; [|exact H3].
    unfold over_cap in Hover. rewrite Ecap in Hover.
    apply Z.leb_gt in Hover.
    pose proof (in_processing_nonneg (workers s)
                  (CloudSystemModel.nodes (model s))).
    rewrite length_app. simpl. lia.
  - apply worker_get_step_inv in H
      as (request & rest & l1 & l2 & m1 & g1 & Hw & Hqueue & Hput & Hout).
    unfold capped in *. rewrite Hw, Hqueue in Hc.
    destruct Hput as [[-> ->]|(r2 & _ & -> & ->)];
      destruct Hout as [(reason & top & lb & _ & _ & ->)|(node & lb & _ & ->)];
      simpl; intros c Ecap; destruct (Hc c Ecap) as (H1 & H2 & H3);
      (split; [exact H1|]);
      (split; [|rewrite <- H3; apply same_middle_length]);
      rewrite ?length_app; simpl in *; lia.
  - apply worker_wake_step_inv in H as (l1 & l2 & x & Hw & Hcases).
    unfold capped in *. rewrite Hw in Hc.
    destruct Hcases
      as [(due & top & -> & Htop & ->)
         |[(r & node & due & sq & busy & -> & Hbusy & ->)
          |(r & node & due & top & ws & sq & -> & _ & Htop & Hws & ->)]];
      simpl; intros c Ecap; destruct (Hc c Ecap) as (H1 & H2 & H3);
      (split; [exact H1|]); (split; [exact H2|]); rewrite <- H3;
      try apply same_middle_length.
    destruct Hws as [->|(l3 & l4 & r2 & n2 & sv & Hsplit & _ & _ & ->)];
      [apply same_middle_length|].
    rewrite (same_middle_length l3 l4 (WWaitSlot r2 n2)), <- Hsplit.
    apply same_middle_length.
Qed.

Lemma capped_start (mc : CloudSystemModel.Config) (n : Z)
    (sc : AutoScaler.Config) (ia : Q) (s0 : Sim) :
  start mc n sc ia = Some s0 -> capped s0.
Proof.
  intro H. pose proof (start_inv _ _ _ _ _ H)
    as (_ & Ec & _ & Eq & _ & _ & _ & _ & Ew & _).
  unfold capped. rewrite Ec, Eq, Ew. intros c Ecap.
  assert (Hpos : 1 <= c).
  { unfold start, CloudSystemModel.init in H. rewrite Ecap in H.
    destruct (0 <? c * 10) eqn:E; [|discriminate].
    apply Z.ltb_lt in E. lia. }
  split; [exact Hpos|]. split; [simpl; lia|].
  rewrite repeat_length. unfold max_parallel_processors. now rewrite Ecap.
Qed.

Lemma held_length (ws : list Worker) :
  (length (flat_map held ws) <= length ws)%nat.
Proof.
  induction ws as [|w ws IH]; simpl; [lia|].
  rewrite length_app. destruct w; simpl; lia.
Qed.

(** X10. With an in-flight cap [c] configured, in every state of a run
    the queue holds at most [c] requests, exactly [c] worker processes
    exist, and so at most [c] requests are in the hands of workers: the
    number of requests in the system never exceeds [2 * c]. *)
Theorem queue_bounded_by_cap :
  forall (s : Sim) (c : Z),
    reachable s ->
    CloudSystemModel.max_requests_in_flight (CloudSystemModel.cfg (model s))
    = Some c ->
    1 <= c
    /\ Z.of_nat (length (CloudSystemModel.queue_items (model s))) <= c
    /\ length (workers s) = Z.to_nat c
    /\ Z.of_nat (length (flat_map held (workers s))) <= c
    /\ Z.of_nat (length (CloudSystemModel.queue_items (model s)))
       + Z.of_nat (length (in_flight s)) <= 2 * c.
Proof.
  intros s c Hr Ecap.
  assert (Hc : capped s).
  { revert s Hr Ecap. intros s Hr _. revert s Hr.
    apply reachable_invariant.
    - apply capped_start.
    - intros e. apply capped_step. }
  pose proof (reachable_put_never_waits s Hr) as [_ Hg _].
  apply gen_idle_held in Hg.
  destruct (Hc c Ecap) as (H1 & H2 & H3).
  pose proof (held_length (workers s)) as Hh.
  unfold in_flight. rewrite Hg. cbn [app].
  repeat split; try assumption; lia.
Qed.

Lemma queue_bounded_by_cap_witness :
  exists s,
    run_from zero_delay_config 2 AutoScaler.default_config first_arrival
             completed_run = Some s
    /\ CloudSystemModel.max_requests_in_flight
         (CloudSystemModel.cfg (model s)) = Some 100
    /\ Z.of_nat (length (CloudSystemModel.queue_items (model s))) <= 100
    /\ length (workers s) = 100%nat.
Proof.
  destruct (run_from zero_delay_config 2 AutoScaler.default_config first_arrival
              completed_run) as [s|] eqn:E; [|vm_compute in E; discriminate].
  assert (Ecap : CloudSystemModel.max_requests_in_flight
                   (CloudSystemModel.cfg (model s)) = Some 100).
  { vm_compute in E. inversion E; subst. reflexivity. }
  destruct (queue_bounded_by_cap s 100
              (run_from_reachable _ _ _ _ _ _ E) Ecap) as (_ & H2 & H3 & _).
  exists s. split; [reflexivity|]. split; [exact Ecap|].
  split; [exact H2|exact H3].
Defined.

(** ** Further properties: waiting time, the pool, the thresholds *)

(** X11. For every processed request of a run, [get_wait_time] and
    [get_response_time] are both defined, the waiting time is not
    negative, and the response time is at least the waiting time. *)
Theorem response_at_least_wait :
  forall (s : Sim) (r : Request.t),
    reachable s ->
    In r (CloudSystemModel.processed_requests (model s)) ->
    exists wt rt,
      Request.get_wait_time r = Some wt
      /\ Request.get_response_time r = Some rt
      /\ (0 <= wt)%Q
      /\ (wt <= rt)%Q.
Proof.
  intros s r Hr Hin. apply reachable_timed in Hr.
  destruct Hr as [_ _ _ _ HP]. rewrite Forall_forall in HP.
  destruct (HP r Hin) as (H1 & H2 & st & ft & sv & H3 & H4 & H5 & H6 & H7 & H8).
  exists (Float64.sub st (Request.arrival_time r)),
    (Float64.sub ft (Request.arrival_time r)).
  unfold Request.get_wait_time, Request.get_response_time.
  rewrite H1, H3, H4. split; [reflexivity|]. split; [reflexivity|].
  split; [apply round_nonneg; lra|apply round_mono; lra].
Qed.

Lemma response_at_least_wait_witness :
  exists s r,
    run_from zero_delay_config 2 AutoScaler.default_config first_arrival
             completed_run = Some s
    /\ CloudSystemModel.processed_requests (model s) = [r]
    /\ exists wt rt,
         Request.get_wait_time r = Some wt
         /\ Request.get_response_time r = Some rt
         /\ (0 <= wt)%Q
         /\ (wt <= rt)%Q.
Proof.
  destruct (run_from zero_delay_config 2 AutoScaler.default_config first_arrival
              completed_run) as [s|] eqn:E; [|vm_compute in E; discriminate].
  pose proof (fun r => response_at_least_wait s r
                         (run_from_reachable _ _ _ _ _ _ E)) as H.
  vm_compute in E. inversion E; subst; clear E.
  eexists. eexists. split; [reflexivity|]. split; [reflexivity|].
  apply H. left. reflexivity.
Defined.

Lemma pool_ok_add_node (m m' : CloudSystemModel.t) (n : StorageNode.t) :
  pool_ok m -> CloudSystemModel.add_node m = Some (n, m') -> pool_ok m'.
Proof.
  intros [Ha Hid] H. unfold CloudSystemModel.add_node, StorageNode.new in H.
  destruct (0 <? _); [|discriminate]. some_inv H.
  unfold pool_ok. cbn [CloudSystemModel.nodes]. split.
  - apply Forall_app. split; [exact Ha|]. repeat constructor.
  - rewrite map_app, length_app, seq_app, map_app, Hid. reflexivity.
Qed.

Lemma pool_ok_remove_node (m : CloudSystemModel.t) :
  pool_ok m -> pool_ok (snd (CloudSystemModel.remove_node m)).
Proof.
  intros [Ha Hid]. unfold CloudSystemModel.remove_node.
  destruct (0 <? _); [|split; assumption].
  unfold pool_ok. cbn [snd CloudSystemModel.nodes].
  destruct (CloudSystemModel.nodes m) as [|x l] using rev_ind;
    [split; assumption|].
  rewrite removelast_last. apply Forall_app in Ha as [Ha _].
  split; [exact Ha|].
  rewrite map_app, length_app, seq_app, map_app in Hid.
  apply app_inj_tail in Hid as [Hid _]. exact Hid.
Qed.

Lemma pool_ok_same_nodes (m m' : CloudSystemModel.t) :
  CloudSystemModel.nodes m' = CloudSystemModel.nodes m ->
  pool_ok m -> pool_ok m'.
Proof. unfold pool_ok. intros ->. auto. Qed.

Lemma pool_ok_step (e : Event) (s s' : Sim) :
  pool_ok (model s) -> step e s = Some s' -> pool_ok (model s').
Proof.
  intros Hp H.
  apply step_scaling in H as [_ [(En & _)|(_ & a0 & x & a1 & _ & Hd & _)]].
  - eapply pool_ok_same_nodes; eassumption.
  - apply decide_cases in Hd.
    destruct Hd as [(_ & [n Hadd] & _)|[(_ & _ & _ & _ & -> & _)|(_ & -> & _)]].
    + eapply pool_ok_add_node; eassumption.
    + now apply pool_ok_remove_node.
    + exact Hp.
Qed.

Lemma pool_ok_add_nodes (k : nat) (m m' : CloudSystemModel.t) :
  pool_ok m -> CloudSystemModel.add_nodes k m = Some m' -> pool_ok m'.
Proof.
  revert m. induction k as [|k IH]; intros m Hp H; simpl in H.
  - now some_inv H.
  - destruct (CloudSystemModel.add_node m) as [[n m1]|] eqn:E;
      [|discriminate].
    eapply IH; [|exact H]. eapply pool_ok_add_node; eassumption.
Qed.

Lemma pool_ok_start (mc : CloudSystemModel.Config) (n : Z)
    (sc : AutoScaler.Config) (ia : Q) (s0 : Sim) :
  start mc n sc ia = Some s0 -> pool_ok (model s0).
Proof.
  unfold start.
  destruct (CloudSystemModel.init mc n) as [e|m0] eqn:Ei; [discriminate|].
  destruct (gen_loop_top 0 _ ia) as [g|]; [|discriminate].
  destruct (ctl_loop_top 0 _) as [c|]; [|discriminate].
  intro H. some_inv H. cbn [model].
  apply (pool_ok_same_nodes m0); [reflexivity|].
  apply init_inv in Ei as (cap & _ & _ & Ei).
  eapply pool_ok_add_nodes; [|exact Ei].
  split; [constructor|reflexivity].
Qed.

Lemma filter_all_true {A : Type} (f : A -> bool) (l : list A) :
  Forall (fun x => f x = true) l -> filter f l = l.
Proof.
  induction l as [|x l IH]; intro H; [reflexivity|]. simpl.
  rewrite (Forall_inv H), IH; [reflexivity|]. now apply Forall_inv_tail in H.
Qed.

(** X12. In every state of a run every node of the pool is active and
    carries its position in the pool as its id, so [get_active_nodes]
    returns the whole pool and the state snapshot reports
    [active_nodes = total_nodes]; the snapshot never reports more
    processed and rejected requests than have been created. *)
Theorem pool_nodes_active_and_numbered :
  forall s : Sim,
    reachable s ->
    Forall (fun n => StorageNode.is_active n = true)
           (CloudSystemModel.nodes (model s))
    /\ map StorageNode.node_id (CloudSystemModel.nodes (model s))
       = map Z.of_nat (seq 0 (length (CloudSystemModel.nodes (model s))))
    /\ CloudSystemModel.get_active_nodes (model s)
       = CloudSystemModel.nodes (model s)
    /\ st_active_nodes (get_system_state (now s) (model s))
       = st_total_nodes (get_system_state (now s) (model s))
    /\ st_processed_count (get_system_state (now s) (model s))
       + st_rejected_count (get_system_state (now s) (model s))
       <= CloudSystemModel.next_request_id (model s).
Proof.
  intros s Hr.
  assert (Hp : pool_ok (model s)).
  { revert s Hr. apply reachable_invariant.
    - apply pool_ok_start.
    - intros e. apply pool_ok_step. }
  destruct Hp as [Ha Hid].
  pose proof (filter_all_true StorageNode.is_active _ Ha) as Hf.
  pose proof (reachable_accounted s Hr) as [_ _ Hl _ _ _ _ _].
  unfold all_requests in Hl. rewrite !length_app in Hl.
  split; [exact Ha|]. split; [exact Hid|]. split; [exact Hf|].
  unfold get_system_state. cbn [st_active_nodes st_total_nodes
    st_processed_count st_rejected_count].
  unfold CloudSystemModel.get_active_nodes in *. rewrite Hf.
  split; [reflexivity|lia].
Qed.

Lemma pool_nodes_active_and_numbered_witness :
  exists s,
    run_from preset_config 2 eager_config 100 (sampled 1 4) = Some s
    /\ map StorageNode.node_id (CloudSystemModel.nodes (model s))
       = [0; 1; 2; 3]
    /\ CloudSystemModel.get_active_nodes (model s)
       = CloudSystemModel.nodes (model s).
Proof.
  destruct (run_from preset_config 2 eager_config 100 (sampled 1 4))
    as [s|] eqn:E; [|vm_compute in E; discriminate].
  destruct (pool_nodes_active_and_numbered s
              (run_from_reachable _ _ _ _ _ _ E)) as (_ & _ & H & _).
  exists s. split; [reflexivity|]. split; [|exact H].
  vm_compute in E. inversion E; subst. reflexivity.
Defined.

Lemma up_excludes_low (a : AutoScaler.t) (t : Q) (m : CloudSystemModel.t)
    (x : AutoScaler.Metrics) :
  (AutoScaler.low_threshold (AutoScaler.cfg a)
   <= AutoScaler.high_threshold (AutoScaler.cfg a))%Q ->
  AutoScaler.low_condition a t m x = true ->
  AutoScaler.should_scale_up a t m x = false.
Proof.
  intros Hlh Hlow. unfold AutoScaler.low_condition in Hlow.
  apply andb_true_iff in Hlow as [Hlow _].
  apply andb_true_iff in Hlow as [Hlow _].
  apply andb_true_iff in Hlow as [Hq Hr].
  apply Qlt_bool_iff in Hq. apply Qlt_bool_iff in Hr.
  unfold AutoScaler.should_scale_up.
  destruct (Qlt_bool _ (AutoScaler.queue_length x)) eqn:E1.
  { apply Qlt_bool_iff in E1. lra. }
  destruct (Qlt_bool _ (AutoScaler.avg_response_time x)) eqn:E2.
  { apply Qlt_bool_iff in E2. lra. }
  reflexivity.
Qed.

Lemma removelast_shorter {A : Type} (l : list A) :
  l <> [] -> length l = S (length (removelast l)).
Proof.
  intro H. destruct (exists_last H) as (l' & x & ->).
  rewrite removelast_last, length_app. simpl. lia.
Qed.

(** X13. With [low_threshold <= high_threshold] the two tests of a
    controller pass exclude each other, so a pass whose metrics satisfy
    the scale-down test is never taken by the scale-up branch: it either
    adds one to the streak counter and leaves the pool, the time of the
    last scaling and the log alone (streak still short), or pops the
    last node, resets the counter and stamps [last_scale_time] (streak
    reached); with [min_nodes >= 0] the pool then shrinks by exactly
    one node. *)
Theorem low_pass_counts_or_scales_down :
  forall (a a' : AutoScaler.t) (t : Q) (m m' : CloudSystemModel.t)
         (x : AutoScaler.Metrics),
    (AutoScaler.low_threshold (AutoScaler.cfg a)
     <= AutoScaler.high_threshold (AutoScaler.cfg a))%Q ->
    AutoScaler.low_condition a t m x = true ->
    AutoScaler.decide a t m x = Some (a', m') ->
    AutoScaler.should_scale_up a t m x = false
    /\ ((AutoScaler.consecutive_low_intervals a + 1
         < AutoScaler.required_consecutive_low a
         /\ m' = m
         /\ AutoScaler.consecutive_low_intervals a'
            = AutoScaler.consecutive_low_intervals a + 1
         /\ AutoScaler.last_scale_time a' = AutoScaler.last_scale_time a
         /\ AutoScaler.scale_log a' = AutoScaler.scale_log a)
        \/ (AutoScaler.required_consecutive_low a
            <= AutoScaler.consecutive_low_intervals a + 1
            /\ CloudSystemModel.nodes m'
               = removelast (CloudSystemModel.nodes m)
            /\ (0 <= AutoScaler.min_nodes (AutoScaler.cfg a) ->
                length (CloudSystemModel.nodes m)
                = S (length (CloudSystemModel.nodes m')))
            /\ AutoScaler.consecutive_low_intervals a' = 0
            /\ AutoScaler.last_scale_time a' = t)).
Proof.
  intros a a' t m m' x Hlh Hlow Hd.
  pose proof (up_excludes_low a t m x Hlh Hlow) as Hup.
  split; [exact Hup|].
  apply decide_cases in Hd.
  destruct Hd as [(Hu & _)|[(_ & _ & Hreq & Hmin & -> & ->)
                           |(_ & -> & -> & Hshort)]].
  - congruence.
  - right. split; [exact Hreq|].
    assert (Hrm : CloudSystemModel.nodes
                    (snd (CloudSystemModel.remove_node m))
                  = removelast (CloudSystemModel.nodes m)).
    { unfold CloudSystemModel.remove_node.
      destruct (CloudSystemModel.nodes m) as [|n l] eqn:E.
      - simpl. exact E.
      - reflexivity. }
    split; [exact Hrm|]. split; [|split; reflexivity].
    intro H0. rewrite Hrm. apply removelast_shorter. intro E.
    unfold AutoScaler.current_nodes, CloudSystemModel.get_active_nodes
      in Hmin.
    rewrite E in Hmin. simpl in Hmin. lia.
  - left. rewrite Hlow in *. split; [now apply Hshort|].
    repeat split.
Qed.

Lemma low_pass_counts_or_scales_down_witness :
  exists a' m',
    AutoScaler.decide one_low_interval 10 three_nodes idle_metrics
    = Some (a', m')
    /\ length (CloudSystemModel.nodes m') = 2%nat
    /\ AutoScaler.consecutive_low_intervals a' = 0
    /\ AutoScaler.last_scale_time a' = 10%Q.
Proof.
  destruct (AutoScaler.decide one_low_interval 10 three_nodes idle_metrics)
    as [[a' m']|] eqn:E; [|vm_compute in E; discriminate].
  assert (Hlh : (AutoScaler.low_threshold (AutoScaler.cfg one_low_interval)
                 <= AutoScaler.high_threshold
                      (AutoScaler.cfg one_low_interval))%Q).
  { vm_compute. discriminate. }
  assert (Hlow : AutoScaler.low_condition one_low_interval 10 three_nodes
                   idle_metrics = true) by (vm_compute; reflexivity).
  destruct (low_pass_counts_or_scales_down one_low_interval a' 10
              three_nodes m' idle_metrics Hlh Hlow E)
    as (_ & [(Hs & _)|(_ & Hn & Hl & Hc & Ht)]).
  - vm_compute in Hs. discriminate.
  - exists a', m'. split; [reflexivity|].
    split; [|split; [exact Hc|exact Ht]].
    assert (H0 : 0 <= AutoScaler.min_nodes (AutoScaler.cfg one_low_interval))
      by (vm_compute; discriminate).
    specialize (Hl H0). change (length (CloudSystemModel.nodes three_nodes))
      with 3%nat in Hl. lia.
Defined.

(** X14. [remove_node] undoes [add_node] on the pool: after a
    successful [add_node] the new node is active, its id is the former
    pool length, and [remove_node] answers [True] and restores the pool;
    the queue, the two terminal collections and the id counter are as
    they were before the node was added.  On an empty pool
    [remove_node] answers [False] and changes nothing. *)
Theorem remove_node_undoes_add_node :
  forall (m m1 : CloudSystemModel.t) (n : StorageNode.t),
    CloudSystemModel.add_node m = Some (n, m1) ->
    StorageNode.is_active n = true
    /\ StorageNode.node_id n = Z.of_nat (length (CloudSystemModel.nodes m))
    /\ CloudSystemModel.nodes m1 = CloudSystemModel.nodes m ++ [n]
    /\ fst (CloudSystemModel.remove_node m1) = true
    /\ CloudSystemModel.nodes (snd (CloudSystemModel.remove_node m1))
       = CloudSystemModel.nodes m
    /\ CloudSystemModel.queue_items (snd (CloudSystemModel.remove_node m1))
       = CloudSystemModel.queue_items m
    /\ CloudSystemModel.processed_requests
         (snd (CloudSystemModel.remove_node m1))
       = CloudSystemModel.processed_requests m
    /\ CloudSystemModel.rejected_requests
         (snd (CloudSystemModel.remove_node m1))
       = CloudSystemModel.rejected_requests m
    /\ CloudSystemModel.next_request_id
         (snd (CloudSystemModel.remove_node m1))
       = CloudSystemModel.next_request_id m
    /\ (CloudSystemModel.nodes m = [] ->
        CloudSystemModel.remove_node m = (false, m)).
Proof.
  intros m m1 n H. unfold CloudSystemModel.add_node, StorageNode.new in H.
  destruct (0 <? _); [|discriminate]. some_inv H.
  unfold CloudSystemModel.remove_node. cbn [CloudSystemModel.nodes].
  assert (Hpos : (0 <? Z.of_nat (length (CloudSystemModel.nodes m ++
             [StorageNode.mk (CloudSystemModel.objects_created m)
                (Z.of_nat (length (CloudSystemModel.nodes m)))
                (CloudSystemModel.node_capacity (CloudSystemModel.cfg m))
                true]))) = true).
  { apply Z.ltb_lt. rewrite length_app. simpl. lia. }
  rewrite Hpos. cbn [fst snd CloudSystemModel.nodes
    CloudSystemModel.queue_items CloudSystemModel.processed_requests
    CloudSystemModel.rejected_requests CloudSystemModel.next_request_id
    StorageNode.is_active StorageNode.node_id].
  rewrite removelast_last. repeat split.
  intros ->. reflexivity.
Qed.

Lemma remove_node_undoes_add_node_witness :
  exists n m1,
    CloudSystemModel.add_node three_nodes = Some (n, m1)
    /\ StorageNode.node_id n = 3
    /\ CloudSystemModel.nodes (snd (CloudSystemModel.remove_node m1))
       = CloudSystemModel.nodes three_nodes.
Proof.
  destruct (CloudSystemModel.add_node three_nodes) as [[n m1]|] eqn:E;
    [|vm_compute in E; discriminate].
  destruct (remove_node_undoes_add_node three_nodes m1 n E)
    as (_ & Hid & _ & _ & Hn & _).
  exists n, m1. split; [reflexivity|]. split; [exact Hid|exact Hn].
Defined.

(** ** Further properties: what the controller records *)




Lemma with_final_sample_nonneg (samples : list (Q * Z)) (t : Q)
    (cur : Z) :
  nonneg_values samples -> 0 <= cur ->
  nonneg_values (AutoScaler.with_final_sample samples t cur).
Proof.
  intros Hv Hc. unfold AutoScaler.with_final_sample.
  destruct samples as [|p l]; [repeat constructor; exact Hc|].
  destruct (Qlt_bool _ t); [|exact Hv].
  apply Forall_app. split; [exact Hv|]. repeat constructor. exact Hc.
Qed.

(** X5. Whatever the sample times are, the interval average queue
    length that [_calculate_interval_metrics] returns is not negative
    when none of the sampled queue lengths is; the samples it leaves
    behind are those it was given, with the final one appended when it
    is later than the last. *)
Theorem interval_queue_length_nonneg :
  forall (a : AutoScaler.t) (t : Q) (m : CloudSystemModel.t),
    nonneg_values (AutoScaler.interval_queue_lengths a) ->
    (0 <= AutoScaler.queue_length
            (fst (AutoScaler._calculate_interval_metrics a t m)))%Q
    /\ nonneg_values
         (AutoScaler.interval_queue_lengths
            (snd (AutoScaler._calculate_interval_metrics a t m)))
    /\ AutoScaler.interval_queue_lengths
         (snd (AutoScaler._calculate_interval_metrics a t m))
       = AutoScaler.with_final_sample (AutoScaler.interval_queue_lengths a)
           t (CloudSystemModel.get_queue_length m).
Proof.
  intros a t m Hv.
  assert (Hcur : 0 <= CloudSystemModel.get_queue_length m)
    by (unfold CloudSystemModel.get_queue_length; lia).
  pose proof (with_final_sample_nonneg _ t _ Hv Hcur) as Hs.
  unfold AutoScaler._calculate_interval_metrics.
  cbn [fst snd AutoScaler.queue_length AutoScaler.set_interval
       AutoScaler.interval_queue_lengths].
  split; [|split; [exact Hs|reflexivity]].
  apply interval_avg_nonneg; assumption.
Qed.

Lemma interval_queue_length_nonneg_witness :
  nonneg_values ramp_series
  /\ (0 <= AutoScaler.queue_length
             (fst (AutoScaler._calculate_interval_metrics
                     (AutoScaler.set_interval
                        (AutoScaler.init AutoScaler.default_config) 0
                        ramp_series [])
                     2 three_nodes)))%Q.
Proof.
  assert (H : nonneg_values ramp_series)
    by (repeat constructor; simpl; lia).
  split; [exact H|].
  apply (interval_queue_length_nonneg
           (AutoScaler.set_interval
              (AutoScaler.init AutoScaler.default_config) 0 ramp_series [])
           2 three_nodes H).
Defined.











